(** * Sudoku: the CSV loader and the backtracking solver of sudoku_tools.py

    A shallow embedding of class [Sudoku] (src/sudoku_tools.py) and the
    properties of its loader and of its recursive search.

    Conventions of the embedding.
    - Python ints that hold cell values and the two subgrid counts are [Z];
      list indices, the side length and the search index are [nat]: every
      index the code builds is a non-negative int.
    - A Python exception that the code does not catch is a [Raise]; the
      two exceptions it does catch (FileNotFoundError, ValueError) are
      ordinary branches.
    - Instance attributes are the fields of the record [Sudoku]; a method
      is a function from the instance to a result and the instance after
      the call.
    - The recursion of [process_board] is bounded by a number of nested
      activations, [fuel]; the interpreter's own recursion limit is not
      modelled. *)

From Stdlib Require Import String Ascii.
From Stdlib Require Import List ZArith Lia Bool Arith PeanoNat Permutation.
Import ListNotations.

Set Implicit Arguments.

(* ================================================================== *)
(** ** Results, exceptions and state passing *)

Inductive exn : Type :=
| IndexError          (* list index out of range *)
| TypeError           (* None used as a list *)
| ZeroDivisionError.  (* // or % by zero *)

(** What a call produces: a value, an uncaught exception, or (for the
    recursive search only) no answer within the given number of nested
    activations. *)
Inductive outcome (A : Type) : Type :=
| Ret (a : A)
| Raise (e : exn)
| OutOfFuel.

Arguments Raise {A} e.
Arguments OutOfFuel {A}.

Definition obind {A B} (m : outcome A) (k : A -> outcome B) : outcome B :=
  match m with
  | Ret a => k a
  | Raise e => Raise e
  | OutOfFuel => OutOfFuel
  end.

(** Code that runs on a mutable store [S]; the store survives a raise. *)
Definition Run (S A : Type) : Type := S -> outcome A * S.

Definition ret {S A} (a : A) : Run S A := fun s => (Ret a, s).

Definition bind {S A B} (m : Run S A) (k : A -> Run S B) : Run S B :=
  fun s =>
    match m s with
    | (Ret a, s') => k a s'
    | (Raise e, s') => (Raise e, s')
    | (OutOfFuel, s') => (OutOfFuel, s')
    end.

(** A computation that only reads the store. *)
Definition read {S A} (f : S -> outcome A) : Run S A := fun s => (f s, s).

(** A computation that needs no store at all. *)
Definition lift {S A} (o : outcome A) : Run S A := fun s => (o, s).

Declare Scope run_scope.
Delimit Scope run_scope with run.
Notation "x <- m ;; k" := (bind m (fun x => k))
  (at level 61, m at next level, right associativity) : run_scope.
Notation "m ;;; k" := (bind m (fun _ => k))
  (at level 61, right associativity) : run_scope.

Declare Scope outcome_scope.
Delimit Scope outcome_scope with outcome.
Notation "x <~ m ;; k" := (obind m (fun x => k))
  (at level 61, m at next level, right associativity) : outcome_scope.

(* ================================================================== *)
(** ** The Python built-ins the loader relies on *)

Module Py.

(** [range(n)] *)
Definition range (n : nat) : list nat := seq 0 n.

(** [range(n)] for an int that may be negative: empty then. *)
Definition rangeZ (n : Z) : list nat := seq 0 (Z.to_nat n).

(** [range(a, b)] *)
Definition range_from (a b : nat) : list nat := seq a (b - a).

Definition newline : ascii := ascii_of_nat 10.
Definition comma : ascii := ascii_of_nat 44.
Definition underscore : ascii := ascii_of_nat 95.
Definition plus_sign : ascii := ascii_of_nat 43.
Definition minus_sign : ascii := ascii_of_nat 45.

(** [s.lstrip(ch)] and [s.rstrip(ch)] for a one-character argument. *)
Fixpoint lstrip (ch : ascii) (s : string) : string :=
  match s with
  | EmptyString => EmptyString
  | String a s' => if Ascii.eqb a ch then lstrip ch s' else s
  end.

Fixpoint rstrip (ch : ascii) (s : string) : string :=
  match s with
  | EmptyString => EmptyString
  | String a s' =>
      match rstrip ch s' with
      | EmptyString => if Ascii.eqb a ch then EmptyString else String a EmptyString
      | t => String a t
      end
  end.

(** [s.strip(ch)] *)
Definition strip (ch : ascii) (s : string) : string := rstrip ch (lstrip ch s).

(** [s.split(sep)] for a one-character separator: never empty, an empty
    string gives one empty field. *)
Fixpoint split (sep : ascii) (s : string) : list string :=
  match s with
  | EmptyString => [EmptyString]
  | String a s' =>
      if Ascii.eqb a sep then EmptyString :: split sep s'
      else match split sep s' with
           | [] => [String a EmptyString]
           | w :: ws => String a w :: ws
           end
  end.

(** White space as [int()] skips it around the digits (ASCII part:
    tab, line feed, vertical tab, form feed, carriage return, the four
    separators 28..31 and the blank). *)
Definition is_space (a : ascii) : bool :=
  let n := nat_of_ascii a in
  ((9 <=? n) && (n <=? 13)) || ((28 <=? n) && (n <=? 32)).

Definition is_digit (a : ascii) : bool :=
  let n := nat_of_ascii a in (48 <=? n) && (n <=? 57).

Definition digit_value (a : ascii) : Z := Z.of_nat (nat_of_ascii a - 48).

Fixpoint lstrip_space (s : string) : string :=
  match s with
  | EmptyString => EmptyString
  | String a s' => if is_space a then lstrip_space s' else s
  end.

Fixpoint rstrip_space (s : string) : string :=
  match s with
  | EmptyString => EmptyString
  | String a s' =>
      match rstrip_space s' with
      | EmptyString => if is_space a then EmptyString else String a EmptyString
      | t => String a t
      end
  end.

(** The digits of a decimal literal: at least one digit, and single
    underscores allowed between two digits only.  [after_digit] tells
    whether the character just read was a digit. *)
Fixpoint digits (s : string) (acc : Z) (after_digit : bool) : option Z :=
  match s with
  | EmptyString => if after_digit then Some acc else None
  | String a s' =>
      if is_digit a then digits s' (10 * acc + digit_value a)%Z true
      else if Ascii.eqb a underscore
           then (if after_digit then digits s' acc false else None)
           else None
  end.

(** [int(s)] for a string, base ten: [None] stands for ValueError.
    Strings are ASCII text here; the interpreter's cap on the number of
    digits is not modelled. *)
Definition int (s : string) : option Z :=
  match rstrip_space (lstrip_space s) with
  | EmptyString => None
  | String a s' =>
      if Ascii.eqb a minus_sign then option_map Z.opp (digits s' 0%Z false)
      else if Ascii.eqb a plus_sign then digits s' 0%Z false
      else digits (String a s') 0%Z false
  end.

End Py.

(* ================================================================== *)
(** ** Data model *)

(** A coordinate is the two-element list [[row, column]]. *)
Definition coord : Type := (nat * nat)%type.

Definition coord_eqb (p q : coord) : bool :=
  (fst p =? fst q) && (snd p =? snd q).

(** [p in coords] *)
Definition coord_in (p : coord) (coords : list coord) : bool :=
  existsb (coord_eqb p) coords.

(** The game board: a list of rows. *)
Definition grid : Type := list (list Z).

(** The text read from disk: for a path, the lines of the file as the
    file iterator yields them, or nothing when there is no such file. *)
Definition filesystem : Type := string -> option (list string).

Record Sudoku : Type := mkSudoku {
  verbosity : bool;
  board : option grid;
  sudoku_N : option nat;
  subgrid_row_count : option Z;
  subgrid_column_count : option Z;
  subgrid_coordinates : option (list (list coord));
  protected_coordinates : list coord;
  (** what [condition_print] has written to standard output, oldest first *)
  printed : list string
}.

(** The class attributes: the instance before any load. *)
Definition new_Sudoku (verbose : bool) : Sudoku :=
  {| verbosity := verbose;
     board := None;
     sudoku_N := None;
     subgrid_row_count := None;
     subgrid_column_count := None;
     subgrid_coordinates := None;
     protected_coordinates := [];
     printed := [] |}.

Definition Method (A : Type) : Type := Run Sudoku A.

Definition condition_print (msg : string) : Method unit :=
  fun self =>
    (Ret tt,
     if verbosity self
     then {| verbosity := verbosity self;
             board := board self;
             sudoku_N := sudoku_N self;
             subgrid_row_count := subgrid_row_count self;
             subgrid_column_count := subgrid_column_count self;
             subgrid_coordinates := subgrid_coordinates self;
             protected_coordinates := protected_coordinates self;
             printed := (printed self ++ [msg])%list |}
     else self).

(** [g[row][col]] *)
Definition cell {A} (g : list (list A)) (p : coord) : outcome A :=
  match nth_error g (fst p) with
  | None => Raise IndexError
  | Some row =>
      match nth_error row (snd p) with
      | None => Raise IndexError
      | Some x => Ret x
      end
  end.

(** [l[i] = x] on a list that holds index [i]. *)
Fixpoint list_set {A} (l : list A) (i : nat) (x : A) : list A :=
  match l, i with
  | [], _ => []
  | _ :: t, 0 => x :: t
  | h :: t, S i' => h :: list_set t i' x
  end.

(** [g[row][col] = x] *)
Definition set_cell (p : coord) (x : Z) : Run grid unit :=
  fun g =>
    match nth_error g (fst p) with
    | None => (Raise IndexError, g)
    | Some row =>
        if snd p <? length row
        then (Ret tt, list_set g (fst p) (list_set row (snd p) x))
        else (Raise IndexError, g)
    end.

(* ================================================================== *)
(** ** Loading a board: [load_board_csv] and its helpers *)

Section Loader.

Local Open Scope string_scope.

Definition msg_not_found (path : string) : string :=
  "The file at path '" ++ path ++ "' was not found. Aborting.".

Definition msg_not_square (path : string) : string :=
  "Illegal configuration of csv file at '" ++ path ++ "'".

Definition msg_bad_subgrids : string := "Invalid configuration, aborting".

Definition msg_not_numeric (text : string) : string :=
  "Board cells can only consistof numbers but found:'" ++ text
    ++ "'. Aborting board setup.".

Local Close Scope string_scope.

(** The inner loop of [__convert_grid_str_to_int] on one row: the cells
    at the given column indices, converted in order.  [inr text] is the
    cell whose conversion raised ValueError. *)
Fixpoint convert_cells (row : list string) (cols : list nat)
  : outcome (list Z + string) :=
  match cols with
  | [] => Ret (inl [])
  | col_index :: cols' =>
      match nth_error row col_index with
      | None => Raise IndexError
      | Some text =>
          match Py.int text with
          | None => Ret (inr text)
          | Some num =>
              obind (convert_cells row cols')
                (fun rest =>
                   match rest with
                   | inl nums => Ret (inl (num :: nums))
                   | inr bad => Ret (inr bad)
                   end)
          end
      end
  end.

(** The outer loop: rows at the given row indices, each converted over
    the column indices [range(len(board))]. *)
Fixpoint convert_rows (text_board : list (list string)) (rows : list nat)
  : outcome (grid + string) :=
  match rows with
  | [] => Ret (inl [])
  | row_index :: rows' =>
      match nth_error text_board row_index with
      | None => Raise IndexError
      | Some row =>
          obind (convert_cells row (Py.range (length text_board)))
            (fun converted =>
               match converted with
               | inr bad => Ret (inr bad)
               | inl nums =>
                   obind (convert_rows text_board rows')
                     (fun rest =>
                        match rest with
                        | inl g => Ret (inl (nums :: g))
                        | inr bad => Ret (inr bad)
                        end)
               end)
      end
  end.

(** [__convert_grid_str_to_int]: the source overwrites the cells of
    [board] one by one; here the converted board is returned next to
    the boolean ([None] with [False], where the caller drops the
    board). *)
Definition convert_grid_str_to_int (text_board : list (list string))
  : Method (bool * option grid) :=
  (converted <- lift (convert_rows text_board
                        (Py.range (length text_board))) ;;
   match converted with
   | inl g => ret (true, Some g)
   | inr bad => condition_print (msg_not_numeric bad) ;;; ret (false, None)
   end)%run.

(** The coordinates, among the given ones and in their order, whose
    cell is not 0. *)
Fixpoint nonzero_coordinates (g : grid) (coords : list coord)
  : outcome (list coord) :=
  match coords with
  | [] => Ret []
  | p :: coords' =>
      (x <~ cell g p ;;
       rest <~ nonzero_coordinates g coords' ;;
       Ret (if (x =? 0)%Z then rest else p :: rest))%outcome
  end.

(** Row-major [[row, col]] pairs of two nested [for] loops. *)
Definition nested (rows cols : list nat) : list coord :=
  flat_map (fun i => map (fun j => (i, j)) cols) rows.

Definition with_protected (coords : list coord) (self : Sudoku) : Sudoku :=
  {| verbosity := verbosity self;
     board := board self;
     sudoku_N := sudoku_N self;
     subgrid_row_count := subgrid_row_count self;
     subgrid_column_count := subgrid_column_count self;
     subgrid_coordinates := subgrid_coordinates self;
     protected_coordinates := coords;
     printed := printed self |}.

Definition with_subgrids (subgrids : list (list coord)) (self : Sudoku)
  : Sudoku :=
  {| verbosity := verbosity self;
     board := board self;
     sudoku_N := sudoku_N self;
     subgrid_row_count := subgrid_row_count self;
     subgrid_column_count := subgrid_column_count self;
     subgrid_coordinates := Some subgrids;
     protected_coordinates := protected_coordinates self;
     printed := printed self |}.

(** The four assignments of [load_board_csv] after its checks. *)
Definition with_board (g : grid) (rows columns : Z) (self : Sudoku) : Sudoku :=
  {| verbosity := verbosity self;
     board := Some g;
     sudoku_N := Some (length g);
     subgrid_row_count := Some rows;
     subgrid_column_count := Some columns;
     subgrid_coordinates := subgrid_coordinates self;
     protected_coordinates := protected_coordinates self;
     printed := printed self |}.

(** [__set_protected_coordinates] *)
Definition set_protected_coordinates (g : grid) : Method bool :=
  (protected <- lift (nonzero_coordinates g
                        (nested (Py.range (length g)) (Py.range (length g)))) ;;
   (fun self => (Ret true, with_protected protected self)))%run.

(** The subgrids that [__set_subgrid_coordinates] builds: the
    coordinates relative to one subgrid, then one copy of them for each
    [i in range(subgrid_column_count)], [j in range(subgrid_row_count)],
    moved by [i * subgrid_row_count] rows and [j * subgrid_column_count]
    columns. *)
Definition subgrids_of (subgrid_row_count subgrid_column_count : Z)
  : list (list coord) :=
  let sub_coords :=
    nested (Py.rangeZ subgrid_row_count) (Py.rangeZ subgrid_column_count) in
  flat_map
    (fun i =>
       map (fun j =>
              map (fun sub : coord =>
                     (i * Z.to_nat subgrid_row_count + fst sub,
                      j * Z.to_nat subgrid_column_count + snd sub))
                  sub_coords)
           (Py.rangeZ subgrid_row_count))
    (Py.rangeZ subgrid_column_count).

(** [__set_subgrid_coordinates] *)
Definition set_subgrid_coordinates (subgrid_row_count subgrid_column_count : Z)
  : Method unit :=
  fun self =>
    (Ret tt,
     with_subgrids (subgrids_of subgrid_row_count subgrid_column_count) self).

End Loader.

(** [[row.strip(newline).split(comma) for row in csv_file]] *)
Definition text_board_of (csv_file : list string) : list (list string) :=
  map (fun row => Py.split Py.comma (Py.strip Py.newline row)) csv_file.

Section Load.

Variable fs : filesystem.

(** [load_board_csv]: the result is Python's [True], [False] or [None],
    written [Some true], [Some false] and [None]. *)
Definition load_board_csv (path : string)
    (subgrid_row_count subgrid_column_count : Z) : Method (option bool) :=
  match fs path with
  | None =>
      (condition_print (msg_not_found path) ;;; ret (Some false))%run
  | Some csv_file =>
      let text_board := text_board_of csv_file in
      if existsb (fun row => negb (length row =? length text_board)) text_board
      then (condition_print (msg_not_square path) ;;; ret (Some false))%run
      else if negb (subgrid_row_count * subgrid_column_count
                    =? Z.of_nat (length text_board))%Z
      then (condition_print msg_bad_subgrids ;;; ret None)%run
      else
        (converted <- convert_grid_str_to_int text_board ;;
         match converted with
         | (true, Some g) =>
             ok <- set_protected_coordinates g ;;
             if negb ok then ret (Some false)
             else
               (fun self =>
                  (Ret tt, with_board g subgrid_row_count
                                      subgrid_column_count self)) ;;;
               set_subgrid_coordinates subgrid_row_count
                                       subgrid_column_count ;;;
               ret (Some true)
         | _ => ret (Some false)
         end)%run
  end.

End Load.

(* ================================================================== *)
(** ** The solver: [backtrack] and its nested [process_board] *)

Section Solver.

(** What the closure [process_board] reads from the instance and never
    writes: the side length, the subgrids and the protected list.  The
    board, which it does write, is the store. *)
Variable N : nat.
Variable subgrids : list (list coord).
Variable protected : list coord.

(** [__get_subgrid_from_coord]: the first subgrid that holds the
    coordinate; the method falls off its end, returning Python's [None],
    when there is none. *)
Definition get_subgrid_from_coord (coordinate : coord) : option (list coord) :=
  find (fun sub => coord_in coordinate sub) subgrids.

(** [__get_coord_from_index] *)
Definition get_coord_from_index (index : nat) : outcome coord :=
  if N =? 0 then Raise ZeroDivisionError
  else Ret (index / N, index mod N).

(** The first loop of [__validate_num_at_coord]: [false] as soon as the
    number is met in the row or in the column. *)
Fixpoint rows_columns_free (g : grid) (num : Z) (c : coord) (indices : list nat)
  : outcome bool :=
  match indices with
  | [] => Ret true
  | i :: indices' =>
      (in_row <~ cell g (fst c, i) ;;
       if (num =? in_row)%Z then Ret false
       else
         in_col <~ cell g (i, snd c) ;;
         if (num =? in_col)%Z then Ret false
         else rows_columns_free g num c indices')%outcome
  end.

(** [[self.__board[c[0]][c[1]] for c in subgrid_coords]] *)
Fixpoint cells (g : grid) (coords : list coord) : outcome (list Z) :=
  match coords with
  | [] => Ret []
  | p :: coords' =>
      (x <~ cell g p ;; rest <~ cells g coords' ;; Ret (x :: rest))%outcome
  end.

(** [__validate_num_at_coord]; it reads the board and writes nothing. *)
Definition validate_num_at_coord (num : Z) (c : coord) (g : grid)
  : outcome bool :=
  (free <~ rows_columns_free g num c (Py.range N) ;;
   if negb free then Ret false
   else
     match get_subgrid_from_coord c with
     | None => Raise TypeError
     | Some subgrid_coords =>
         subgrid_nums <~ cells g subgrid_coords ;;
         if existsb (Z.eqb num) subgrid_nums then Ret false else Ret true
     end)%outcome.

(** The index the search moves to from [current_index]: one further,
    or two when the coordinate one further is protected. *)
Definition next_index (current_index : nat) : outcome nat :=
  (next_coord <~ get_coord_from_index (current_index + 1) ;;
   Ret (if coord_in next_coord protected
        then current_index + 1 + 1
        else current_index + 1))%outcome.

(** The [for d in range(1, N + 1)] loop of [process_board] over the
    candidates still to try; [recurse] is the recursive call.  The
    result tells whether the loop left through [return True]. *)
Fixpoint try_candidates (recurse : nat -> Run grid bool)
    (current_index : nat) (c : coord) (ds : list nat) : Run grid bool :=
  match ds with
  | [] => ret false
  | d :: ds' =>
      (valid <- read (validate_num_at_coord (Z.of_nat d) c) ;;
       if valid then
         set_cell c (Z.of_nat d) ;;;
         next <- lift (next_index current_index) ;;
         solved <- recurse next ;;
         if solved then ret true
         else try_candidates recurse current_index c ds'
       else try_candidates recurse current_index c ds')%run
  end.

(** [process_board]; [fuel] bounds the number of nested activations,
    this one included. *)
Fixpoint process_board (fuel : nat) (current_index : nat) : Run grid bool :=
  match fuel with
  | 0 => fun g => (OutOfFuel, g)
  | S fuel' =>
      if N ^ 2 <=? current_index then ret true
      else
        (c <- lift (get_coord_from_index current_index) ;;
         solved <- try_candidates (process_board fuel') current_index c
                     (Py.range_from 1 (N + 1)) ;;
         if solved then ret true
         else set_cell c 0%Z ;;; ret false)%run
  end.

End Solver.

Definition set_board (g : grid) (self : Sudoku) : Sudoku :=
  {| verbosity := verbosity self;
     board := Some g;
     sudoku_N := sudoku_N self;
     subgrid_row_count := subgrid_row_count self;
     subgrid_column_count := subgrid_column_count self;
     subgrid_coordinates := subgrid_coordinates self;
     protected_coordinates := protected_coordinates self;
     printed := printed self |}.

Section Backtrack.

Local Open Scope string_scope.

(** [backtrack]: the three guards, then the search from index 0.  The
    search gets room for [N ** 2] nested calls below the first one. *)
Definition backtrack : Method bool :=
  fun self =>
    match board self, sudoku_N self, subgrid_coordinates self with
    | Some g, Some n, Some subgrids =>
        match process_board n subgrids (protected_coordinates self)
                            (S (n ^ 2)) 0 g with
        | (Ret true, g') =>
            (condition_print "Board has at least one solution." ;;;
             ret true)%run (set_board g' self)
        | (Ret false, g') =>
            (condition_print "Board has no solutions." ;;;
             ret false)%run (set_board g' self)
        | (Raise e, g') => (Raise e, set_board g' self)
        | (OutOfFuel, g') => (OutOfFuel, set_board g' self)
        end
    | _, _, _ => (Ret false, self)
    end.

End Backtrack.

(* ================================================================== *)
(** ** Boards as square grids *)

(** The board of a loaded instance: [n] rows of [n] cells. *)
Definition square (n : nat) (g : grid) : Prop :=
  length g = n /\ Forall (fun row => length row = n) g.

Definition in_bounds (n : nat) (p : coord) : Prop := fst p < n /\ snd p < n.

(** The cell at a coordinate, read without the range check. *)
Definition value_at (g : grid) (p : coord) : Z :=
  nth (snd p) (nth (fst p) g []) 0%Z.

(** The board after [g[row][col] = x] on a coordinate it holds. *)
Definition put (g : grid) (p : coord) (x : Z) : grid :=
  list_set g (fst p) (list_set (nth (fst p) g []) (snd p) x).

(* ================================================================== *)
(** ** Vocabulary of the properties *)

(** The coordinate of a search index, and back. *)
Definition coord_of (n index : nat) : coord := (index / n, index mod n).

Definition index_of (n : nat) (p : coord) : nat := fst p * n + snd p.

(** All coordinates of an n by n board, row by row. *)
Definition all_coords (n : nat) : list coord :=
  nested (Py.range n) (Py.range n).

(** The givens of a board: the coordinates whose cell is not 0. *)
Definition givens (g : grid) : list coord :=
  filter (fun p => negb (value_at g p =? 0)%Z) (all_coords (length g)).

(** The cells of a row of text, converted in order; [inr text] is the
    first one that [int] rejects. *)
Fixpoint ints_of (texts : list string) : list Z + string :=
  match texts with
  | [] => inl []
  | text :: texts' =>
      match Py.int text with
      | None => inr text
      | Some num =>
          match ints_of texts' with
          | inl nums => inl (num :: nums)
          | inr bad => inr bad
          end
      end
  end.

Fixpoint grid_of (text_board : list (list string)) : grid + string :=
  match text_board with
  | [] => inl []
  | row :: rows =>
      match ints_of row with
      | inr bad => inr bad
      | inl nums =>
          match grid_of rows with
          | inl g => inl (nums :: g)
          | inr bad => inr bad
          end
      end
  end.

(** Every row is as long as the board is high. *)
Definition is_square {A} (b : list (list A)) : bool :=
  forallb (fun row => length row =? length b) b.

(** The instance a successful load leaves. *)
Definition loaded_instance (g : grid) (rows columns : Z) (self : Sudoku)
  : Sudoku :=
  with_subgrids (subgrids_of rows columns)
    (with_board g rows columns (with_protected (givens g) self)).

(** The instance after [condition_print msg]. *)
Definition after_print (msg : string) (self : Sudoku) : Sudoku :=
  snd (condition_print msg self).

(** The index [process_board] recurses on from [index]. *)
Definition step (n : nat) (protected : list coord) (index : nat) : nat :=
  if coord_in (coord_of n (index + 1)) protected
  then index + 1 + 1
  else index + 1.

(** [visits n protected i j]: a search entered at index [i] reaches a
    call at index [j] that is below [n ^ 2], so that works on cell [j]. *)
Inductive visits (n : nat) (protected : list coord) : nat -> nat -> Prop :=
| visits_here i : i < n ^ 2 -> visits n protected i i
| visits_later i j :
    i < n ^ 2 -> visits n protected (step n protected i) j ->
    visits n protected i j.

(** The same as a list, for at most [fuel] calls. *)
Fixpoint visited (n : nat) (protected : list coord) (fuel index : nat)
  : list nat :=
  match fuel with
  | 0 => []
  | S fuel' =>
      if n ^ 2 <=? index then []
      else index :: visited n protected fuel' (step n protected index)
  end.

(** Two coordinates share a row, a column or a subgrid. *)
Definition peers (subgrids : list (list coord)) (p q : coord) : Prop :=
  fst p = fst q \/ snd p = snd q \/
  exists sub, In sub subgrids /\ In p sub /\ In q sub.

Definition peersb (subgrids : list (list coord)) (p q : coord) : bool :=
  (fst p =? fst q) || (snd p =? snd q)
  || existsb (fun sub => coord_in p sub && coord_in q sub) subgrids.

(** Two different cells that share a unit hold the same non-zero value. *)
Definition clash (subgrids : list (list coord)) (g : grid) (p q : coord)
  : bool :=
  negb (coord_eqb p q) && peersb subgrids p q
  && negb (value_at g p =? 0)%Z && (value_at g p =? value_at g q)%Z.

(** No two cells of the board clash. *)
Definition consistent (n : nat) (subgrids : list (list coord)) (g : grid)
  : bool :=
  forallb (fun p => forallb (fun q => negb (clash subgrids g p q))
                            (all_coords n))
          (all_coords n).

(** Every cell is empty or holds a value of 1..n. *)
Definition in_range (n : nat) (g : grid) : bool :=
  forallb (fun p => (value_at g p =? 0)%Z
                    || ((1 <=? value_at g p)%Z && (value_at g p <=? Z.of_nat n)%Z))
          (all_coords n).

(** The values 1..n. *)
Definition one_to (n : nat) : list Z := map Z.of_nat (seq 1 n).

Definition row_values (g : grid) (i : nat) : list Z := nth i g [].

Definition column_values (n : nat) (g : grid) (j : nat) : list Z :=
  map (fun i => value_at g (i, j)) (seq 0 n).

Definition subgrid_values (g : grid) (sub : list coord) : list Z :=
  map (value_at g) sub.

(** Every row, column and subgrid holds each value of 1..n exactly once. *)
Definition solved (n : nat) (subgrids : list (list coord)) (g : grid) : Prop :=
  (forall i, i < n -> Permutation (row_values g i) (one_to n)) /\
  (forall j, j < n -> Permutation (column_values n g j) (one_to n)) /\
  (forall sub, In sub subgrids -> Permutation (subgrid_values g sub) (one_to n)).

(** The subgrids for two counts that are not negative. *)
Definition tiles (rows columns : nat) : list (list coord) :=
  subgrids_of (Z.of_nat rows) (Z.of_nat columns).

(** The subgrids tile the board: their members, taken together, are the
    coordinates of the board, each one once; and each subgrid has [n]
    members. *)
Definition tiling (n : nat) (subgrids : list (list coord)) : Prop :=
  Permutation (concat subgrids) (all_coords n) /\
  Forall (fun sub => length sub = n) subgrids.

(** Every clash of the board is one of the pairs that [tolerated] lists. *)
Definition clashes_within (n : nat) (subgrids : list (list coord))
    (tolerated : coord -> coord -> Prop) (g : grid) : Prop :=
  forall p q, in_bounds n p -> in_bounds n q -> p <> q ->
    peers subgrids p q -> value_at g p <> 0%Z ->
    value_at g p = value_at g q -> tolerated p q.

Definition no_clash (n : nat) (subgrids : list (list coord)) (g : grid) : Prop :=
  clashes_within n subgrids (fun _ _ => False) g.

(** Every cell holds a value of 1..n. *)
Definition filled (n : nat) (g : grid) : Prop :=
  forall p, in_bounds n p -> (1 <= value_at g p <= Z.of_nat n)%Z.

(** Every cell that a search entered at index [i] does not visit holds
    a value of 1..n. *)
Definition filled_but (n : nat) (protected : list coord) (i : nat) (g : grid)
  : Prop :=
  forall j, j < n ^ 2 ->
    visits n protected i j \/
    (1 <= value_at g (coord_of n j) <= Z.of_nat n)%Z.

(** The givens of an instance lie in 1..N and no two of them clash. *)
Definition givens_valid (self : Sudoku) : bool :=
  match board self, sudoku_N self, subgrid_coordinates self with
  | Some g, Some n, Some subgrids => in_range n g && consistent n subgrids g
  | _, _, _ => false
  end.

(** The board of an instance is a solved board. *)
Definition board_solved (self : Sudoku) : Prop :=
  match board self, sudoku_N self, subgrid_coordinates self with
  | Some g, Some n, Some subgrids => solved n subgrids g
  | _, _, _ => False
  end.

(** The cell of an instance's board at a coordinate, if it has one. *)
Definition board_cell (self : Sudoku) (p : coord) : option Z :=
  match board self with
  | Some g =>
      match cell g p with
      | Ret x => Some x
      | _ => None
      end
  | None => None
  end.

(** [p] and [q] are two cells of one row of the board that hold the
    same value, which is not 0. *)
Definition row_pair (n : nat) (g : grid) (p q : coord) : bool :=
  (fst p <? n) && (snd p <? n) && (snd q <? n)
  && (fst p =? fst q) && negb (snd p =? snd q)
  && negb (value_at g p =? 0)%Z && (value_at g p =? value_at g q)%Z.

(** The pair [p], [q], in either order. *)
Definition the_pair (p q : coord) (p' q' : coord) : Prop :=
  (p' = p /\ q' = q) \/ (p' = q /\ q' = p).

Definition the_pairb (p q : coord) (p' q' : coord) : bool :=
  (coord_eqb p' p && coord_eqb q' q) || (coord_eqb p' q && coord_eqb q' p).

(** No two cells of the board clash but [p] and [q]. *)
Definition only_clash (n : nat) (subgrids : list (list coord)) (g : grid)
    (p q : coord) : bool :=
  forallb (fun p' =>
             forallb (fun q' => negb (clash subgrids g p' q')
                                || the_pairb p q p' q')
                     (all_coords n))
          (all_coords n).

(** The search from index 0 visits no protected cell. *)
Definition givens_unvisited (n : nat) (protected : list coord) : bool :=
  forallb (fun j => negb (coord_in (coord_of n j) protected))
          (visited n protected (n ^ 2) 0).

(** A loaded instance with one clash, in a row, that the search leaves
    alone: its givens lie in 1..N; [p] and [q] are two equal givens of
    one row; no other two cells clash; and the search visits no given. *)
Definition lone_row_clash (self : Sudoku) (p q : coord) : bool :=
  match board self, sudoku_N self, subgrid_coordinates self with
  | Some g, Some n, Some subgrids =>
      in_range n g && row_pair n g p q && only_clash n subgrids g p q
      && givens_unvisited n (protected_coordinates self)
  | _, _, _ => false
  end.

(** [s] keeps every given of [g]. *)
Definition keeps_givens (n : nat) (g s : grid) : Prop :=
  forall p, in_bounds n p -> value_at g p <> 0%Z -> value_at s p = value_at g p.

(** Every member of every subgrid is a coordinate of the board. *)
Definition on_board (n : nat) (subgrids : list (list coord)) : Prop :=
  forall sub q, In sub subgrids -> In q sub -> in_bounds n q.

(** [s] completes [g] for a search entered at index [i]: it agrees with
    [g] on the cells the search does not visit, and each cell the search
    visits holds a value of 1..n that no other cell of its row, column or
    subgrid holds. *)
Definition completes (n : nat) (subgrids : list (list coord))
    (protected : list coord) (i : nat) (g s : grid) : Prop :=
  (forall j, j < n ^ 2 -> ~ visits n protected i j ->
     value_at s (coord_of n j) = value_at g (coord_of n j)) /\
  (forall j, visits n protected i j ->
     (1 <= value_at s (coord_of n j) <= Z.of_nat n)%Z /\
     forall q, in_bounds n q -> q <> coord_of n j ->
       peers subgrids (coord_of n j) q ->
       value_at s q <> value_at s (coord_of n j)).



(** No cell of the row or of the column of [c] holds [num]: what the
    first loop of [__validate_num_at_coord] finds out. *)
Definition line_free (n : nat) (g : grid) (c : coord) (num : Z) : bool :=
  negb (existsb (fun i => (num =? value_at g (fst c, i))%Z
                          || (num =? value_at g (i, snd c))%Z)
                (Py.range n)).

(* ================================================================== *)
(** ** Boards used as examples *)

Section Examples.

Local Open Scope string_scope.
Local Open Scope Z_scope.

(** A line of a file, with the line feed that ends it. *)
Definition line (text : string) : string :=
  text ++ String Py.newline EmptyString.

(** A file system with one file. *)
Definition one_file (name : string) (lines : list string) : filesystem :=
  fun path => if String.eqb path name then Some lines else None.

(** An instance as the caller makes it, loaded from a file of the given
    lines with the given subgrid counts: the result of the load and the
    instance after it. *)
Definition load_lines (lines : list string) (rows columns : Z)
  : outcome (option bool) * Sudoku :=
  load_board_csv (one_file "board.csv" lines) "board.csv" rows columns
                 (new_Sudoku false).

(** The empty 4 by 4 board. *)
Definition empty4 : list string :=
  [line "0,0,0,0"; line "0,0,0,0"; line "0,0,0,0"; line "0,0,0,0"].

(** A 4 by 4 board whose givens clash: two 1 in the first row, two 1 in
    the second column. *)
Definition clashing4 : list string :=
  [line "0,1,0,1"; line "0,1,0,0"; line "0,0,0,0"; line "0,0,0,0"].

(** A 2 by 2 board with subgrids of one row: its first row is given, and
    the board has the solution 1,2 / 2,1. *)
Definition first_row_given : list string := [line "1,2"; line "0,0"].

(** A 2 by 2 board with subgrids of one row and one given, in the
    first cell. *)
Definition first_cell_given : list string := [line "1,0"; line "0,0"].

(** A 2 by 2 board with subgrids of one row: its last row is given, and
    the board has the solution 2,1 / 1,2. *)
Definition last_row_given : list string := [line "0,0"; line "1,2"].

(** A solved 4 by 4 board. *)
Definition solved4 : list string :=
  [line "1,2,3,4"; line "3,4,1,2"; line "2,1,4,3"; line "4,3,2,1"].

(** A 9 by 9 board with 5 given twice in the first row, and once more
    below the first of them. *)
Definition three_fives : list string :=
  [line "0,5,0,5,0,0,0,0,0";
   line "0,5,0,0,0,0,0,0,0";
   line "0,0,0,0,0,0,0,0,0";
   line "0,0,0,0,0,0,0,0,0";
   line "0,0,0,0,0,0,0,0,0";
   line "0,0,0,0,0,0,0,0,0";
   line "0,0,0,0,0,0,0,0,0";
   line "0,0,0,0,0,0,0,0,0";
   line "0,0,0,0,0,0,0,0,0"].

(** A 9 by 9 board whose only givens are 5 twice in the first row. *)
Definition two_fives : list string :=
  [line "0,5,0,5,0,0,0,0,0";
   line "0,0,0,0,0,0,0,0,0";
   line "0,0,0,0,0,0,0,0,0";
   line "0,0,0,0,0,0,0,0,0";
   line "0,0,0,0,0,0,0,0,0";
   line "0,0,0,0,0,0,0,0,0";
   line "0,0,0,0,0,0,0,0,0";
   line "0,0,0,0,0,0,0,0,0";
   line "0,0,0,0,0,0,0,0,0"].

(** A 9 by 9 board whose only givens are 77 twice in the first row. *)
Definition two_big : list string :=
  [line "0,77,0,77,0,0,0,0,0";
   line "0,0,0,0,0,0,0,0,0";
   line "0,0,0,0,0,0,0,0,0";
   line "0,0,0,0,0,0,0,0,0";
   line "0,0,0,0,0,0,0,0,0";
   line "0,0,0,0,0,0,0,0,0";
   line "0,0,0,0,0,0,0,0,0";
   line "0,0,0,0,0,0,0,0,0";
   line "0,0,0,0,0,0,0,0,0"].

(** A 9 by 9 board whose only givens are 5 in the first two cells. *)
Definition adjacent_fives : list string :=
  [line "5,5,0,0,0,0,0,0,0";
   line "0,0,0,0,0,0,0,0,0";
   line "0,0,0,0,0,0,0,0,0";
   line "0,0,0,0,0,0,0,0,0";
   line "0,0,0,0,0,0,0,0,0";
   line "0,0,0,0,0,0,0,0,0";
   line "0,0,0,0,0,0,0,0,0";
   line "0,0,0,0,0,0,0,0,0";
   line "0,0,0,0,0,0,0,0,0"].

(** A 2 by 2 file with a negative cell and a cell above the side. *)
Definition out_of_range : list string := [line "-3,99"; line "0,0"].

(** A 2 by 2 file with a cell that is no number. *)
Definition with_letter : list string := [line "1,x"; line "0,0"].

(** Rows of different lengths. *)
Definition ragged : list string := [line "1,2"; line "3"].

End Examples.

(* ================================================================== *)
(** * Properties *)

Lemma coord_eqb_eq (p q : coord) : coord_eqb p q = true <-> p = q.
Proof.
  destruct p as [a b], q as [a' b']; unfold coord_eqb; simpl.
  rewrite andb_true_iff, !Nat.eqb_eq. split.
  - intros [-> ->]; reflexivity.
  - intros H; inversion H; auto.
Qed.

Lemma coord_eq_dec (p q : coord) : {p = q} + {p <> q}.
Proof. decide equality; apply Nat.eq_dec. Defined.

Lemma coord_in_In (p : coord) (l : list coord) : coord_in p l = true <-> In p l.
Proof.
  unfold coord_in. rewrite existsb_exists. split.
  - intros [q [Hq He]]. apply coord_eqb_eq in He. subst; assumption.
  - intros H. exists p. split; [assumption | apply coord_eqb_eq; reflexivity].
Qed.

Lemma length_list_set {A} (l : list A) i x : length (list_set l i x) = length l.
Proof.
  revert i; induction l as [|h t IH]; intros [|i]; simpl; auto.
Qed.

Lemma nth_list_set_eq {A} (l : list A) i x d :
  i < length l -> nth i (list_set l i x) d = x.
Proof.
  revert i; induction l as [|h t IH]; intros [|i]; simpl; intros H;
    try lia; auto. apply IH; lia.
Qed.

Lemma nth_list_set_ne {A} (l : list A) i j x d :
  i <> j -> nth j (list_set l i x) d = nth j l d.
Proof.
  revert i j; induction l as [|h t IH]; intros [|i] [|j]; simpl; intros H;
    try congruence; auto.
Qed.

Lemma list_set_twice {A} (l : list A) i x y :
  list_set (list_set l i x) i y = list_set l i y.
Proof.
  revert i; induction l as [|h t IH]; intros [|i]; simpl; auto.
  f_equal; apply IH.
Qed.

Lemma list_set_same {A} (l : list A) i d :
  list_set l i (nth i l d) = l.
Proof.
  revert i; induction l as [|h t IH]; intros [|i]; simpl; auto.
  f_equal; apply IH.
Qed.

Lemma Forall_list_set {A} (P : A -> Prop) (l : list A) i x :
  Forall P l -> P x -> Forall P (list_set l i x).
Proof.
  intros Hl Hx; revert i; induction Hl as [|h t Hh Ht IH]; intros [|i]; simpl;
    constructor; auto.
Qed.

Lemma nth_error_nth_lt {A} (l : list A) i d :
  i < length l -> nth_error l i = Some (nth i l d).
Proof. intros H. apply nth_error_nth'. assumption. Qed.

Section SquareGrids.

Variable n : nat.

Lemma square_row (g : grid) i :
  square n g -> i < n -> length (nth i g []) = n.
Proof.
  intros [Hl Hr] Hi. rewrite Forall_forall in Hr. apply Hr.
  apply nth_In. lia.
Qed.

Lemma cell_value (g : grid) (p : coord) :
  square n g -> in_bounds n p -> cell g p = Ret (value_at g p).
Proof.
  intros Hg [Hr Hc]. unfold cell, value_at.
  rewrite (nth_error_nth_lt g [] (i := fst p)) by (destruct Hg; lia).
  rewrite (nth_error_nth_lt _ 0%Z (i := snd p)); [reflexivity|].
  rewrite square_row; assumption.
Qed.

Lemma set_cell_put (g : grid) (p : coord) (x : Z) :
  square n g -> in_bounds n p -> set_cell p x g = (Ret tt, put g p x).
Proof.
  intros Hg [Hr Hc]. unfold set_cell, put.
  rewrite (nth_error_nth_lt g [] (i := fst p)) by (destruct Hg; lia).
  rewrite square_row by assumption.
  apply Nat.ltb_lt in Hc. rewrite Hc. reflexivity.
Qed.

Lemma square_put (g : grid) (p : coord) (x : Z) :
  square n g -> in_bounds n p -> square n (put g p x).
Proof.
  intros Hg [Hr Hc]. pose proof (square_row Hg Hr) as Hrow.
  destruct Hg as [Hl Hrows]. unfold put. split.
  - rewrite length_list_set. assumption.
  - apply Forall_list_set; [assumption|].
    rewrite length_list_set. assumption.
Qed.

Lemma value_at_put_eq (g : grid) (p : coord) (x : Z) :
  square n g -> in_bounds n p -> value_at (put g p x) p = x.
Proof.
  intros Hg [Hr Hc]. unfold value_at, put.
  rewrite nth_list_set_eq by (destruct Hg; lia).
  apply nth_list_set_eq. rewrite square_row; assumption.
Qed.

Lemma value_at_put_ne (g : grid) (p q : coord) (x : Z) :
  square n g -> in_bounds n p -> q <> p ->
  value_at (put g p x) q = value_at g q.
Proof.
  intros Hg [Hr Hc] Hne. unfold value_at, put.
  destruct (Nat.eq_dec (fst p) (fst q)) as [E|E].
  - rewrite <- E. rewrite nth_list_set_eq by (destruct Hg; lia).
    apply nth_list_set_ne. intros E'. apply Hne.
    destruct p, q; simpl in *; congruence.
  - rewrite nth_list_set_ne by assumption. reflexivity.
Qed.

Lemma put_twice (g : grid) (p : coord) (x y : Z) :
  square n g -> in_bounds n p -> put (put g p x) p y = put g p y.
Proof.
  intros Hg [Hr Hc]. unfold put.
  rewrite nth_list_set_eq by (destruct Hg; lia).
  rewrite !list_set_twice. reflexivity.
Qed.

Lemma put_same (g : grid) (p : coord) :
  put g p (value_at g p) = g.
Proof.
  unfold put, value_at. rewrite list_set_same. apply list_set_same.
Qed.

End SquareGrids.

(* ================================================================== *)
(** ** Coordinates of a board *)

Lemma in_nested (rows cols : list nat) (p : coord) :
  In p (nested rows cols) <-> In (fst p) rows /\ In (snd p) cols.
Proof.
  unfold nested. rewrite in_flat_map. split.
  - intros [i [Hi Hp]]. apply in_map_iff in Hp. destruct Hp as [j [<- Hj]].
    simpl. split; assumption.
  - intros [Hi Hj]. exists (fst p). split; [assumption|].
    apply in_map_iff. exists (snd p). split; [destruct p; reflexivity | assumption].
Qed.

Lemma NoDup_nested (rows cols : list nat) :
  NoDup rows -> NoDup cols -> NoDup (nested rows cols).
Proof.
  intros Hr Hc. unfold nested. induction Hr as [|i rows Hi Hr IH]; simpl.
  - constructor.
  - apply NoDup_app.
    + apply Finite.Injective_map_NoDup; [|assumption].
      intros a b E. inversion E; reflexivity.
    + exact IH.
    + intros p Hp Hq. apply in_map_iff in Hp. destruct Hp as [j [<- _]].
      apply in_flat_map in Hq. destruct Hq as [i' [Hi' Hq]].
      apply in_map_iff in Hq. destruct Hq as [j' [E _]].
      inversion E; subst. contradiction.
Qed.

Lemma length_nested (rows cols : list nat) :
  length (nested rows cols) = length rows * length cols.
Proof.
  unfold nested. induction rows as [|i rows IH]; [reflexivity|].
  cbn [flat_map]. rewrite length_app, length_map. cbn [length Nat.mul].
  f_equal. exact IH.
Qed.

Lemma in_all_coords (n : nat) (p : coord) :
  In p (all_coords n) <-> in_bounds n p.
Proof.
  unfold all_coords, Py.range, in_bounds. rewrite in_nested, !in_seq. lia.
Qed.

Lemma NoDup_all_coords (n : nat) : NoDup (all_coords n).
Proof. apply NoDup_nested; apply seq_NoDup. Qed.

Lemma length_all_coords (n : nat) : length (all_coords n) = n * n.
Proof. unfold all_coords, Py.range. rewrite length_nested, !length_seq. reflexivity. Qed.

Lemma in_givens (g : grid) (p : coord) :
  In p (givens g) <-> in_bounds (length g) p /\ value_at g p <> 0%Z.
Proof.
  unfold givens. rewrite filter_In, in_all_coords, negb_true_iff, Z.eqb_neq.
  reflexivity.
Qed.

(* ================================================================== *)
(** ** The loader, step by step *)

Lemma map_nth_range {A} (l : list A) (d : A) :
  map (fun i => nth i l d) (seq 0 (length l)) = l.
Proof.
  induction l as [|a l IH]; simpl; [reflexivity|].
  f_equal. rewrite <- seq_shift, map_map. exact IH.
Qed.

Lemma convert_cells_ints (row : list string) (cols : list nat) :
  Forall (fun c => c < length row) cols ->
  convert_cells row cols
  = Ret (ints_of (map (fun c => nth c row EmptyString) cols)).
Proof.
  induction 1 as [|c cols Hc _ IH]; simpl; [reflexivity|].
  rewrite (nth_error_nth_lt row EmptyString Hc).
  destruct (Py.int (nth c row EmptyString)); [|reflexivity].
  rewrite IH. simpl. destruct (ints_of _); reflexivity.
Qed.

Lemma convert_cells_row (row : list string) :
  convert_cells row (Py.range (length row)) = Ret (ints_of row).
Proof.
  unfold Py.range. rewrite convert_cells_ints.
  - rewrite map_nth_range. reflexivity.
  - apply Forall_forall. intros c Hc. apply in_seq in Hc. lia.
Qed.

Lemma is_square_rows {A} (b : list (list A)) :
  is_square b = true <-> Forall (fun row => length row = length b) b.
Proof.
  unfold is_square. rewrite forallb_forall, Forall_forall.
  split; intros H row Hrow; apply Nat.eqb_eq; auto.
Qed.

Lemma convert_rows_grid (text_board : list (list string)) (rows : list nat) :
  is_square text_board = true ->
  Forall (fun i => i < length text_board) rows ->
  convert_rows text_board rows
  = Ret (grid_of (map (fun i => nth i text_board []) rows)).
Proof.
  intros Hsq. induction 1 as [|i rows Hi _ IH]; simpl; [reflexivity|].
  rewrite (nth_error_nth_lt text_board [] Hi).
  assert (Hlen : length (nth i text_board []) = length text_board).
  { apply is_square_rows in Hsq. rewrite Forall_forall in Hsq.
    apply Hsq. apply nth_In. assumption. }
  rewrite <- Hlen at 1. rewrite convert_cells_row. simpl.
  destruct (ints_of _); [|reflexivity].
  rewrite IH. simpl. destruct (grid_of _); reflexivity.
Qed.

Lemma convert_rows_all (text_board : list (list string)) :
  is_square text_board = true ->
  convert_rows text_board (Py.range (length text_board))
  = Ret (grid_of text_board).
Proof.
  intros Hsq. unfold Py.range. rewrite convert_rows_grid; [|assumption|].
  - rewrite map_nth_range. reflexivity.
  - apply Forall_forall. intros c Hc. apply in_seq in Hc. lia.
Qed.

Lemma ints_of_inl (texts : list string) (nums : list Z) :
  ints_of texts = inl nums ->
  Forall2 (fun text num => Py.int text = Some num) texts nums.
Proof.
  revert nums. induction texts as [|t texts IH]; simpl; intros nums H.
  - inversion H. constructor.
  - destruct (Py.int t) eqn:Et; [|discriminate].
    destruct (ints_of texts); [|discriminate].
    inversion H; subst. constructor; auto.
Qed.

Lemma ints_of_inr (texts : list string) (bad : string) :
  ints_of texts = inr bad -> In bad texts /\ Py.int bad = None.
Proof.
  induction texts as [|t texts IH]; simpl; intros H; [discriminate|].
  destruct (Py.int t) eqn:Et.
  - destruct (ints_of texts); [discriminate|].
    inversion H; subst. destruct IH as [Hin Hbad]; auto.
  - inversion H; subst. auto.
Qed.

Lemma grid_of_inl (text_board : list (list string)) (g : grid) :
  grid_of text_board = inl g ->
  Forall2 (Forall2 (fun text num => Py.int text = Some num)) text_board g.
Proof.
  revert g. induction text_board as [|row rows IH]; simpl; intros g H.
  - inversion H. constructor.
  - destruct (ints_of row) eqn:Er; [|discriminate].
    destruct (grid_of rows); [|discriminate].
    inversion H; subst. constructor; auto using ints_of_inl.
Qed.

Lemma grid_of_inr (text_board : list (list string)) (bad : string) :
  grid_of text_board = inr bad ->
  Py.int bad = None /\ exists row, In row text_board /\ In bad row.
Proof.
  induction text_board as [|row rows IH]; simpl; intros H; [discriminate|].
  destruct (ints_of row) eqn:Er.
  - destruct (grid_of rows); [discriminate|].
    inversion H; subst. destruct IH as [Hbad [row' [Hrow Hin]]]; eauto.
  - inversion H; subst. apply ints_of_inr in Er. destruct Er. eauto.
Qed.

Lemma Forall2_length_eq {A B} (R : A -> B -> Prop) (l : list A) (l' : list B) :
  Forall2 R l l' -> length l = length l'.
Proof. induction 1; simpl; congruence. Qed.

Lemma grid_of_square (text_board : list (list string)) (g : grid) :
  is_square text_board = true -> grid_of text_board = inl g ->
  square (length text_board) g.
Proof.
  intros Hsq Hg. apply grid_of_inl in Hg. apply is_square_rows in Hsq.
  split.
  - symmetry. eapply Forall2_length_eq; eassumption.
  - revert Hsq. generalize (length text_board) as n. intros n Hsq.
    induction Hg as [|row nums rows g Hrow _ IH]; constructor.
    + apply Forall2_length_eq in Hrow. inversion Hsq; subst. congruence.
    + apply IH. inversion Hsq; assumption.
Qed.

Lemma nonzero_coordinates_filter (n : nat) (g : grid) (coords : list coord) :
  square n g -> Forall (in_bounds n) coords ->
  nonzero_coordinates g coords
  = Ret (filter (fun p => negb (value_at g p =? 0)%Z) coords).
Proof.
  intros Hg. induction 1 as [|p coords Hp _ IH]; simpl; [reflexivity|].
  rewrite (cell_value Hg Hp), IH. simpl.
  destruct (value_at g p =? 0)%Z; reflexivity.
Qed.

Lemma set_protected_coordinates_givens (n : nat) (g : grid) (self : Sudoku) :
  square n g ->
  set_protected_coordinates g self = (Ret true, with_protected (givens g) self).
Proof.
  intros Hg. unfold set_protected_coordinates, bind, lift.
  fold (all_coords (length g)).
  assert (Hn : length g = n) by (destruct Hg; assumption).
  rewrite (@nonzero_coordinates_filter n); [reflexivity | assumption |].
  apply Forall_forall. intros p Hp. rewrite Hn in Hp.
  apply in_all_coords. assumption.
Qed.

Lemma existsb_negb {A} (f : A -> bool) (l : list A) :
  existsb (fun x => negb (f x)) l = negb (forallb f l).
Proof.
  induction l as [|x l IH]; simpl; [reflexivity|].
  rewrite negb_andb, IH. reflexivity.
Qed.

(** [load_board_csv] as one case analysis on its input: the four checks
    in the order the code makes them, then the instance it builds. *)
Lemma load_board_csv_cases (fs : filesystem) (path : string) (r c : Z)
    (self : Sudoku) :
  load_board_csv fs path r c self =
  match fs path with
  | None => (Ret (Some false), after_print (msg_not_found path) self)
  | Some csv_file =>
      let text_board := text_board_of csv_file in
      if negb (is_square text_board)
      then (Ret (Some false), after_print (msg_not_square path) self)
      else if negb (r * c =? Z.of_nat (length text_board))%Z
      then (Ret None, after_print msg_bad_subgrids self)
      else match grid_of text_board with
           | inr bad => (Ret (Some false), after_print (msg_not_numeric bad) self)
           | inl g => (Ret (Some true), loaded_instance g r c self)
           end
  end.
Proof.
  unfold load_board_csv. destruct (fs path) as [csv_file|]; [|reflexivity].
  cbv zeta. set (tb := text_board_of csv_file).
  assert (Hex : existsb (fun row => negb (length row =? length tb)) tb
                = negb (is_square tb)).
  { unfold is_square. apply existsb_negb. }
  rewrite Hex. destruct (is_square tb) eqn:Hsq; simpl; [|reflexivity].
  destruct (r * c =? Z.of_nat (length tb))%Z; simpl; [|reflexivity].
  unfold convert_grid_str_to_int, bind at 1 2, lift.
  rewrite (convert_rows_all _ Hsq).
  destruct (grid_of tb) as [g|bad] eqn:Hg; [|reflexivity].
  unfold ret at 1, bind at 1.
  rewrite (set_protected_coordinates_givens _ (grid_of_square _ Hsq Hg)).
  reflexivity.
Qed.

(* ================================================================== *)
(** ** The subgrids tile the board *)

Lemma subgrids_of_tiles (r c : Z) :
  subgrids_of r c = tiles (Z.to_nat r) (Z.to_nat c).
Proof.
  unfold tiles, subgrids_of, Py.rangeZ. rewrite !Nat2Z.id. reflexivity.
Qed.

Lemma in_tiles (R C : nat) (sub : list coord) :
  In sub (tiles R C) <->
  exists i j, i < C /\ j < R /\
    sub = map (fun s : coord => (i * R + fst s, j * C + snd s))
              (nested (seq 0 R) (seq 0 C)).
Proof.
  unfold tiles, subgrids_of, Py.rangeZ. rewrite !Nat2Z.id, in_flat_map.
  split.
  - intros [i [Hi Hs]]. apply in_map_iff in Hs. destruct Hs as [j [<- Hj]].
    apply in_seq in Hi, Hj. exists i, j. repeat split; lia.
  - intros [i [j [Hi [Hj ->]]]]. exists i. split; [apply in_seq; lia|].
    apply in_map_iff. exists j. split; [reflexivity | apply in_seq; lia].
Qed.

Lemma length_tile (R C : nat) (sub : list coord) :
  In sub (tiles R C) -> length sub = R * C.
Proof.
  intros Hs. apply in_tiles in Hs. destruct Hs as [i [j [_ [_ ->]]]].
  rewrite length_map, length_nested, !length_seq. reflexivity.
Qed.

Lemma length_flat_map_const {A B} (f : A -> list B) (l : list A) (m : nat) :
  (forall a, In a l -> length (f a) = m) ->
  length (flat_map f l) = length l * m.
Proof.
  induction l as [|a l IH]; intros H; [reflexivity|].
  cbn [flat_map]. rewrite length_app, H by (left; reflexivity).
  rewrite IH by (intros; apply H; right; assumption). reflexivity.
Qed.

Lemma length_tiles (R C : nat) : length (tiles R C) = R * C.
Proof.
  unfold tiles, subgrids_of, Py.rangeZ. rewrite !Nat2Z.id.
  rewrite (@length_flat_map_const _ _ _ _ R).
  - rewrite length_seq. lia.
  - intros i _. rewrite length_map, length_seq. reflexivity.
Qed.

Lemma length_concat_const {A} (L : list (list A)) (m : nat) :
  Forall (fun l => length l = m) L -> length (concat L) = length L * m.
Proof.
  induction 1 as [|l L Hl _ IH]; [reflexivity|].
  cbn [concat]. rewrite length_app, Hl, IH. reflexivity.
Qed.

Lemma in_concat_tiles (R C : nat) (p : coord) :
  in_bounds (R * C) p -> In p (concat (tiles R C)).
Proof.
  intros [Hx Hy]. destruct p as [x y]. simpl in *.
  assert (HR : 0 < R) by nia. assert (HC : 0 < C) by nia.
  apply in_concat.
  exists (map (fun s : coord => ((x / R) * R + fst s, (y / C) * C + snd s))
              (nested (seq 0 R) (seq 0 C))).
  split.
  - apply in_tiles. exists (x / R), (y / C). repeat split.
    + apply Nat.Div0.div_lt_upper_bound. lia.
    + apply Nat.Div0.div_lt_upper_bound. lia.
  - apply in_map_iff. exists (x mod R, y mod C). split.
    + simpl. f_equal.
      * pose proof (Nat.div_mod_eq x R). lia.
      * pose proof (Nat.div_mod_eq y C). lia.
    + apply in_nested. simpl. rewrite !in_seq.
      pose proof (Nat.mod_upper_bound x R). pose proof (Nat.mod_upper_bound y C).
      lia.
Qed.

(** The subgrids that the loader derives from two positive counts tile
    the board of side [rows * columns]. *)
Lemma tiles_tiling (R C : nat) : tiling (R * C) (tiles R C).
Proof.
  assert (Hlen : Forall (fun sub => length sub = R * C) (tiles R C)).
  { apply Forall_forall. intros sub Hs. apply length_tile. assumption. }
  split; [|assumption].
  apply Permutation_sym. apply NoDup_Permutation_bis.
  - apply NoDup_all_coords.
  - rewrite (length_concat_const Hlen), length_tiles, length_all_coords. lia.
  - intros p Hp. apply in_concat_tiles. apply in_all_coords. assumption.
Qed.

Section Tiling.

Variable n : nat.
Variable subgrids : list (list coord).
Hypothesis Htiling : tiling n subgrids.

Lemma tiling_NoDup : NoDup (concat subgrids).
Proof.
  destruct Htiling as [Hp _]. apply Permutation_sym in Hp.
  eapply Permutation_NoDup; [exact Hp | apply NoDup_all_coords].
Qed.

Lemma tiling_member (sub : list coord) (p : coord) :
  In sub subgrids -> In p sub -> in_bounds n p.
Proof.
  intros Hs Hp. destruct Htiling as [Hperm _].
  apply in_all_coords. eapply Permutation_in; [exact Hperm|].
  apply in_concat. eauto.
Qed.

Lemma tiling_covers (p : coord) :
  in_bounds n p -> exists sub, In sub subgrids /\ In p sub.
Proof.
  intros Hp. destruct Htiling as [Hperm _].
  apply in_all_coords in Hp.
  apply (Permutation_in _ (Permutation_sym Hperm)) in Hp.
  apply in_concat in Hp. exact Hp.
Qed.

Lemma tiling_length (sub : list coord) : In sub subgrids -> length sub = n.
Proof.
  destruct Htiling as [_ Hl]. rewrite Forall_forall in Hl. apply Hl.
Qed.

End Tiling.

Lemma NoDup_concat_position {A} (L : list (list A)) (x : A) (k k' : nat) :
  NoDup (concat L) ->
  In x (nth k L []) -> In x (nth k' L []) -> k = k'.
Proof.
  revert k k'. induction L as [|l L IH]; intros k k' Hnd Hk Hk'.
  - destruct k; contradiction.
  - cbn [concat] in Hnd.
    assert (Hin : forall j, In x (nth j L []) -> In x (concat L)).
    { intros j Hj. apply in_concat. exists (nth j L []). split; [|assumption].
      destruct (Nat.lt_ge_cases j (length L)) as [Hlt|Hge].
      - apply nth_In. assumption.
      - rewrite nth_overflow in Hj by assumption. contradiction. }
    pose proof (NoDup_app_remove_l _ _ Hnd) as HndL.
    assert (Hdisj : In x l -> In x (concat L) -> False).
    { intros H1 H2. apply in_split in H1. destruct H1 as [l1 [l2 ->]].
      rewrite <- app_assoc in Hnd. apply NoDup_remove_2 in Hnd.
      apply Hnd. rewrite app_assoc. apply in_or_app. right. assumption. }
    destruct k as [|k], k' as [|k']; simpl in Hk, Hk'.
    + reflexivity.
    + exfalso. eauto.
    + exfalso. eauto.
    + f_equal. eauto.
Qed.

Lemma NoDup_concat_member {A} (L : list (list A)) (l : list A) :
  NoDup (concat L) -> In l L -> NoDup l.
Proof.
  induction L as [|l' L IH]; intros Hnd Hl; [contradiction|].
  cbn [concat] in Hnd. destruct Hl as [->|Hl].
  - eapply NoDup_app_remove_r. exact Hnd.
  - apply IH; [|assumption]. eapply NoDup_app_remove_l. exact Hnd.
Qed.

Lemma NoDup_concat_same {A} (L : list (list A)) (l l' : list A) (x : A) :
  NoDup (concat L) -> In l L -> In l' L -> In x l -> In x l' -> l = l'.
Proof.
  intros Hnd Hl Hl' Hx Hx'.
  destruct (In_nth _ _ [] Hl) as [k [Hk Ek]].
  destruct (In_nth _ _ [] Hl') as [k' [Hk' Ek']].
  assert (k = k').
  { apply (NoDup_concat_position L x); [assumption | rewrite Ek | rewrite Ek'];
      assumption. }
  congruence.
Qed.

(* ================================================================== *)
(** ** The search, step by step *)

Lemma range_from_one (n : nat) : Py.range_from 1 (n + 1) = seq 1 n.
Proof. unfold Py.range_from. f_equal. lia. Qed.

Lemma coord_of_in_bounds (n i : nat) : i < n ^ 2 -> in_bounds n (coord_of n i).
Proof.
  intros Hi. assert (Hn : n <> 0) by (intros ->; simpl in Hi; lia).
  unfold coord_of, in_bounds. simpl. split.
  - apply Nat.Div0.div_lt_upper_bound. simpl in Hi. lia.
  - apply Nat.mod_upper_bound. assumption.
Qed.

Lemma index_of_coord_of (n i : nat) : index_of n (coord_of n i) = i.
Proof.
  unfold index_of, coord_of. simpl. pose proof (Nat.div_mod_eq i n). lia.
Qed.

Lemma coord_of_index_of (n : nat) (p : coord) :
  in_bounds n p -> coord_of n (index_of n p) = p.
Proof.
  intros [Hx Hy]. destruct p as [x y]. unfold index_of, coord_of. simpl in *.
  f_equal.
  - rewrite Nat.div_add_l by lia. rewrite Nat.div_small by assumption. lia.
  - rewrite Nat.add_comm, Nat.Div0.mod_add. apply Nat.mod_small. assumption.
Qed.

Lemma index_of_bound (n : nat) (p : coord) : in_bounds n p -> index_of n p < n ^ 2.
Proof. intros [Hx Hy]. unfold index_of. simpl. nia. Qed.

Lemma coord_of_inj (n i j : nat) : coord_of n i = coord_of n j -> i = j.
Proof.
  intros E. rewrite <- (index_of_coord_of n i), <- (index_of_coord_of n j).
  congruence.
Qed.

Section Search.

Variable N : nat.
Variable subgrids : list (list coord).
Variable protected : list coord.

Local Abbreviation validate := (validate_num_at_coord N subgrids).
Local Abbreviation search := (process_board N subgrids protected).
Local Abbreviation step' := (step N protected).

Lemma get_coord_from_index_coord_of (i : nat) :
  N <> 0 -> get_coord_from_index N i = Ret (coord_of N i).
Proof.
  intros Hn. unfold get_coord_from_index.
  apply Nat.eqb_neq in Hn. rewrite Hn. reflexivity.
Qed.

Lemma next_index_step (i : nat) :
  N <> 0 -> next_index N protected i = Ret (step' i).
Proof.
  intros Hn. unfold next_index. rewrite get_coord_from_index_coord_of by assumption.
  reflexivity.
Qed.

Lemma rows_columns_free_total (g : grid) (num : Z) (c : coord)
    (indices : list nat) :
  square N g -> in_bounds N c -> Forall (fun i => i < N) indices ->
  exists b, rows_columns_free g num c indices = Ret b /\
    (b = true ->
     forall i, In i indices ->
       value_at g (fst c, i) <> num /\ value_at g (i, snd c) <> num).
Proof.
  intros Hg [Hx Hy]. induction 1 as [|i indices Hi _ IH]; simpl.
  - exists true. split; [reflexivity | intros _ i []].
  - rewrite (@cell_value N g (fst c, i)) by (assumption || split; assumption).
    simpl. destruct (Z.eqb_spec num (value_at g (fst c, i))) as [E|E].
    { exists false. split; [reflexivity | discriminate]. }
    rewrite (@cell_value N g (i, snd c)) by (assumption || split; assumption).
    simpl. destruct (Z.eqb_spec num (value_at g (i, snd c))) as [E'|E'].
    { exists false. split; [reflexivity | discriminate]. }
    destruct IH as [b [Hb Hfree]]. exists b. split; [assumption|].
    intros Hbt j [<-|Hj]; [split; congruence | auto].
Qed.

Lemma cells_values (g : grid) (coords : list coord) :
  square N g -> Forall (in_bounds N) coords ->
  cells g coords = Ret (map (value_at g) coords).
Proof.
  intros Hg. induction 1 as [|p coords Hp _ IH]; simpl; [reflexivity|].
  rewrite (cell_value Hg Hp), IH. reflexivity.
Qed.

Lemma get_subgrid_from_coord_Some (c : coord) (sub : list coord) :
  get_subgrid_from_coord subgrids c = Some sub -> In sub subgrids /\ In c sub.
Proof.
  unfold get_subgrid_from_coord. intros H. apply find_some in H.
  destruct H as [Hs Hc]. apply coord_in_In in Hc. auto.
Qed.

Lemma get_subgrid_from_coord_None (c : coord) :
  get_subgrid_from_coord subgrids c = None ->
  forall sub, In sub subgrids -> ~ In c sub.
Proof.
  unfold get_subgrid_from_coord. intros H sub Hs Hc.
  apply (find_none _ _ H) in Hs. apply coord_in_In in Hc. congruence.
Qed.

Lemma cells_fuel (g : grid) (coords : list coord) :
  cells g coords <> OutOfFuel.
Proof.
  induction coords as [|p coords IH]; simpl; [discriminate|].
  unfold cell. destruct (nth_error g (fst p)); [|discriminate].
  destruct (nth_error l (snd p)); [|discriminate].
  simpl. destruct (cells g coords); simpl; congruence.
Qed.

(** The check never runs out of fuel: it has no recursion of its own. *)
Lemma validate_fuel (g : grid) (num : Z) (c : coord) :
  square N g -> in_bounds N c -> validate num c g <> OutOfFuel.
Proof.
  intros Hg Hc. unfold validate_num_at_coord.
  destruct (@rows_columns_free_total g num c (Py.range N) Hg Hc) as [b [-> _]].
  { apply Forall_forall. intros i Hi. apply in_seq in Hi. lia. }
  simpl. destruct b; simpl; [|discriminate].
  destruct (get_subgrid_from_coord subgrids c); [|discriminate].
  pose proof (cells_fuel g l) as Hcells.
  destruct (cells g l); simpl; try discriminate; [|congruence].
  destruct (existsb _ _); discriminate.
Qed.

Section Tiled.

Hypothesis Htiling : tiling N subgrids.

(** On a tiled board the check returns, and [True] means that no peer of
    the coordinate, the coordinate itself included, holds the number. *)
Lemma validate_total (g : grid) (num : Z) (c : coord) :
  square N g -> in_bounds N c ->
  exists b, validate num c g = Ret b /\
    (b = true ->
     forall q, in_bounds N q -> peers subgrids c q -> value_at g q <> num).
Proof.
  intros Hg Hc. unfold validate_num_at_coord.
  destruct (@rows_columns_free_total g num c (Py.range N) Hg Hc)
    as [b [-> Hfree]].
  { apply Forall_forall. intros i Hi. apply in_seq in Hi. lia. }
  simpl. destruct b; simpl; [|exists false; split; [reflexivity|discriminate]].
  specialize (Hfree eq_refl).
  destruct (get_subgrid_from_coord subgrids c) as [sub|] eqn:Hsub.
  - apply get_subgrid_from_coord_Some in Hsub. destruct Hsub as [Hs Hcs].
    rewrite cells_values; [|assumption|].
    2:{ apply Forall_forall. intros q Hq. eapply tiling_member; eassumption. }
    simpl. destruct (existsb (Z.eqb num) (map (value_at g) sub)) eqn:Hex.
    { exists false. split; [reflexivity|discriminate]. }
    exists true. split; [reflexivity|]. intros _ q Hq Hpeer.
    destruct Hpeer as [Hrow | [Hcol | [sub' [Hs' [Hc' Hq']]]]].
    + destruct q as [x y]. simpl in Hrow. subst x.
      apply (Hfree y). apply in_seq. destruct Hq. simpl in *. lia.
    + destruct q as [x y]. simpl in Hcol. subst y.
      apply (Hfree x). apply in_seq. destruct Hq. simpl in *. lia.
    + assert (sub' = sub).
      { apply (@NoDup_concat_same _ subgrids sub' sub c);
          try assumption. exact (tiling_NoDup Htiling). }
      subst sub'. intros E.
      assert (Ht : existsb (Z.eqb num) (map (value_at g) sub) = true).
      { apply existsb_exists. exists (value_at g q). split.
        - apply in_map. assumption.
        - apply Z.eqb_eq. congruence. }
      congruence.
  - exfalso. destruct (tiling_covers Htiling Hc) as [sub [Hs Hcs]].
    eapply get_subgrid_from_coord_None; eassumption.
Qed.

Lemma validate_true (g : grid) (num : Z) (c : coord) :
  square N g -> in_bounds N c -> validate num c g = Ret true ->
  forall q, in_bounds N q -> peers subgrids c q -> value_at g q <> num.
Proof.
  intros Hg Hc Hv. destruct (validate_total num Hg Hc) as [b [Hb Hfree]].
  rewrite Hv in Hb. inversion Hb; subst. auto.
Qed.

End Tiled.

(** One turn of the candidate loop on a square board. *)
Lemma try_candidates_cons (recurse : nat -> Run grid bool) (i : nat)
    (c : coord) (d : nat) (ds : list nat) (g : grid) :
  N <> 0 -> square N g -> in_bounds N c ->
  try_candidates N subgrids protected recurse i c (d :: ds) g =
  match validate (Z.of_nat d) c g with
  | Ret true =>
      match recurse (step' i) (put g c (Z.of_nat d)) with
      | (Ret true, g') => (Ret true, g')
      | (Ret false, g') => try_candidates N subgrids protected recurse i c ds g'
      | (Raise e, g') => (Raise e, g')
      | (OutOfFuel, g') => (OutOfFuel, g')
      end
  | Ret false => try_candidates N subgrids protected recurse i c ds g
  | Raise e => (Raise e, g)
  | OutOfFuel => (OutOfFuel, g)
  end.
Proof.
  intros Hn Hg Hc. cbn [try_candidates]. unfold bind at 1, read.
  destruct (validate (Z.of_nat d) c g) as [[|]| |]; try reflexivity.
  unfold bind at 1. rewrite (set_cell_put _ Hg Hc).
  unfold bind at 1, lift. rewrite next_index_step by assumption.
  unfold bind at 1.
  destruct (recurse (step' i) (put g c (Z.of_nat d))) as [[[|]| |] g'];
    reflexivity.
Qed.

(** One activation of [process_board] below the end of the board. *)
Lemma process_board_unfold (fuel i : nat) (g : grid) :
  i < N ^ 2 ->
  search (S fuel) i g =
  match try_candidates N subgrids protected (search fuel) i
          (coord_of N i) (seq 1 N) g with
  | (Ret true, g') => (Ret true, g')
  | (Ret false, g') =>
      match set_cell (coord_of N i) 0%Z g' with
      | (Ret _, g2) => (Ret false, g2)
      | (Raise e, g2) => (Raise e, g2)
      | (OutOfFuel, g2) => (OutOfFuel, g2)
      end
  | (Raise e, g') => (Raise e, g')
  | (OutOfFuel, g') => (OutOfFuel, g')
  end.
Proof.
  intros Hi. assert (Hn : N <> 0) by (intros E; rewrite E in Hi; simpl in Hi; lia).
  cbn [process_board]. apply Nat.leb_gt in Hi. rewrite Hi.
  unfold bind at 1, lift. rewrite get_coord_from_index_coord_of by assumption.
  rewrite range_from_one. unfold bind at 1.
  destruct (try_candidates _ _ _ _ _ _ _ _) as [[[|]| |] g']; reflexivity.
Qed.

Lemma process_board_end (fuel i : nat) (g : grid) :
  N ^ 2 <= i -> search (S fuel) i g = (Ret true, g).
Proof.
  intros Hi. cbn [process_board]. apply Nat.leb_le in Hi. rewrite Hi.
  reflexivity.
Qed.

End Search.

(* ================================================================== *)
(** ** A proof rule for [process_board]

    [Pre fuel i g] is what holds of the board when the search is entered
    at index [i]; [Inv fuel i g0 g] is the invariant of the candidate
    loop of an activation entered with board [g0], whose recursive calls
    get [fuel]; [Post fuel i g0 r g'] is what holds when the activation
    ends with [r] on board [g'].  The rule reduces a property of the
    whole search to one turn of the loop. *)

Section Rule.

Variable N : nat.
Variable subgrids : list (list coord).
Variable protected : list coord.

Variable Pre : nat -> nat -> grid -> Prop.
Variable Inv : nat -> nat -> grid -> grid -> Prop.
Variable Post : nat -> nat -> grid -> outcome bool -> grid -> Prop.

Hypothesis Inv_square : forall fuel i g0 g, Inv fuel i g0 g -> square N g.

Hypothesis no_fuel : forall i g, Pre 0 i g -> Post 0 i g OutOfFuel g.

Hypothesis at_end :
  forall fuel i g, Pre (S fuel) i g -> N ^ 2 <= i ->
    Post (S fuel) i g (Ret true) g.

Hypothesis enter :
  forall fuel i g, Pre (S fuel) i g -> i < N ^ 2 -> Inv fuel i g g.

Hypothesis check_raises :
  forall fuel i g0 g d e,
    Inv fuel i g0 g -> i < N ^ 2 -> 1 <= d <= N ->
    validate_num_at_coord N subgrids (Z.of_nat d) (coord_of N i) g = Raise e ->
    Post (S fuel) i g0 (Raise e) g.

Hypothesis call :
  forall fuel i g0 g d,
    Inv fuel i g0 g -> i < N ^ 2 -> 1 <= d <= N ->
    validate_num_at_coord N subgrids (Z.of_nat d) (coord_of N i) g = Ret true ->
    Pre fuel (step N protected i) (put g (coord_of N i) (Z.of_nat d)).

Hypothesis back :
  forall fuel i g0 g d r g',
    Inv fuel i g0 g -> i < N ^ 2 -> 1 <= d <= N ->
    validate_num_at_coord N subgrids (Z.of_nat d) (coord_of N i) g = Ret true ->
    Post fuel (step N protected i) (put g (coord_of N i) (Z.of_nat d)) r g' ->
    match r with
    | Ret false => Inv fuel i g0 g'
    | _ => Post (S fuel) i g0 r g'
    end.

Hypothesis exhausted :
  forall fuel i g0 g,
    Inv fuel i g0 g -> i < N ^ 2 ->
    Post (S fuel) i g0 (Ret false) (put g (coord_of N i) 0%Z).

Lemma try_candidates_rule (fuel i : nat) (g0 : grid) (ds : list nat) :
  (forall j g r g',
      Pre fuel j g -> process_board N subgrids protected fuel j g = (r, g') ->
      Post fuel j g r g') ->
  i < N ^ 2 -> Forall (fun d => 1 <= d <= N) ds ->
  forall g r g',
    Inv fuel i g0 g ->
    try_candidates N subgrids protected
      (process_board N subgrids protected fuel) i (coord_of N i) ds g = (r, g') ->
    match r with
    | Ret false => Inv fuel i g0 g'
    | _ => Post (S fuel) i g0 r g'
    end.
Proof.
  intros IH Hi. assert (Hn : N <> 0) by (intros E; rewrite E in Hi; simpl in Hi; lia).
  pose proof (coord_of_in_bounds N Hi) as Hc.
  induction 1 as [|d ds Hd _ IHds]; intros g r g' Hinv Hrun.
  - cbn in Hrun. inversion Hrun; subst. assumption.
  - pose proof (Inv_square Hinv) as Hg.
    rewrite try_candidates_cons in Hrun by assumption.
    destruct (validate_num_at_coord N subgrids (Z.of_nat d) (coord_of N i) g)
      as [[|]|e|] eqn:Hv.
    + destruct (process_board N subgrids protected fuel (step N protected i)
                  (put g (coord_of N i) (Z.of_nat d))) as [r1 g1] eqn:Hrec.
      pose proof (IH _ _ _ _ (call Hinv Hi Hd Hv) Hrec) as Hpost.
      pose proof (back Hinv Hi Hd Hv Hpost) as Hback.
      destruct r1 as [[|]|e|].
      * inversion Hrun; subst. assumption.
      * eapply IHds; eassumption.
      * inversion Hrun; subst. assumption.
      * inversion Hrun; subst. assumption.
    + eapply IHds; eassumption.
    + inversion Hrun; subst. eapply check_raises; eassumption.
    + exfalso. eapply validate_fuel; eassumption.
Qed.

Theorem process_board_rule (fuel i : nat) (g : grid) (r : outcome bool)
    (g' : grid) :
  Pre fuel i g -> process_board N subgrids protected fuel i g = (r, g') ->
  Post fuel i g r g'.
Proof.
  revert i g r g'. induction fuel as [|fuel IH]; intros i g r g' Hpre Hrun.
  - cbn in Hrun. inversion Hrun; subst. apply no_fuel. assumption.
  - destruct (Nat.le_gt_cases (N ^ 2) i) as [Hi|Hi].
    + rewrite process_board_end in Hrun by assumption.
      inversion Hrun; subst. apply at_end; assumption.
    + rewrite process_board_unfold in Hrun by assumption.
      destruct (try_candidates N subgrids protected
                  (process_board N subgrids protected fuel) i
                  (coord_of N i) (seq 1 N) g) as [r1 g1] eqn:Hloop.
      assert (Hds : Forall (fun d => 1 <= d <= N) (seq 1 N)).
      { apply Forall_forall. intros d Hd. apply in_seq in Hd. lia. }
      pose proof (@try_candidates_rule fuel i g (seq 1 N) IH Hi Hds _ _ _
                    (enter Hpre Hi) Hloop) as Hl.
      destruct r1 as [[|]|e|].
      * inversion Hrun; subst. assumption.
      * rewrite (set_cell_put _ (Inv_square Hl) (coord_of_in_bounds N Hi)) in Hrun.
        inversion Hrun; subst. apply exhausted; assumption.
      * inversion Hrun; subst. assumption.
      * inversion Hrun; subst. assumption.
Qed.

End Rule.

(* ================================================================== *)
(** ** Which cells the search works on *)

Section Visits.

Variable N : nat.
Variable protected : list coord.

Lemma step_after (i : nat) : i < step N protected i.
Proof. unfold step. destruct (coord_in _ _); lia. Qed.

Lemma visits_bounds (i j : nat) :
  visits N protected i j -> i <= j /\ j < N ^ 2.
Proof.
  induction 1 as [i Hi | i j Hi Hv IH]; [lia|].
  pose proof (step_after i). lia.
Qed.

Lemma visits_inv (i j : nat) :
  visits N protected i j ->
  i < N ^ 2 /\ (j = i \/ visits N protected (step N protected i) j).
Proof. intros H. inversion H; subst; auto. Qed.

Lemma visits_cell_ne (i j : nat) :
  visits N protected (step N protected i) j -> coord_of N j <> coord_of N i.
Proof.
  intros H E. apply coord_of_inj in E. apply visits_bounds in H.
  pose proof (step_after i). lia.
Qed.

Lemma visited_visits (fuel i j : nat) :
  In j (visited N protected fuel i) -> visits N protected i j.
Proof.
  revert i. induction fuel as [|fuel IH]; intros i; cbn [visited]; [intros []|].
  destruct (Nat.leb_spec (N ^ 2) i) as [Hi|Hi]; [intros []|].
  intros [<-|Hj].
  - apply visits_here. assumption.
  - apply visits_later; auto.
Qed.

Lemma visits_visited (fuel i j : nat) :
  N ^ 2 <= fuel + i -> visits N protected i j ->
  In j (visited N protected fuel i).
Proof.
  intros Hfuel Hv. revert fuel Hfuel.
  induction Hv as [i Hi | i j Hi Hv IH]; intros fuel Hfuel.
  - destruct fuel as [|fuel]; [lia|]. cbn [visited].
    apply Nat.leb_gt in Hi. rewrite Hi. left. reflexivity.
  - destruct fuel as [|fuel]; [lia|]. cbn [visited].
    pose proof Hi as Hi'. apply Nat.leb_gt in Hi'. rewrite Hi'. right.
    apply IH. pose proof (step_after i). lia.
Qed.

(** A cell that is not protected is worked on by every search that
    starts at or before it. *)
Lemma unprotected_visited (i j : nat) :
  i <= j -> j < N ^ 2 -> coord_in (coord_of N j) protected = false ->
  visits N protected i j.
Proof.
  intros Hij Hj Hfree. remember (j - i) as k eqn:Hk.
  revert i Hij Hk. induction k as [k IH] using lt_wf_ind. intros i Hij Hk.
  destruct (Nat.eq_dec i j) as [->|Hne]; [apply visits_here; assumption|].
  apply visits_later; [lia|].
  assert (Hs : step N protected i <= j).
  { unfold step. destruct (coord_in (coord_of N (i + 1)) protected) eqn:E; [|lia].
    destruct (Nat.eq_dec (i + 1) j) as [<-|]; [congruence | lia]. }
  apply (IH (j - step N protected i)); [|assumption | reflexivity].
  pose proof (step_after i). lia.
Qed.

End Visits.

(* ================================================================== *)
(** ** What the search leaves alone *)

Section Frame.

Variable N : nat.
Variable subgrids : list (list coord).
Variable protected : list coord.

(** The search keeps the board square and writes only to cells it
    visits, however it ends. *)
Lemma process_board_frame (fuel i : nat) (g : grid) (r : outcome bool)
    (g' : grid) :
  square N g ->
  process_board N subgrids protected fuel i g = (r, g') ->
  square N g' /\
  forall j, j < N ^ 2 -> ~ visits N protected i j ->
    value_at g' (coord_of N j) = value_at g (coord_of N j).
Proof.
  pose (keeps (i : nat) (g0 g1 : grid) :=
          square N g1 /\
          forall j, j < N ^ 2 -> ~ visits N protected i j ->
            value_at g1 (coord_of N j) = value_at g0 (coord_of N j)).
  intros Hg Hrun.
  apply (@process_board_rule N subgrids protected
           (fun _ _ g => square N g)
           (fun _ i g0 g1 => keeps i g0 g1)
           (fun _ i g0 _ g1 => keeps i g0 g1)) with (fuel := fuel) (r := r);
    try assumption; unfold keeps; clear.
  - intros _ i g0 g [H _]. exact H.
  - intros i g Hg. auto.
  - intros fuel i g Hg _. auto.
  - intros fuel i g Hg _. auto.
  - intros fuel i g0 g d e H _ _ _. exact H.
  - intros fuel i g0 g d [Hg _] Hi _ _.
    apply square_put; [assumption | apply coord_of_in_bounds; assumption].
  - intros fuel i g0 g d r g' [Hg Hkeep] Hi _ _ [Hg' Hkeep'].
    assert (H : square N g' /\
                forall j, j < N ^ 2 -> ~ visits N protected i j ->
                  value_at g' (coord_of N j) = value_at g0 (coord_of N j)).
    { split; [assumption|]. intros j Hj Hnv.
      rewrite Hkeep' by (auto using visits_later).
      rewrite value_at_put_ne with (n := N);
        [auto | assumption | apply coord_of_in_bounds; assumption |].
      intros E. apply coord_of_inj in E. subst j.
      apply Hnv. apply visits_here. assumption. }
    destruct r as [[|]| |]; exact H.
  - intros fuel i g0 g [Hg Hkeep] Hi. split.
    + apply square_put; [assumption | apply coord_of_in_bounds; assumption].
    + intros j Hj Hnv.
      rewrite value_at_put_ne with (n := N);
        [auto | assumption | apply coord_of_in_bounds; assumption |].
      intros E. apply coord_of_inj in E. subst j.
      apply Hnv. apply visits_here. assumption.
Qed.

(** Undoing: when every cell the search visits is empty at the start, a
    search that fails leaves the board as it found it. *)
Lemma process_board_undo (fuel i : nat) (g : grid) (g' : grid) :
  square N g ->
  (forall j, visits N protected i j -> value_at g (coord_of N j) = 0%Z) ->
  process_board N subgrids protected fuel i g = (Ret false, g') ->
  g' = g.
Proof.
  pose (empty (i : nat) (g : grid) :=
          square N g /\
          forall j, visits N protected i j -> value_at g (coord_of N j) = 0%Z).
  intros Hg Hempty Hrun.
  assert (Hpre : empty i g) by (split; assumption).
  apply (@process_board_rule N subgrids protected
           (fun _ i g => empty i g)
           (fun _ i g0 g1 =>
              i < N ^ 2 /\ empty i g0 /\ exists x, g1 = put g0 (coord_of N i) x)
           (fun _ i g0 r g1 => r = Ret false -> g1 = g0))
    with (fuel := fuel) (i := i) (r := Ret false);
    try assumption; try reflexivity; unfold empty; clear; try discriminate.
  - intros _ i g0 g [Hi [[Hg0 _] [x ->]]].
    apply square_put; [assumption | apply coord_of_in_bounds; assumption].
  - intros fuel i g H Hi. split; [assumption|]. split; [assumption|].
    exists (value_at g (coord_of N i)). symmetry. apply put_same.
  - intros fuel i g0 g d [_ [[Hg0 H0] [x ->]]] Hi _ _.
    pose proof (coord_of_in_bounds N Hi) as Hc.
    rewrite (put_twice _ _ Hg0 Hc). split; [apply square_put; assumption|].
    intros j Hj. rewrite value_at_put_ne with (n := N);
      [ | assumption | assumption | eapply visits_cell_ne; eassumption].
    apply H0. apply visits_later; assumption.
  - intros fuel i g0 g d r g' [_ [[Hg0 H0] [x ->]]] Hi _ _ Hpost.
    pose proof (coord_of_in_bounds N Hi) as Hc.
    destruct r as [[|]| |]; try discriminate.
    split; [assumption|]. split; [split; assumption|]. exists (Z.of_nat d).
    rewrite Hpost by reflexivity. apply (put_twice _ _ Hg0 Hc).
  - intros fuel i g0 g [_ [[Hg0 H0] [x ->]]] Hi _.
    pose proof (coord_of_in_bounds N Hi) as Hc.
    rewrite (put_twice _ _ Hg0 Hc).
    rewrite <- (H0 i) by (apply visits_here; assumption). apply put_same.
Qed.

End Frame.

(* ================================================================== *)
(** ** The search ends, and what a successful search leaves *)

Lemma peers_sym (subgrids : list (list coord)) (p q : coord) :
  peers subgrids p q -> peers subgrids q p.
Proof.
  intros [H | [H | [sub [Hs [Hp Hq]]]]].
  - left. auto.
  - right. left. auto.
  - right. right. exists sub. auto.
Qed.

Lemma peersb_peers (subgrids : list (list coord)) (p q : coord) :
  peersb subgrids p q = true <-> peers subgrids p q.
Proof.
  unfold peersb, peers. rewrite !orb_true_iff, !Nat.eqb_eq, existsb_exists.
  split.
  - intros [[H|H] | [sub [Hs H]]]; auto.
    apply andb_true_iff in H. destruct H as [Hp Hq].
    apply coord_in_In in Hp, Hq. right. right. exists sub. auto.
  - intros [H | [H | [sub [Hs [Hp Hq]]]]]; auto.
    right. exists sub. split; [assumption|].
    apply andb_true_iff. split; apply coord_in_In; assumption.
Qed.

Section Outcome.

Variable N : nat.
Variable subgrids : list (list coord).
Variable protected : list coord.

(** With room for the calls that lie between [i] and the end of the
    board, the search does not run out of fuel; on a tiled board it
    returns a boolean. *)
Lemma process_board_ends (fuel i : nat) (g : grid) (r : outcome bool)
    (g' : grid) :
  square N g -> N ^ 2 - i < fuel ->
  process_board N subgrids protected fuel i g = (r, g') ->
  square N g' /\ r <> OutOfFuel /\
  (tiling N subgrids -> exists b, r = Ret b).
Proof.
  intros Hg Hfuel Hrun.
  assert (Hpre : square N g /\ N ^ 2 - i < fuel) by (split; assumption).
  apply (@process_board_rule N subgrids protected
           (fun fuel i g => square N g /\ N ^ 2 - i < fuel)
           (fun fuel i _ g => square N g /\ N ^ 2 - i < S fuel)
           (fun _ _ _ r g' =>
              square N g' /\ r <> OutOfFuel /\
              (tiling N subgrids -> exists b, r = Ret b)))
    with (fuel := fuel) (i := i) (g := g); try assumption; clear.
  - intros _ i _ g [H _]. exact H.
  - intros i g [_ H]. lia.
  - intros fuel i g [Hg _] _. split; [assumption|]. split; [discriminate|eauto].
  - intros fuel i g H _. exact H.
  - intros fuel i g0 g d e [Hg _] Hi _ Hv.
    split; [assumption|]. split; [discriminate|]. intros Ht.
    destruct (validate_total Ht (Z.of_nat d) Hg (coord_of_in_bounds N Hi))
      as [b [Hb _]]. congruence.
  - intros fuel i g0 g d [Hg Hf] Hi _ _. split.
    + apply square_put; [assumption | apply coord_of_in_bounds; assumption].
    + pose proof (step_after N protected i). lia.
  - intros fuel i g0 g d r g' [Hg Hf] Hi _ _ [Hg' [Hr Ht]].
    destruct r as [[|]| |]; try (split; [assumption|]; split; assumption).
    split; assumption.
  - intros fuel i g0 g [Hg _] Hi. split.
    + apply square_put; [assumption | apply coord_of_in_bounds; assumption].
    + split; [discriminate|eauto].
Qed.

(** More fuel changes nothing once the search has ended. *)
Lemma process_board_more_fuel (fuel fuel' i : nat) (g : grid) :
  fuel <= fuel' ->
  fst (process_board N subgrids protected fuel i g) <> OutOfFuel ->
  process_board N subgrids protected fuel' i g
  = process_board N subgrids protected fuel i g.
Proof.
  revert fuel' i g. induction fuel as [|fuel IH]; intros fuel' i g Hle Hr.
  - exfalso. apply Hr. reflexivity.
  - destruct fuel' as [|fuel']; [lia|].
    cbn [process_board] in *. destruct (N ^ 2 <=? i); [reflexivity|].
    unfold bind, lift in *.
    destruct (get_coord_from_index N i) as [c| |]; try reflexivity.
    assert (Hloop : forall ds g,
      fst (try_candidates N subgrids protected
             (process_board N subgrids protected fuel) i c ds g) <> OutOfFuel ->
      try_candidates N subgrids protected
        (process_board N subgrids protected fuel') i c ds g
      = try_candidates N subgrids protected
          (process_board N subgrids protected fuel) i c ds g).
    { clear Hr g. induction ds as [|d ds IHds]; intros g Hr; [reflexivity|].
      cbn [try_candidates] in *. unfold bind, lift, read in *.
      destruct (validate_num_at_coord N subgrids (Z.of_nat d) c g)
        as [[|]| |]; try reflexivity; [|apply IHds; assumption].
      destruct (set_cell c (Z.of_nat d) g) as [[[]| |] g2]; try reflexivity.
      destruct (next_index N protected i) as [nx| |]; try reflexivity.
      assert (Hrec : fst (process_board N subgrids protected fuel nx g2)
                     <> OutOfFuel).
      { intros E. apply Hr.
        destruct (process_board N subgrids protected fuel nx g2)
          as [[[|]| |] g4]; simpl in E; try discriminate. reflexivity. }
      rewrite (IH fuel' nx g2) by (lia || assumption).
      destruct (process_board N subgrids protected fuel nx g2)
        as [[[|]| |] g4]; try reflexivity.
      apply IHds. assumption. }
    rewrite Hloop; [reflexivity|].
    intros E. apply Hr.
    destruct (try_candidates N subgrids protected
                (process_board N subgrids protected fuel) i c
                (Py.range_from 1 (N + 1)) g) as [[[|]| |] g2];
      simpl in E; try discriminate. reflexivity.
Qed.

Section Solution.

Hypothesis Htiling : tiling N subgrids.
Variable tolerated : coord -> coord -> Prop.

Lemma clashes_within_put (g : grid) (c : coord) (x : Z) :
  square N g -> in_bounds N c ->
  (x <> 0%Z ->
   forall q, in_bounds N q -> peers subgrids c q -> value_at g q <> x) ->
  clashes_within N subgrids tolerated g ->
  clashes_within N subgrids tolerated (put g c x).
Proof.
  intros Hg Hc Hfree Hcl p q Hp Hq Hne Hpeer Hnz Heq.
  destruct (coord_eq_dec p c) as [->|Hpc].
  - rewrite (value_at_put_eq _ Hg Hc) in Hnz, Heq.
    rewrite (value_at_put_ne _ Hg Hc) in Heq by congruence.
    exfalso. apply (Hfree Hnz q Hq Hpeer). congruence.
  - rewrite (value_at_put_ne _ Hg Hc Hpc) in Hnz, Heq.
    destruct (coord_eq_dec q c) as [->|Hqc].
    + rewrite (value_at_put_eq _ Hg Hc) in Heq.
      exfalso. assert (Hx : x <> 0%Z) by congruence.
      apply (Hfree Hx p Hp (peers_sym Hpeer)). assumption.
    + rewrite (value_at_put_ne _ Hg Hc Hqc) in Heq. apply Hcl; assumption.
Qed.

(** A search that succeeds on a board whose clashes are all tolerated
    leaves a full board with no other clash. *)
Lemma process_board_solution (fuel i : nat) (g g' : grid) :
  square N g -> clashes_within N subgrids tolerated g ->
  filled_but N protected i g ->
  process_board N subgrids protected fuel i g = (Ret true, g') ->
  square N g' /\ clashes_within N subgrids tolerated g' /\ filled N g'.
Proof.
  pose (ok (i : nat) (g : grid) :=
          square N g /\ clashes_within N subgrids tolerated g /\
          filled_but N protected i g).
  intros Hg Hcl Hfill Hrun.
  assert (Hpre : ok i g) by exact (conj Hg (conj Hcl Hfill)).
  apply (@process_board_rule N subgrids protected
           (fun _ i g => ok i g)
           (fun _ i _ g => ok i g)
           (fun _ i _ r g' =>
              match r with
              | Ret true => square N g' /\
                            clashes_within N subgrids tolerated g' /\
                            filled N g'
              | Ret false => ok i g'
              | _ => True
              end))
    with (fuel := fuel) (i := i) (g := g) (r := Ret true);
    try assumption; unfold ok; clear - Htiling.
  - intros _ i _ g [H _]. exact H.
  - intros i g _. exact I.
  - intros fuel i g [Hg [Hcl Hfill]] Hi.
    split; [assumption|]. split; [assumption|]. intros p Hp.
    destruct (Hfill (index_of N p) (index_of_bound Hp)) as [Hv|Hv].
    + apply visits_bounds in Hv. lia.
    + rewrite coord_of_index_of in Hv by assumption. exact Hv.
  - intros fuel i g H _. exact H.
  - intros. exact I.
  - intros fuel i g0 g d [Hg [Hcl Hfill]] Hi Hd Hv.
    pose proof (coord_of_in_bounds N Hi) as Hc.
    split; [apply square_put; assumption|]. split.
    + apply clashes_within_put; try assumption.
      intros _. apply (validate_true Htiling Hg Hc Hv).
    + intros j Hj. destruct (Nat.eq_dec j i) as [->|Hne].
      * right. rewrite (value_at_put_eq _ Hg Hc). lia.
      * destruct (Hfill j Hj) as [Hvis|Hval].
        -- left. apply visits_inv in Hvis. destruct Hvis as [_ [E|Hvis]];
             [contradiction | assumption].
        -- right. rewrite (value_at_put_ne _ Hg Hc); [assumption|].
           intros E. apply coord_of_inj in E. contradiction.
  - intros fuel i g0 g d r g' _ Hi _ _ Hpost.
    destruct r as [[|]| |]; try assumption.
    destruct Hpost as [Hg' [Hcl' Hfill']].
    split; [assumption|]. split; [assumption|]. intros j Hj. destruct (Hfill' j Hj) as [Hvis|Hval]; [left|right; assumption].
    apply visits_later; assumption.
  - intros fuel i g0 g [Hg [Hcl Hfill]] Hi.
    pose proof (coord_of_in_bounds N Hi) as Hc.
    split; [apply square_put; assumption|]. split.
    + apply clashes_within_put; try assumption. intros H. contradiction.
    + intros j Hj. destruct (Nat.eq_dec j i) as [->|Hne].
      * left. apply visits_here. assumption.
      * destruct (Hfill j Hj) as [Hvis|Hval]; [left; assumption|].
        right. rewrite (value_at_put_ne _ Hg Hc); [assumption|].
        intros E. apply coord_of_inj in E. contradiction.
Qed.

End Solution.

End Outcome.

(* ================================================================== *)
(** ** Full boards without clashes are solved boards *)

Lemma in_one_to (n : nat) (x : Z) :
  In x (one_to n) <-> (1 <= x <= Z.of_nat n)%Z.
Proof.
  unfold one_to. rewrite in_map_iff. split.
  - intros [k [<- Hk]]. apply in_seq in Hk. lia.
  - intros Hx. exists (Z.to_nat x). split; [lia | apply in_seq; lia].
Qed.

Lemma length_one_to (n : nat) : length (one_to n) = n.
Proof. unfold one_to. rewrite length_map, length_seq. reflexivity. Qed.

Lemma row_values_map (n : nat) (g : grid) (i : nat) :
  square n g -> i < n ->
  row_values g i = map (value_at g) (map (fun j => (i, j)) (seq 0 n)).
Proof.
  intros Hg Hi. unfold row_values. rewrite map_map. unfold value_at. simpl.
  rewrite <- (square_row Hg Hi). symmetry. apply map_nth_range.
Qed.

Lemma column_values_map (n : nat) (g : grid) (j : nat) :
  column_values n g j = map (value_at g) (map (fun i => (i, j)) (seq 0 n)).
Proof. unfold column_values. rewrite map_map. reflexivity. Qed.

Section Units.

Variable N : nat.
Variable subgrids : list (list coord).
Hypothesis Htiling : tiling N subgrids.

Variable g : grid.
Hypothesis Hg : square N g.
Hypothesis Hfilled : filled N g.

(** [N] cells of a full board with different values hold the values
    1..N once each. *)
Lemma unit_permutation (unit : list coord) :
  NoDup unit -> length unit = N ->
  (forall p, In p unit -> in_bounds N p) ->
  (forall p q, In p unit -> In q unit -> p <> q ->
     value_at g p <> value_at g q) ->
  Permutation (map (value_at g) unit) (one_to N).
Proof.
  intros Hnd Hlen Hin Hdiff. apply NoDup_Permutation_bis.
  - apply Finite.Injective_map_NoDup_in; [|assumption].
    intros p q Hp Hq E. destruct (coord_eq_dec p q) as [|Hne]; [assumption|].
    exfalso. exact (Hdiff p q Hp Hq Hne E).
  - rewrite length_one_to, length_map. lia.
  - intros x Hx. apply in_map_iff in Hx. destruct Hx as [p [<- Hp]].
    apply in_one_to. apply Hfilled. auto.
Qed.

Lemma NoDup_row_coords (i : nat) : NoDup (map (fun j => (i, j)) (seq 0 N)).
Proof.
  apply Finite.Injective_map_NoDup; [|apply seq_NoDup].
  intros a b E. inversion E. reflexivity.
Qed.

Lemma NoDup_column_coords (j : nat) : NoDup (map (fun i => (i, j)) (seq 0 N)).
Proof.
  apply Finite.Injective_map_NoDup; [|apply seq_NoDup].
  intros a b E. inversion E. reflexivity.
Qed.

Hypothesis Hclash : no_clash N subgrids g.

Lemma peers_differ (p q : coord) :
  in_bounds N p -> in_bounds N q -> p <> q -> peers subgrids p q ->
  value_at g p <> value_at g q.
Proof.
  intros Hp Hq Hne Hpeer E.
  apply (Hclash Hp Hq Hne Hpeer); [|assumption].
  pose proof (Hfilled Hp). lia.
Qed.

(** A full board without clashes is a solved board. *)
Lemma filled_no_clash_solved : solved N subgrids g.
Proof.
  split; [|split].
  - intros i Hi. rewrite (row_values_map Hg Hi).
    assert (Hin : forall p, In p (map (fun j => (i, j)) (seq 0 N)) ->
                            in_bounds N p).
    { intros p Hp. apply in_map_iff in Hp. destruct Hp as [j [<- Hj]].
      apply in_seq in Hj. split; simpl; lia. }
    apply unit_permutation.
    + apply NoDup_row_coords.
    + rewrite length_map, length_seq. reflexivity.
    + exact Hin.
    + intros p q Hp Hq Hne. apply peers_differ; auto.
      apply in_map_iff in Hp, Hq.
      destruct Hp as [a [<- _]], Hq as [b [<- _]]. left. reflexivity.
  - intros j Hj. rewrite column_values_map.
    assert (Hin : forall p, In p (map (fun i => (i, j)) (seq 0 N)) ->
                            in_bounds N p).
    { intros p Hp. apply in_map_iff in Hp. destruct Hp as [i [<- Hi]].
      apply in_seq in Hi. split; simpl; lia. }
    apply unit_permutation.
    + apply NoDup_column_coords.
    + rewrite length_map, length_seq. reflexivity.
    + exact Hin.
    + intros p q Hp Hq Hne. apply peers_differ; auto.
      apply in_map_iff in Hp, Hq.
      destruct Hp as [a [<- _]], Hq as [b [<- _]]. right. left. reflexivity.
  - intros sub Hsub. unfold subgrid_values. apply unit_permutation.
    + eapply NoDup_concat_member; [exact (tiling_NoDup Htiling) | assumption].
    + apply (tiling_length Htiling). assumption.
    + intros p Hp. eapply tiling_member; eassumption.
    + intros p q Hp Hq Hne. apply peers_differ; auto.
      * eapply tiling_member; eassumption.
      * eapply tiling_member; eassumption.
      * right. right. exists sub. auto.
Qed.

End Units.

(* ================================================================== *)
(** ** The boolean checks say what they should *)

Lemma consistent_no_clash (n : nat) (subgrids : list (list coord)) (g : grid) :
  consistent n subgrids g = true <-> no_clash n subgrids g.
Proof.
  unfold consistent, no_clash, clashes_within. rewrite forallb_forall. split.
  - intros H p q Hp Hq Hne Hpeer Hnz Heq.
    apply in_all_coords in Hp, Hq. specialize (H p Hp).
    rewrite forallb_forall in H. specialize (H q Hq).
    apply negb_true_iff in H. unfold clash in H.
    assert (E1 : coord_eqb p q = false).
    { destruct (coord_eqb p q) eqn:E; [|reflexivity].
      apply coord_eqb_eq in E. contradiction. }
    apply peersb_peers in Hpeer. apply Z.eqb_neq in Hnz. apply Z.eqb_eq in Heq.
    rewrite E1, Hpeer, Hnz, Heq in H. discriminate.
  - intros H p Hp. apply forallb_forall. intros q Hq.
    apply in_all_coords in Hp, Hq. apply negb_true_iff. unfold clash.
    destruct (coord_eqb p q) eqn:E1; [reflexivity|].
    destruct (peersb subgrids p q) eqn:E2; [|reflexivity].
    destruct (Z.eqb_spec (value_at g p) 0); [reflexivity|].
    destruct (Z.eqb_spec (value_at g p) (value_at g q)); [|reflexivity].
    exfalso. apply (H p q); try assumption.
    + intros E. apply coord_eqb_eq in E. congruence.
    + apply peersb_peers. assumption.
Qed.

Lemma in_range_values (n : nat) (g : grid) :
  in_range n g = true <->
  forall p, in_bounds n p ->
    value_at g p = 0%Z \/ (1 <= value_at g p <= Z.of_nat n)%Z.
Proof.
  unfold in_range. rewrite forallb_forall. split.
  - intros H p Hp. apply in_all_coords in Hp. specialize (H p Hp).
    apply orb_true_iff in H. destruct H as [H|H].
    + left. apply Z.eqb_eq. assumption.
    + right. apply andb_true_iff in H. destruct H as [H1 H2].
      apply Z.leb_le in H1, H2. lia.
  - intros H p Hp. apply in_all_coords in Hp. apply orb_true_iff.
    destruct (H p Hp) as [E|[H1 H2]].
    + left. apply Z.eqb_eq. assumption.
    + right. apply andb_true_iff. split; apply Z.leb_le; assumption.
Qed.

(* ================================================================== *)
(** ** Loaded instances *)

Lemma load_success (fs : filesystem) (path : string) (r c : Z)
    (self self' : Sudoku) :
  load_board_csv fs path r c self = (Ret (Some true), self') ->
  exists csv_file g,
    fs path = Some csv_file /\
    is_square (text_board_of csv_file) = true /\
    grid_of (text_board_of csv_file) = inl g /\
    (r * c = Z.of_nat (length g))%Z /\
    square (length g) g /\
    self' = loaded_instance g r c self.
Proof.
  rewrite load_board_csv_cases. destruct (fs path) as [csv_file|]; [|discriminate].
  cbv zeta. destruct (is_square (text_board_of csv_file)) eqn:Hsq;
    simpl; [|discriminate].
  destruct (Z.eqb_spec (r * c) (Z.of_nat (length (text_board_of csv_file))))
    as [Hrc|]; simpl; [|discriminate].
  destruct (grid_of (text_board_of csv_file)) as [g|] eqn:Hg; [|discriminate].
  intros H. inversion H; subst. exists csv_file, g.
  pose proof (grid_of_square _ Hsq Hg) as Hsquare.
  assert (Hlen : length g = length (text_board_of csv_file))
    by (destruct Hsquare; assumption).
  rewrite Hlen. auto 10.
Qed.

(** The subgrids of a loaded instance tile its board, unless both counts
    are negative: then there is no subgrid at all. *)
Lemma loaded_subgrids (r c : Z) (n : nat) :
  (r * c = Z.of_nat n)%Z ->
  tiling n (subgrids_of r c) \/ (subgrids_of r c = [] /\ (r < 0)%Z /\ 0 < n).
Proof.
  intros Hrc. rewrite subgrids_of_tiles.
  destruct (Z_lt_le_dec r 0) as [Hr|Hr].
  - destruct (Z_lt_le_dec c 0) as [Hc|Hc].
    + right. split; [|split; [assumption | nia]].
      replace (Z.to_nat r) with 0 by lia. replace (Z.to_nat c) with 0 by lia.
      reflexivity.
    + left. assert (n = Z.to_nat r * Z.to_nat c) as -> by nia.
      apply tiles_tiling.
  - left. assert (n = Z.to_nat r * Z.to_nat c) as -> by nia.
    apply tiles_tiling.
Qed.

Lemma loaded_tiling (r c : Z) (n : nat) :
  (r * c = Z.of_nat n)%Z -> (0 < r)%Z -> tiling n (subgrids_of r c).
Proof.
  intros Hrc Hr. destruct (loaded_subgrids r c n Hrc) as [H|[_ [H _]]];
    [assumption | lia].
Qed.

(** Without subgrids no candidate passes the check, so a search that has
    a cell to work on cannot succeed. *)
Lemma no_subgrids_no_success (N : nat) (protected : list coord)
    (fuel i : nat) (g g' : grid) :
  square N g -> i < N ^ 2 ->
  process_board N [] protected fuel i g <> (Ret true, g').
Proof.
  intros Hg Hi Hrun.
  assert (Hv : forall d c g,
             validate_num_at_coord N [] (Z.of_nat d) c g <> Ret true).
  { clear. intros d c g. unfold validate_num_at_coord.
    destruct (rows_columns_free g (Z.of_nat d) c (Py.range N)) as [[|]| |];
      simpl; discriminate. }
  refine (@process_board_rule N [] protected
           (fun _ _ g => square N g)
           (fun _ _ _ g => square N g)
           (fun _ i _ r _ => i < N ^ 2 -> r <> Ret true)
           _ _ _ _ _ _ _ _ fuel i g (Ret true) g' Hg Hrun Hi eq_refl);
    clear - Hv.
  - auto.
  - discriminate.
  - intros; lia.
  - auto.
  - discriminate.
  - intros fuel i g0 g d _ _ _ H. destruct (Hv _ _ _ H).
  - intros fuel i g0 g d r g' _ _ _ H. destruct (Hv _ _ _ H).
  - discriminate.
Qed.

Lemma backtrack_loaded (g : grid) (r c : Z) (self : Sudoku) :
  backtrack (loaded_instance g r c self) =
  match process_board (length g) (subgrids_of r c) (givens g)
          (S (length g ^ 2)) 0 g with
  | (Ret true, g') =>
      (Ret true, after_print "Board has at least one solution."
                   (set_board g' (loaded_instance g r c self)))
  | (Ret false, g') =>
      (Ret false, after_print "Board has no solutions."
                    (set_board g' (loaded_instance g r c self)))
  | (Raise e, g') => (Raise e, set_board g' (loaded_instance g r c self))
  | (OutOfFuel, g') => (OutOfFuel, set_board g' (loaded_instance g r c self))
  end.
Proof.
  unfold backtrack. cbn [loaded_instance with_subgrids with_board with_protected
    board sudoku_N subgrid_coordinates protected_coordinates].
  destruct (process_board _ _ _ _ _ _) as [[[|]| |] g']; reflexivity.
Qed.

(** On a loaded board every cell that is not a given is visited by the
    search from index 0, so that a loaded board with givens in range
    is filled but for the cells the search visits. *)
Lemma loaded_filled_but (g : grid) :
  in_range (length g) g = true ->
  filled_but (length g) (givens g) 0 g.
Proof.
  intros Hrange j Hj. pose proof (coord_of_in_bounds _ Hj) as Hc.
  destruct (coord_in (coord_of (length g) j) (givens g)) eqn:Hgiven.
  - right. apply coord_in_In, in_givens in Hgiven. destruct Hgiven as [_ Hnz].
    rewrite in_range_values in Hrange. destruct (Hrange _ Hc); [contradiction|].
    assumption.
  - left. apply unprotected_visited; [lia | assumption | assumption].
Qed.

(* ================================================================== *)
(** ** Printing changes nothing but what was printed *)

Lemma after_print_fields (msg : string) (self : Sudoku) :
  verbosity (after_print msg self) = verbosity self /\
  board (after_print msg self) = board self /\
  sudoku_N (after_print msg self) = sudoku_N self /\
  subgrid_row_count (after_print msg self) = subgrid_row_count self /\
  subgrid_column_count (after_print msg self) = subgrid_column_count self /\
  subgrid_coordinates (after_print msg self) = subgrid_coordinates self /\
  protected_coordinates (after_print msg self) = protected_coordinates self.
Proof.
  unfold after_print, condition_print. simpl.
  destruct (verbosity self) eqn:E; simpl; auto 10.
Qed.

(* ================================================================== *)
(** * The properties of the specification *)

(** C10. [backtrack] on an instance whose board, side length or subgrid
    coordinates are unset returns [False], raises nothing and leaves the
    instance, standard output included, exactly as it was. *)
Theorem C10_backtrack_before_load (self : Sudoku) :
  board self = None \/ sudoku_N self = None \/
  subgrid_coordinates self = None ->
  backtrack self = (Ret false, self).
Proof.
  unfold backtrack. intros [H | [H | H]]; rewrite H.
  - reflexivity.
  - destruct (board self); reflexivity.
  - destruct (board self); [destruct (sudoku_N self)|]; reflexivity.
Qed.

Lemma C10_witness :
  backtrack (new_Sudoku true) = (Ret false, new_Sudoku true).
Proof.
  apply C10_backtrack_before_load. left. reflexivity.
Defined.

Lemma coord_of_bounded (n j : nat) : in_bounds n (coord_of n j) -> j < n ^ 2.
Proof.
  unfold in_bounds, coord_of. simpl. intros [Hq Hr].
  assert (Hn : n <> 0) by lia.
  pose proof (Nat.div_mod_eq j n). nia.
Qed.

Lemma step_cap (n : nat) (protected : list coord) (i : nat) :
  Forall (in_bounds n) protected -> i < n ^ 2 ->
  step n protected i <= n ^ 2.
Proof.
  intros Hp Hi. unfold step.
  destruct (coord_in (coord_of n (i + 1)) protected) eqn:E; [|lia].
  apply coord_in_In in E. rewrite Forall_forall in Hp.
  apply Hp, coord_of_bounded in E. lia.
Qed.

Lemma givens_in_bounds (g : grid) : Forall (in_bounds (length g)) (givens g).
Proof.
  apply Forall_forall. intros p Hp. apply in_givens in Hp. tauto.
Qed.

(** C9. On every loaded instance the search ends: each recursive call is
    made on an index that is larger than the caller's and at most N ** 2,
    so that room for N ** 2 nested calls below the first one is enough
    ([fuel] counts the nested activations, the first included); and
    [backtrack] returns a boolean when the subgrid counts are positive. *)
Theorem C9_search_terminates (fs : filesystem) (path : string) (r c : Z)
    (self loaded : Sudoku) :
  load_board_csv fs path r c self = (Ret (Some true), loaded) ->
  exists g n subgrids,
    board loaded = Some g /\ sudoku_N loaded = Some n /\
    subgrid_coordinates loaded = Some subgrids /\
    (forall i, i < n ^ 2 ->
       exists next,
         next_index n (protected_coordinates loaded) i = Ret next /\
         i < next <= n ^ 2) /\
    (forall fuel, n ^ 2 < fuel ->
       fst (process_board n subgrids (protected_coordinates loaded) fuel 0 g)
       <> OutOfFuel) /\
    fst (backtrack loaded) <> OutOfFuel /\
    ((0 < r)%Z -> exists b after, backtrack loaded = (Ret b, after)).
Proof.
  intros Hload. apply load_success in Hload.
  destruct Hload as [csv [g [_ [_ [_ [Hrc [Hg ->]]]]]]].
  exists g, (length g), (subgrids_of r c).
  split; [reflexivity|]. split; [reflexivity|]. split; [reflexivity|].
  cbn [loaded_instance with_subgrids with_board with_protected
       protected_coordinates].
  assert (Hends : forall fuel, length g ^ 2 < fuel ->
            fst (process_board (length g) (subgrids_of r c) (givens g) fuel 0 g)
            <> OutOfFuel /\
            (tiling (length g) (subgrids_of r c) ->
             exists b, fst (process_board (length g) (subgrids_of r c)
                              (givens g) fuel 0 g) = Ret b)).
  { intros fuel Hfuel.
    destruct (process_board (length g) (subgrids_of r c) (givens g) fuel 0 g)
      as [res g'] eqn:Hrun.
    apply process_board_ends in Hrun; [|assumption|lia].
    destruct Hrun as [_ [Hne Hret]]. auto. }
  split; [|split; [|split]].
  - intros i Hi. exists (step (length g) (givens g) i). split.
    + apply next_index_step. intros E. rewrite E in Hi. simpl in Hi. lia.
    + split; [apply step_after|].
      apply step_cap; [apply givens_in_bounds | assumption].
  - intros fuel Hfuel. apply Hends. assumption.
  - rewrite backtrack_loaded.
    destruct (Hends (S (length g ^ 2)) (Nat.lt_succ_diag_r _)) as [Hne _].
    destruct (process_board _ _ _ _ _ _) as [[[|]| |] g']; simpl in *;
      congruence.
  - intros Hr. rewrite backtrack_loaded.
    destruct (Hends (S (length g ^ 2)) (Nat.lt_succ_diag_r _)) as [_ Hret].
    destruct (Hret (@loaded_tiling r c _ Hrc Hr)) as [b Hb].
    destruct (process_board _ _ _ _ _ _) as [[[|]| |] g']; simpl in Hb;
      try discriminate; eauto.
Qed.

(** The bound is reached: on the empty 4 by 4 board the search nests 16
    calls below the first one (the last, at index 16, returns at once),
    so that 16 activations are one too few and 17 are enough. *)
Example depth_reached :
  fst (process_board 4 (subgrids_of 2 2) [] 16 0
         [[0; 0; 0; 0]; [0; 0; 0; 0]; [0; 0; 0; 0]; [0; 0; 0; 0]]%Z)
  = OutOfFuel /\
  fst (process_board 4 (subgrids_of 2 2) [] 17 0
         [[0; 0; 0; 0]; [0; 0; 0; 0]; [0; 0; 0; 0]; [0; 0; 0; 0]]%Z)
  = Ret true.
Proof. vm_compute. split; reflexivity. Qed.

Lemma C9_witness :
  exists g n subgrids,
    board (snd (load_lines empty4 2 2)) = Some g /\
    sudoku_N (snd (load_lines empty4 2 2)) = Some n /\
    subgrid_coordinates (snd (load_lines empty4 2 2)) = Some subgrids /\
    (forall i, i < n ^ 2 ->
       exists next,
         next_index n (protected_coordinates (snd (load_lines empty4 2 2))) i
         = Ret next /\ i < next <= n ^ 2) /\
    (forall fuel, n ^ 2 < fuel ->
       fst (process_board n subgrids
              (protected_coordinates (snd (load_lines empty4 2 2))) fuel 0 g)
       <> OutOfFuel) /\
    fst (backtrack (snd (load_lines empty4 2 2))) <> OutOfFuel /\
    ((0 < 2)%Z ->
     exists b after, backtrack (snd (load_lines empty4 2 2)) = (Ret b, after)).
Proof.
  apply (@C9_search_terminates (one_file "board.csv" empty4) "board.csv"
           2%Z 2%Z (new_Sudoku false)).
  vm_compute. reflexivity.
Defined.

Lemma counts_to_nat (r c : Z) (n : nat) :
  (r * c = Z.of_nat n)%Z -> (0 <= r)%Z \/ (0 <= c)%Z ->
  Z.to_nat r * Z.to_nat c = n.
Proof. intros Hrc Hsign. nia. Qed.

(** C7. After a load that succeeds, with subgrid counts that are not both
    negative (the loader's contract asks for positive ones), the product
    of the two counts is N; there are N subgrids of N members each; the
    members are coordinates of the board; and every coordinate of the
    board is a member of exactly one subgrid, once. *)
Theorem C7_subgrids_partition (fs : filesystem) (path : string) (r c : Z)
    (self loaded : Sudoku) :
  load_board_csv fs path r c self = (Ret (Some true), loaded) ->
  (0 <= r)%Z \/ (0 <= c)%Z ->
  exists n subgrids,
    sudoku_N loaded = Some n /\
    subgrid_row_count loaded = Some r /\
    subgrid_column_count loaded = Some c /\
    subgrid_coordinates loaded = Some subgrids /\
    (r * c = Z.of_nat n)%Z /\
    length subgrids = n /\
    (forall sub, In sub subgrids -> length sub = n) /\
    (forall sub p, In sub subgrids -> In p sub -> in_bounds n p) /\
    (forall p, in_bounds n p ->
       exists k, k < n /\ In p (nth k subgrids []) /\
                 forall k', In p (nth k' subgrids []) -> k' = k) /\
    NoDup (concat subgrids).
Proof.
  intros Hload Hsign. apply load_success in Hload.
  destruct Hload as [csv [g [_ [_ [_ [Hrc [Hg ->]]]]]]].
  exists (length g), (subgrids_of r c).
  pose proof (@counts_to_nat r c _ Hrc Hsign) as Hn.
  assert (Ht : tiling (length g) (subgrids_of r c)).
  { rewrite subgrids_of_tiles, <- Hn. apply tiles_tiling. }
  assert (Hlen : length (subgrids_of r c) = length g).
  { rewrite subgrids_of_tiles, length_tiles. exact Hn. }
  repeat (split; [reflexivity || assumption|]).
  split; [exact (tiling_length Ht)|].
  split; [exact (tiling_member Ht)|].
  split; [|exact (tiling_NoDup Ht)].
  intros p Hp. destruct (tiling_covers Ht Hp) as [sub [Hsub Hin]].
  destruct (In_nth _ _ [] Hsub) as [k [Hk Ek]].
  exists k. split; [lia|]. split; [rewrite Ek; assumption|].
  intros k' Hk'. apply (NoDup_concat_position (subgrids_of r c) p).
  - exact (tiling_NoDup Ht).
  - assumption.
  - rewrite Ek. assumption.
Qed.

Lemma C7_witness :
  exists n subgrids,
    sudoku_N (snd (load_lines empty4 2 2)) = Some n /\
    subgrid_row_count (snd (load_lines empty4 2 2)) = Some 2%Z /\
    subgrid_column_count (snd (load_lines empty4 2 2)) = Some 2%Z /\
    subgrid_coordinates (snd (load_lines empty4 2 2)) = Some subgrids /\
    (2 * 2 = Z.of_nat n)%Z /\
    length subgrids = n /\
    (forall sub, In sub subgrids -> length sub = n) /\
    (forall sub p, In sub subgrids -> In p sub -> in_bounds n p) /\
    (forall p, in_bounds n p ->
       exists k, k < n /\ In p (nth k subgrids []) /\
                 forall k', In p (nth k' subgrids []) -> k' = k) /\
    NoDup (concat subgrids).
Proof.
  apply (@C7_subgrids_partition (one_file "board.csv" empty4) "board.csv"
           2%Z 2%Z (new_Sudoku false)).
  - vm_compute. reflexivity.
  - left. lia.
Defined.

(** With two negative counts whose product is N the load succeeds all the
    same, and derives no subgrid at all. *)
Example negative_counts_no_subgrids :
  fst (load_lines empty4 (-2) (-2)) = Ret (Some true) /\
  subgrid_coordinates (snd (load_lines empty4 (-2) (-2))) = Some [].
Proof. vm_compute. split; reflexivity. Qed.

Lemma Forall2_In_l {A B} (R : A -> B -> Prop) (l : list A) (l' : list B) (x : A) :
  Forall2 R l l' -> In x l -> exists y, In y l' /\ R x y.
Proof.
  induction 1 as [|a b l l' Hab _ IH]; intros Hx; [contradiction|].
  destruct Hx as [->|Hx].
  - exists b. split; [left; reflexivity | assumption].
  - destruct (IH Hx) as [y [Hy Hr]]. exists y. split; [right|]; assumption.
Qed.

Lemma grid_of_rejects (text_board : list (list string)) (row : list string)
    (text : string) :
  In row text_board -> In text row -> Py.int text = None ->
  exists bad, grid_of text_board = inr bad.
Proof.
  intros Hrow Htext Hbad. destruct (grid_of text_board) as [g|bad] eqn:Hg;
    [|eauto].
  exfalso. apply grid_of_inl in Hg.
  destruct (@Forall2_In_l _ _ _ _ _ _ Hg Hrow) as [nums [_ Hnums]].
  destruct (@Forall2_In_l _ _ _ _ _ _ Hnums Htext) as [num [_ Hnum]].
  congruence.
Qed.

(** C6, as the code has it.  After a load that succeeds the board is an
    N by N grid of integers, each the integer that [int()] reads from the
    text of its cell, whatever its sign and size: there is no check
    against the range 0..N.  And when the file is found, square and of
    the side the subgrid counts ask for, a cell that [int()] rejects makes
    the load return [False] and leaves the instance as it was, but for
    the message printed. *)
Theorem C6_cells_are_parsed_integers (fs : filesystem) (path : string)
    (r c : Z) (self : Sudoku) :
  (forall loaded,
     load_board_csv fs path r c self = (Ret (Some true), loaded) ->
     exists csv_file g,
       fs path = Some csv_file /\ board loaded = Some g /\
       sudoku_N loaded = Some (length g) /\ square (length g) g /\
       Forall2 (Forall2 (fun text num => Py.int text = Some num))
               (text_board_of csv_file) g) /\
  (forall csv_file row text,
     fs path = Some csv_file ->
     is_square (text_board_of csv_file) = true ->
     (r * c = Z.of_nat (length (text_board_of csv_file)))%Z ->
     In row (text_board_of csv_file) -> In text row -> Py.int text = None ->
     exists bad,
       Py.int bad = None /\
       load_board_csv fs path r c self
       = (Ret (Some false), after_print (msg_not_numeric bad) self)).
Proof.
  split.
  - intros loaded Hload. apply load_success in Hload.
    destruct Hload as [csv [g [Hfs [_ [Hgrid [_ [Hg ->]]]]]]].
    exists csv, g. repeat (split; [reflexivity || assumption|]).
    apply grid_of_inl. assumption.
  - intros csv row text Hfs Hsq Hrc Hrow Htext Hbad.
    destruct (@grid_of_rejects _ _ _ Hrow Htext Hbad) as [bad Hgrid].
    exists bad. split; [apply (@grid_of_inr _ _ Hgrid)|].
    rewrite load_board_csv_cases, Hfs. cbv zeta. rewrite Hsq. simpl.
    apply Z.eqb_eq in Hrc. rewrite Hrc. simpl. rewrite Hgrid. reflexivity.
Qed.

(** C6 as stated fails: a file with the cells -3 and 99 loads as a 2 by 2
    board, and neither cell lies in 0..2; the cell -3 is not a
    non-negative integer and yet the load does not fail. *)
Lemma C6_counterexample :
  load_lines out_of_range 1 2
  = (Ret (Some true),
     loaded_instance [[-3; 99]; [0; 0]]%Z 1 2 (new_Sudoku false)) /\
  ~ (0 <= -3 <= 2)%Z /\ ~ (0 <= 99 <= 2)%Z.
Proof.
  split; [vm_compute; reflexivity|]. split; lia.
Qed.

(** C8, as the code has it.  The four checks are made in the order
    NotFound, NotSquare, InvalidSubgridConfig, NonNumericCell, and the
    first that fails ends the load with the instance as it was but for
    the message printed; the value returned is [False] for NotFound,
    NotSquare and NonNumericCell alike and [None] for
    InvalidSubgridConfig. *)
Theorem C8_load_checks_in_order (fs : filesystem) (path : string) (r c : Z)
    (self : Sudoku) :
  (fs path = None ->
   load_board_csv fs path r c self
   = (Ret (Some false), after_print (msg_not_found path) self)) /\
  (forall csv_file,
     fs path = Some csv_file ->
     (is_square (text_board_of csv_file) = false ->
      load_board_csv fs path r c self
      = (Ret (Some false), after_print (msg_not_square path) self)) /\
     (is_square (text_board_of csv_file) = true ->
      (r * c <> Z.of_nat (length (text_board_of csv_file)))%Z ->
      load_board_csv fs path r c self
      = (Ret None, after_print msg_bad_subgrids self)) /\
     (is_square (text_board_of csv_file) = true ->
      (r * c = Z.of_nat (length (text_board_of csv_file)))%Z ->
      forall bad, grid_of (text_board_of csv_file) = inr bad ->
      load_board_csv fs path r c self
      = (Ret (Some false), after_print (msg_not_numeric bad) self)) /\
     (is_square (text_board_of csv_file) = true ->
      (r * c = Z.of_nat (length (text_board_of csv_file)))%Z ->
      forall g, grid_of (text_board_of csv_file) = inl g ->
      load_board_csv fs path r c self
      = (Ret (Some true), loaded_instance g r c self))).
Proof.
  rewrite load_board_csv_cases. split.
  - intros ->. reflexivity.
  - intros csv ->. cbv zeta. repeat split.
    + intros ->. reflexivity.
    + intros -> Hrc. apply Z.eqb_neq in Hrc. rewrite Hrc. reflexivity.
    + intros -> Hrc bad ->. apply Z.eqb_eq in Hrc. rewrite Hrc. reflexivity.
    + intros -> Hrc g ->. apply Z.eqb_eq in Hrc. rewrite Hrc. reflexivity.
Qed.

(** C8 as stated fails: a load of a file that does not exist, a load of
    a file whose rows differ in length and a load of a file with a cell
    that is no number hand the caller the same result and the same
    instance. *)
Lemma C8_counterexample :
  one_file "board.csv"%string with_letter "missing.csv"%string = None /\
  is_square (text_board_of ragged) = false /\
  grid_of (text_board_of with_letter) = inr "x"%string /\
  load_board_csv (one_file "board.csv"%string with_letter) "missing.csv"%string 1 2
                 (new_Sudoku false)
  = (Ret (Some false), new_Sudoku false) /\
  load_lines ragged 1 2 = (Ret (Some false), new_Sudoku false) /\
  load_lines with_letter 1 2 = (Ret (Some false), new_Sudoku false).
Proof. vm_compute. repeat split; reflexivity. Qed.

Lemma board_solved_after_print (msg : string) (self : Sudoku) :
  board_solved (after_print msg self) <-> board_solved self.
Proof.
  unfold board_solved.
  destruct (after_print_fields msg self) as [_ [-> [-> [_ [_ [-> _]]]]]].
  reflexivity.
Qed.

(** C1, as the code has it.  The loader and the solver never check the
    givens against one another or against the range 1..N.  When the
    givens of a loaded instance do lie in 1..N and no two of them clash,
    a [backtrack] that returns [True] leaves a board in which every row,
    every column and every subgrid holds each value of 1..N exactly
    once. *)
Theorem C1_success_gives_solved_board (fs : filesystem) (path : string)
    (r c : Z) (self loaded after : Sudoku) :
  load_board_csv fs path r c self = (Ret (Some true), loaded) ->
  givens_valid loaded = true ->
  backtrack loaded = (Ret true, after) ->
  board_solved after.
Proof.
  intros Hload Hvalid Hrun. apply load_success in Hload.
  destruct Hload as [csv [g [_ [_ [_ [Hrc [Hg ->]]]]]]].
  unfold givens_valid in Hvalid.
  cbn [loaded_instance with_subgrids with_board with_protected
       board sudoku_N subgrid_coordinates] in Hvalid.
  apply andb_true_iff in Hvalid. destruct Hvalid as [Hrange Hcons].
  rewrite backtrack_loaded in Hrun.
  destruct (process_board (length g) (subgrids_of r c) (givens g)
              (S (length g ^ 2)) 0 g) as [[[|]| |] g'] eqn:Hsearch;
    try discriminate.
  inversion Hrun; subst after. apply board_solved_after_print.
  unfold board_solved.
  cbn [set_board loaded_instance with_subgrids with_board with_protected
       board sudoku_N subgrid_coordinates].
  destruct (loaded_subgrids r c _ Hrc) as [Ht | [Hnone [_ Hn]]].
  - apply consistent_no_clash in Hcons.
    destruct (process_board_solution Ht _ Hg Hcons
                (loaded_filled_but g Hrange) Hsearch)
      as [Hg' [Hclash Hfilled]].
    apply filled_no_clash_solved; assumption.
  - exfalso. rewrite Hnone in Hsearch.
    refine (no_subgrids_no_success _ _ Hg _ Hsearch). simpl. nia.
Qed.

Lemma C1_witness :
  board_solved (snd (backtrack (snd (load_lines empty4 2 2)))).
Proof.
  apply (@C1_success_gives_solved_board (one_file "board.csv" empty4)
           "board.csv" 2%Z 2%Z (new_Sudoku false)
           (snd (load_lines empty4 2 2))).
  - vm_compute. reflexivity.
  - vm_compute. reflexivity.
  - vm_compute. reflexivity.
Defined.

(** C1 as stated fails: the 4 by 4 board with 1 given twice in its first
    row loads; [backtrack] returns [True] on it; and the first row of the
    board it leaves is 2, 1, 3, 1, which is no arrangement of 1..4. *)
Lemma C1_counterexample :
  fst (load_lines clashing4 2 2) = Ret (Some true) /\
  fst (backtrack (snd (load_lines clashing4 2 2))) = Ret true /\
  board (snd (backtrack (snd (load_lines clashing4 2 2))))
  = Some [[2; 1; 3; 1]; [3; 1; 2; 4]; [1; 2; 4; 3]; [4; 3; 1; 2]]%Z /\
  ~ board_solved (snd (backtrack (snd (load_lines clashing4 2 2)))).
Proof.
  split; [vm_compute; reflexivity|].
  split; [vm_compute; reflexivity|].
  split; [vm_compute; reflexivity|].
  intros H. vm_compute in H. destruct H as [Hrows _].
  assert (Hperm : Permutation [2; 1; 3; 1]%Z [1; 2; 3; 4]%Z).
  { apply (Hrows 0). lia. }
  assert (Hin : In 4%Z [2; 1; 3; 1]%Z).
  { apply (Permutation_in _ (Permutation_sym Hperm)). simpl. auto. }
  simpl in Hin. lia.
Qed.

(* ================================================================== *)
(** ** A row with the same value twice cannot be completed

    On a full board where the only clash is between two cells of one
    row, every other row holds that value once, in a column of its own
    that is neither of the two: one column too few. *)

Section RowClash.

Variable N : nat.
Variable subgrids : list (list coord).
Variable g : grid.
Variables p q : coord.

Hypothesis Hg : square N g.
Hypothesis Hfilled : filled N g.
Hypothesis Honly : clashes_within N subgrids (the_pair p q) g.
Hypothesis Hp : in_bounds N p.
Hypothesis Hq : in_bounds N q.
Hypothesis Hrow : fst p = fst q.
Hypothesis Hcol : snd p <> snd q.
Hypothesis Hsame : value_at g p = value_at g q.

Lemma other_rows_differ (x y : coord) :
  in_bounds N x -> in_bounds N y -> x <> y -> peers subgrids x y ->
  fst x <> fst p -> value_at g x <> value_at g y.
Proof.
  intros Hx Hy Hne Hpeer Hrowx E.
  assert (Hnz : value_at g x <> 0%Z) by (pose proof (Hfilled Hx); lia).
  destruct (Honly Hx Hy Hne Hpeer Hnz E) as [[-> _] | [-> _]]; congruence.
Qed.

Lemma value_in_other_row (i : nat) :
  i < N -> i <> fst p -> exists k, k < N /\ value_at g (i, k) = value_at g p.
Proof.
  intros Hi Hne.
  assert (Hperm : Permutation (map (value_at g) (map (fun j => (i, j)) (seq 0 N)))
                              (one_to N)).
  { apply (unit_permutation Hfilled).
    - apply NoDup_row_coords.
    - rewrite length_map, length_seq. reflexivity.
    - intros x Hx. apply in_map_iff in Hx. destruct Hx as [j [<- Hj]].
      apply in_seq in Hj. split; simpl; lia.
    - intros x y Hx Hy Hxy. apply in_map_iff in Hx, Hy.
      destruct Hx as [j [<- Hj]], Hy as [j' [<- Hj']].
      apply in_seq in Hj, Hj'.
      apply other_rows_differ; try assumption.
      + split; simpl; lia.
      + split; simpl; lia.
      + left. reflexivity. }
  assert (Hin : In (value_at g p) (one_to N)) by (apply in_one_to; auto).
  apply (Permutation_in _ (Permutation_sym Hperm)) in Hin.
  apply in_map_iff in Hin. destruct Hin as [x [Hv Hx]].
  apply in_map_iff in Hx. destruct Hx as [k [<- Hk]]. apply in_seq in Hk.
  exists k. split; [lia | assumption].
Qed.

Lemma columns_for_rows (rows : list nat) :
  NoDup rows -> (forall i, In i rows -> i < N /\ i <> fst p) ->
  exists ks,
    length ks = length rows /\ NoDup ks /\
    forall k, In k ks ->
      k < N /\ k <> snd p /\ k <> snd q /\
      exists i, In i rows /\ value_at g (i, k) = value_at g p.
Proof.
  induction 1 as [|i rows Hi Hnd IH]; intros Hrows.
  - exists []. split; [reflexivity|]. split; [constructor | intros k []].
  - destruct IH as [ks [Hlen [Hks Hspec]]].
    { intros j Hj. apply Hrows. right. assumption. }
    destruct (Hrows i (or_introl eq_refl)) as [HiN Hip].
    destruct (value_in_other_row HiN Hip) as [k [Hk Hv]].
    assert (Hik : in_bounds N (i, k)) by (split; assumption).
    exists (k :: ks). split; [simpl; congruence|]. split.
    + constructor; [|assumption]. intros Hin.
      destruct (Hspec k Hin) as [_ [_ [_ [i' [Hi' Hv']]]]].
      assert (Hne : i' <> i) by (intros ->; contradiction).
      destruct (Hrows i' (or_intror Hi')) as [Hi'N Hi'p].
      apply (@other_rows_differ (i', k) (i, k)); simpl; try assumption.
      * split; assumption.
      * intros E. inversion E. contradiction.
      * right. left. reflexivity.
      * congruence.
    + intros k' [<-|Hk'].
      * split; [assumption|]. split; [|split].
        -- intros ->. apply (@other_rows_differ (i, snd p) p); simpl;
             try assumption.
           ++ intros E. apply Hip. rewrite <- E. reflexivity.
           ++ right. left. reflexivity.
        -- intros ->. apply (@other_rows_differ (i, snd q) q); simpl;
             try assumption.
           ++ intros E. apply Hip. rewrite Hrow, <- E. reflexivity.
           ++ right. left. reflexivity.
           ++ congruence.
        -- exists i. split; [left; reflexivity | assumption].
      * destruct (Hspec k' Hk') as [H1 [H2 [H3 [i' [Hi' Hv']]]]].
        repeat (split; [assumption|]). exists i'. split; [right|]; assumption.
Qed.

Theorem row_clash_not_full : False.
Proof.
  pose (rows := seq 0 (fst p) ++ seq (S (fst p)) (N - S (fst p))).
  destruct Hp as [Hpr Hpc]. destruct Hq as [_ Hqc].
  assert (Hnd : NoDup rows).
  { assert (E : seq 0 N = seq 0 (fst p) ++ fst p :: seq (S (fst p)) (N - S (fst p))).
    { replace N with (fst p + S (N - S (fst p))) at 1 by lia.
      rewrite seq_app. reflexivity. }
    pose proof (seq_NoDup N 0) as H. rewrite E in H.
    apply NoDup_remove_1 in H. exact H. }
  assert (Hrows : forall i, In i rows -> i < N /\ i <> fst p).
  { intros i Hi. apply in_app_or in Hi. rewrite !in_seq in Hi. lia. }
  destruct (columns_for_rows Hnd Hrows) as [ks [Hlen [Hks Hspec]]].
  assert (Hall : NoDup (snd p :: snd q :: ks)).
  { constructor; [|constructor; [|assumption]].
    - intros [E|Hin]; [congruence|]. apply Hspec in Hin. tauto.
    - intros Hin. apply Hspec in Hin. tauto. }
  assert (Hincl : incl (snd p :: snd q :: ks) (seq 0 N)).
  { intros k [<-|[<-|Hk]]; apply in_seq; try lia.
    apply Hspec in Hk. lia. }
  pose proof (NoDup_incl_length Hall Hincl) as Hle.
  simpl in Hle. rewrite Hlen, length_seq in Hle. unfold rows in Hle.
  rewrite length_app, !length_seq in Hle. lia.
Qed.

End RowClash.

(* ================================================================== *)
(** ** What the search does to the givens *)

Lemma row_pair_true (n : nat) (g : grid) (p q : coord) :
  row_pair n g p q = true ->
  in_bounds n p /\ in_bounds n q /\ fst p = fst q /\ snd p <> snd q /\
  value_at g p <> 0%Z /\ value_at g p = value_at g q.
Proof.
  unfold row_pair, in_bounds. rewrite !andb_true_iff, !negb_true_iff.
  rewrite !Nat.ltb_lt, !Nat.eqb_eq, Nat.eqb_neq, Z.eqb_neq, Z.eqb_eq.
  intros [[[[[[H1 H2] H3] H4] H5] H6] H7]. repeat split; try assumption.
  rewrite <- H4. assumption.
Qed.

Lemma the_pairb_the_pair (p q p' q' : coord) :
  the_pairb p q p' q' = true -> the_pair p q p' q'.
Proof.
  unfold the_pairb, the_pair.
  rewrite orb_true_iff, !andb_true_iff, !coord_eqb_eq. tauto.
Qed.

Lemma only_clash_within (n : nat) (subgrids : list (list coord)) (g : grid)
    (p q : coord) :
  only_clash n subgrids g p q = true ->
  clashes_within n subgrids (the_pair p q) g.
Proof.
  unfold only_clash. rewrite forallb_forall.
  intros H p' q' Hp' Hq' Hne Hpeer Hnz Heq.
  apply in_all_coords in Hp', Hq'. specialize (H p' Hp').
  rewrite forallb_forall in H. specialize (H q' Hq').
  apply orb_true_iff in H. destruct H as [H|H];
    [|apply the_pairb_the_pair; assumption].
  exfalso. apply negb_true_iff in H. unfold clash in H.
  assert (E1 : coord_eqb p' q' = false).
  { destruct (coord_eqb p' q') eqn:E; [|reflexivity].
    apply coord_eqb_eq in E. contradiction. }
  apply peersb_peers in Hpeer. apply Z.eqb_neq in Hnz. apply Z.eqb_eq in Heq.
  rewrite E1, Hpeer, Hnz, Heq in H. discriminate.
Qed.

Lemma givens_unvisited_spec (n : nat) (protected : list coord) (j : nat) :
  givens_unvisited n protected = true -> visits n protected 0 j ->
  ~ In (coord_of n j) protected.
Proof.
  unfold givens_unvisited. rewrite forallb_forall. intros H Hv Hin.
  apply (@visits_visited n protected (n ^ 2)) in Hv; [|lia].
  apply H in Hv. apply negb_true_iff in Hv. apply coord_in_In in Hin.
  congruence.
Qed.

Section Givens.

Variable g : grid.
Hypothesis Hunvisited : givens_unvisited (length g) (givens g) = true.

(** When the search visits no given, every cell it visits is empty. *)
Lemma visited_cells_empty (j : nat) :
  visits (length g) (givens g) 0 j ->
  value_at g (coord_of (length g) j) = 0%Z.
Proof.
  intros Hv. pose proof (@givens_unvisited_spec _ _ _ Hunvisited Hv) as Hnot.
  destruct (Z.eq_dec (value_at g (coord_of (length g) j)) 0) as [E|E];
    [assumption|].
  exfalso. apply Hnot. apply in_givens. split; [|assumption].
  apply coord_of_in_bounds. apply visits_bounds in Hv. lia.
Qed.

(** And a given is a cell that the search does not visit. *)
Lemma given_not_visited (p : coord) :
  in_bounds (length g) p -> value_at g p <> 0%Z ->
  ~ visits (length g) (givens g) 0 (index_of (length g) p).
Proof.
  intros Hp Hnz Hv. apply visited_cells_empty in Hv.
  rewrite coord_of_index_of in Hv by assumption. contradiction.
Qed.

End Givens.

(** C5, as the code has it.  The solver never checks the givens against
    one another, and it overwrites a given that it visits.  Where neither
    comes into play it does report the clash: on a loaded board, of any
    side (9 by 9 included) and with positive subgrid counts, whose givens
    lie in 1..N, where [p] and [q] are two equal givens of one row, no
    other two cells clash and the search visits no given, [backtrack]
    returns [False] and leaves the instance as loaded, but for the
    message printed. *)
Theorem C5_lone_row_clash_fails (fs : filesystem) (path : string) (r c : Z)
    (self loaded : Sudoku) (p q : coord) :
  load_board_csv fs path r c self = (Ret (Some true), loaded) ->
  (0 < r)%Z ->
  lone_row_clash loaded p q = true ->
  backtrack loaded = (Ret false, after_print "Board has no solutions." loaded).
Proof.
  intros Hload Hr Hlone. apply load_success in Hload.
  destruct Hload as [csv [g [_ [_ [_ [Hrc [Hg ->]]]]]]].
  unfold lone_row_clash in Hlone.
  cbn [loaded_instance with_subgrids with_board with_protected
       board sudoku_N subgrid_coordinates protected_coordinates] in Hlone.
  rewrite !andb_true_iff in Hlone.
  destruct Hlone as [[[Hrange Hpair] Honly] Hunv].
  apply row_pair_true in Hpair.
  destruct Hpair as [Hp [Hq [Hrow [Hcol [Hnz Hsame]]]]].
  apply only_clash_within in Honly.
  pose proof (@loaded_tiling r c _ Hrc Hr) as Ht.
  rewrite backtrack_loaded.
  destruct (process_board (length g) (subgrids_of r c) (givens g)
              (S (length g ^ 2)) 0 g) as [res g'] eqn:Hsearch.
  assert (Hfuel : length g ^ 2 - 0 < S (length g ^ 2)) by lia.
  destruct (process_board_ends _ _ 0 Hg Hfuel Hsearch) as [_ [_ Hret]].
  destruct (Hret Ht) as [[|] ->].
  - exfalso.
    destruct (process_board_solution Ht _ Hg Honly
                (loaded_filled_but g Hrange) Hsearch)
      as [Hg' [Honly' Hfilled']].
    destruct (process_board_frame _ _ _ _ Hg Hsearch) as [_ Hkeep].
    assert (Hkept : forall x, in_bounds (length g) x -> value_at g x <> 0%Z ->
                              value_at g' x = value_at g x).
    { intros x Hx Hxnz.
      rewrite <- (@coord_of_index_of (length g) x Hx).
      apply Hkeep; [apply index_of_bound; assumption|].
      apply given_not_visited; assumption. }
    apply (@row_clash_not_full (length g) (subgrids_of r c) g' p q);
      try assumption.
    rewrite !Hkept; congruence.
  - assert (E : g' = g).
    { apply (process_board_undo _ _ Hg (@visited_cells_empty g Hunv) Hsearch). }
    subst g'. reflexivity.
Qed.

Lemma C5_witness :
  backtrack (snd (load_lines two_fives 3 3))
  = (Ret false,
     after_print "Board has no solutions." (snd (load_lines two_fives 3 3))).
Proof.
  apply (@C5_lone_row_clash_fails (one_file "board.csv" two_fives)
           "board.csv" 3%Z 3%Z (new_Sudoku false) _ (0, 1) (0, 3)).
  - vm_compute. reflexivity.
  - lia.
  - vm_compute. reflexivity.
Defined.

(** C5 as stated fails: the 9 by 9 board [three_fives] has 5 given twice
    in its first row; it loads; [backtrack] returns [True] on it, not
    [False]; and the board it leaves is not the board that was loaded. *)
Lemma C5_counterexample :
  fst (load_lines three_fives 3 3) = Ret (Some true) /\
  sudoku_N (snd (load_lines three_fives 3 3)) = Some 9 /\
  board_cell (snd (load_lines three_fives 3 3)) (0, 1) = Some 5%Z /\
  board_cell (snd (load_lines three_fives 3 3)) (0, 3) = Some 5%Z /\
  fst (backtrack (snd (load_lines three_fives 3 3))) = Ret true /\
  board (snd (backtrack (snd (load_lines three_fives 3 3))))
  <> board (snd (load_lines three_fives 3 3)).
Proof.
  repeat (split; [vm_compute; reflexivity|]).
  vm_compute. discriminate.
Qed.

(* ================================================================== *)
(** ** Where the search does keep its promises

    The two facts below hold of every loaded instance; they fail to
    give the second and third claim only because the search may visit a
    given: the cell of index 0 always, and a given that directly follows
    another given. *)

(** Whatever [backtrack] returns, a cell that the search does not visit
    holds afterwards what it held when loaded. *)
Lemma unvisited_cells_kept (fs : filesystem) (path : string) (r c : Z)
    (self loaded : Sudoku) (g : grid) (n : nat) (j : nat) :
  load_board_csv fs path r c self = (Ret (Some true), loaded) ->
  board loaded = Some g -> sudoku_N loaded = Some n ->
  j < n ^ 2 -> ~ visits n (protected_coordinates loaded) 0 j ->
  exists g', board (snd (backtrack loaded)) = Some g' /\
             value_at g' (coord_of n j) = value_at g (coord_of n j).
Proof.
  intros Hload Hboard HN Hj Hnv. apply load_success in Hload.
  destruct Hload as [csv [g0 [_ [_ [_ [Hrc [Hg ->]]]]]]].
  cbn [loaded_instance with_subgrids with_board with_protected
       board sudoku_N protected_coordinates] in Hboard, HN, Hnv.
  inversion Hboard; subst g0. inversion HN; subst n.
  rewrite backtrack_loaded.
  destruct (process_board (length g) (subgrids_of r c) (givens g)
              (S (length g ^ 2)) 0 g) as [res g'] eqn:Hsearch.
  destruct (process_board_frame _ _ _ _ Hg Hsearch) as [_ Hkeep].
  exists g'. split; [|apply Hkeep; assumption].
  destruct res as [[|]| |]; cbn [snd]; try reflexivity.
  - destruct (after_print_fields "Board has at least one solution."
                (set_board g' (loaded_instance g r c self))) as [_ [-> _]].
    reflexivity.
  - destruct (after_print_fields "Board has no solutions."
                (set_board g' (loaded_instance g r c self))) as [_ [-> _]].
    reflexivity.
Qed.

(** When the search visits no given, a [backtrack] that returns [False]
    leaves the board as loaded. *)
Lemma failure_restores_unvisited_givens (fs : filesystem) (path : string)
    (r c : Z) (self loaded after : Sudoku) (n : nat) :
  load_board_csv fs path r c self = (Ret (Some true), loaded) ->
  sudoku_N loaded = Some n ->
  givens_unvisited n (protected_coordinates loaded) = true ->
  backtrack loaded = (Ret false, after) ->
  board after = board loaded.
Proof.
  intros Hload HN Hunv Hrun. apply load_success in Hload.
  destruct Hload as [csv [g [_ [_ [_ [Hrc [Hg ->]]]]]]].
  cbn [loaded_instance with_subgrids with_board with_protected
       board sudoku_N protected_coordinates] in HN, Hunv |- *.
  inversion HN; subst n. rewrite backtrack_loaded in Hrun.
  destruct (process_board (length g) (subgrids_of r c) (givens g)
              (S (length g ^ 2)) 0 g) as [[[|]| |] g'] eqn:Hsearch;
    try discriminate.
  inversion Hrun; subst after.
  destruct (after_print_fields "Board has no solutions."
              (set_board g' (loaded_instance g r c self))) as [_ [-> _]].
  cbn [set_board board]. f_equal.
  apply (process_board_undo _ _ Hg (@visited_cells_empty g Hunv) Hsearch).
Qed.

(* ================================================================== *)
(** ** The search visits givens

    [process_board] looks for a protected coordinate one index ahead
    only, and once: the cell of index 0 is always worked on, and so is a
    given that directly follows another given.  A given that is worked
    on is overwritten by the first candidate that passes the check, and
    set to 0 when the branch fails. *)

(** C3, at a failing input.  The 2 by 2 board 1,0 / 0,0 (subgrids of one
    row) has one given, in the first cell.  [backtrack] returns [True]
    and the first cell then holds 2. *)
Theorem C3_given_overwritten :
  fst (load_lines first_cell_given 1 2) = Ret (Some true) /\
  protected_coordinates (snd (load_lines first_cell_given 1 2)) = [(0, 0)] /\
  board (snd (load_lines first_cell_given 1 2)) = Some [[1; 0]; [0; 0]]%Z /\
  fst (backtrack (snd (load_lines first_cell_given 1 2))) = Ret true /\
  board (snd (backtrack (snd (load_lines first_cell_given 1 2))))
  = Some [[2; 1]; [1; 2]]%Z.
Proof. vm_compute. repeat split; reflexivity. Qed.

(** C2, at two failing inputs.  The board 1,2 / 0,0 has the solution
    1,2 / 2,1; [backtrack] works on its first given, finds no candidate,
    returns [False] and leaves 0,2 / 0,0.  On the board 0,0 / 1,2 the
    same happens two calls deep: the call at index 3, entered on
    2,1 / 1,2, returns [False] with the given 2 set to 0, and
    [backtrack] ends with [False] on 0,0 / 1,0. *)
Theorem C2_failure_changes_board :
  (fst (load_lines first_row_given 1 2) = Ret (Some true) /\
   board (snd (load_lines first_row_given 1 2)) = Some [[1; 2]; [0; 0]]%Z /\
   fst (backtrack (snd (load_lines first_row_given 1 2))) = Ret false /\
   board (snd (backtrack (snd (load_lines first_row_given 1 2))))
   = Some [[0; 2]; [0; 0]]%Z) /\
  (fst (load_lines last_row_given 1 2) = Ret (Some true) /\
   board (snd (load_lines last_row_given 1 2)) = Some [[0; 0]; [1; 2]]%Z /\
   protected_coordinates (snd (load_lines last_row_given 1 2))
   = [(1, 0); (1, 1)] /\
   process_board 2 (subgrids_of 1 2) [(1, 0); (1, 1)] 2 3 [[2; 1]; [1; 2]]%Z
   = (Ret false, [[2; 1]; [1; 0]]%Z) /\
   fst (backtrack (snd (load_lines last_row_given 1 2))) = Ret false /\
   board (snd (backtrack (snd (load_lines last_row_given 1 2))))
   = Some [[0; 0]; [1; 0]]%Z).
Proof. vm_compute. repeat split; reflexivity. Qed.

(** C4, at a failing input.  On a solved 4 by 4 board every cell is a
    given; [backtrack] works on the first one, finds every candidate in
    its row, returns [False] and leaves the first cell at 0. *)
Theorem C4_solved_board_rejected :
  fst (load_lines solved4 2 2) = Ret (Some true) /\
  board (snd (load_lines solved4 2 2))
  = Some [[1; 2; 3; 4]; [3; 4; 1; 2]; [2; 1; 4; 3]; [4; 3; 2; 1]]%Z /\
  givens_valid (snd (load_lines solved4 2 2)) = true /\
  length (protected_coordinates (snd (load_lines solved4 2 2))) = 16 /\
  fst (backtrack (snd (load_lines solved4 2 2))) = Ret false /\
  board (snd (backtrack (snd (load_lines solved4 2 2))))
  = Some [[0; 2; 3; 4]; [3; 4; 1; 2]; [2; 1; 4; 3]; [4; 3; 2; 1]]%Z.
Proof. vm_compute. repeat split; reflexivity. Qed.

(* ================================================================== *)
(** ** Boards outside the conditions

    What the search does when a condition of the two theorems on clashing
    givens is dropped. *)

(** Givens above N: the two 77 of the first row clash with no candidate,
    and [backtrack] returns [True] with both in place. *)
Example clash_above_range_succeeds :
  fst (load_lines two_big 3 3) = Ret (Some true) /\
  fst (backtrack (snd (load_lines two_big 3 3))) = Ret true /\
  board_cell (snd (backtrack (snd (load_lines two_big 3 3)))) (0, 1)
  = Some 77%Z /\
  board_cell (snd (backtrack (snd (load_lines two_big 3 3)))) (0, 3)
  = Some 77%Z.
Proof. vm_compute. repeat split; reflexivity. Qed.

(** A clash on a given that the search visits: the 5 of the first cell is
    overwritten by 1, the clash is gone, and [backtrack] returns [True]
    on a solved board. *)
Example clash_on_visited_given_succeeds :
  fst (load_lines adjacent_fives 3 3) = Ret (Some true) /\
  lone_row_clash (snd (load_lines adjacent_fives 3 3)) (0, 0) (0, 1) = false /\
  fst (backtrack (snd (load_lines adjacent_fives 3 3))) = Ret true /\
  board_cell (snd (load_lines adjacent_fives 3 3)) (0, 0) = Some 5%Z /\
  board_cell (snd (backtrack (snd (load_lines adjacent_fives 3 3)))) (0, 0)
  = Some 1%Z.
Proof. vm_compute. repeat split; reflexivity. Qed.

(* ================================================================== *)
(** ** The loader on the example files *)

Lemma C8_witness :
  load_board_csv (one_file "board.csv" empty4) "missing.csv" 2 2
                 (new_Sudoku true)
  = (Ret (Some false),
     after_print (msg_not_found "missing.csv") (new_Sudoku true)) /\
  load_board_csv (one_file "board.csv" ragged) "board.csv" 1 2
                 (new_Sudoku true)
  = (Ret (Some false),
     after_print (msg_not_square "board.csv") (new_Sudoku true)) /\
  load_board_csv (one_file "board.csv" empty4) "board.csv" 3 2
                 (new_Sudoku true)
  = (Ret None, after_print msg_bad_subgrids (new_Sudoku true)) /\
  load_board_csv (one_file "board.csv" with_letter) "board.csv" 1 2
                 (new_Sudoku true)
  = (Ret (Some false), after_print (msg_not_numeric "x") (new_Sudoku true)) /\
  load_board_csv (one_file "board.csv" first_row_given) "board.csv" 1 2
                 (new_Sudoku true)
  = (Ret (Some true),
     loaded_instance [[1; 2]; [0; 0]]%Z 1 2 (new_Sudoku true)).
Proof.
  split; [|split; [|split; [|split]]].
  - apply (proj1 (C8_load_checks_in_order (one_file "board.csv" empty4)
                    "missing.csv" 2 2 (new_Sudoku true))).
    reflexivity.
  - apply (proj1 (proj2 (C8_load_checks_in_order (one_file "board.csv" ragged)
                           "board.csv" 1 2 (new_Sudoku true))
                        ragged eq_refl)).
    vm_compute. reflexivity.
  - apply (proj1 (proj2 (proj2 (C8_load_checks_in_order
                                  (one_file "board.csv" empty4)
                                  "board.csv" 3 2 (new_Sudoku true))
                               empty4 eq_refl))).
    + vm_compute. reflexivity.
    + vm_compute. discriminate.
  - apply (proj1 (proj2 (proj2 (proj2 (C8_load_checks_in_order
                                         (one_file "board.csv" with_letter)
                                         "board.csv" 1 2 (new_Sudoku true))
                                      with_letter eq_refl)))).
    + vm_compute. reflexivity.
    + vm_compute. reflexivity.
    + vm_compute. reflexivity.
  - apply (proj2 (proj2 (proj2 (proj2 (C8_load_checks_in_order
                                         (one_file "board.csv" first_row_given)
                                         "board.csv" 1 2 (new_Sudoku true))
                                      first_row_given eq_refl)))).
    + vm_compute. reflexivity.
    + vm_compute. reflexivity.
    + vm_compute. reflexivity.
Defined.

Lemma C6_witness :
  (exists csv_file g,
     one_file "board.csv" out_of_range "board.csv"%string = Some csv_file /\
     board (snd (load_lines out_of_range 1 2)) = Some g /\
     sudoku_N (snd (load_lines out_of_range 1 2)) = Some (length g) /\
     square (length g) g /\
     Forall2 (Forall2 (fun text num => Py.int text = Some num))
             (text_board_of csv_file) g) /\
  (exists bad,
     Py.int bad = None /\
     load_lines with_letter 1 2
     = (Ret (Some false), after_print (msg_not_numeric bad) (new_Sudoku false))).
Proof.
  split.
  - apply (proj1 (C6_cells_are_parsed_integers
                    (one_file "board.csv" out_of_range) "board.csv" 1 2
                    (new_Sudoku false))).
    vm_compute. reflexivity.
  - apply (proj2 (C6_cells_are_parsed_integers
                    (one_file "board.csv" with_letter) "board.csv" 1 2
                    (new_Sudoku false))
                 with_letter ["1"; "x"]%string "x"%string).
    + reflexivity.
    + vm_compute. reflexivity.
    + vm_compute. reflexivity.
    + vm_compute. left. reflexivity.
    + right. left. reflexivity.
    + vm_compute. reflexivity.
Defined.

(* ================================================================== *)
(** ** The built-ins on examples *)

Example int_accepts :
  Py.int "7" = Some 7%Z /\ Py.int " 12 " = Some 12%Z /\
  Py.int "-3" = Some (-3)%Z /\ Py.int "+4" = Some 4%Z /\
  Py.int "007" = Some 7%Z /\ Py.int "1_000" = Some 1000%Z.
Proof. vm_compute. repeat split; reflexivity. Qed.

Example int_rejects :
  Py.int EmptyString = None /\ Py.int "x" = None /\ Py.int "1.0" = None /\
  Py.int "- 1" = None /\ Py.int "1 2" = None /\ Py.int "_1" = None /\
  Py.int "1_" = None /\ Py.int "1__0" = None /\ Py.int "-" = None.
Proof. vm_compute. repeat split; reflexivity. Qed.

Example split_examples :
  Py.split Py.comma "1,2,3" = ["1"; "2"; "3"]%string /\
  Py.split Py.comma EmptyString = [EmptyString] /\
  Py.split Py.comma "1,,2" = ["1"; EmptyString; "2"]%string /\
  Py.split Py.comma "1,2," = ["1"; "2"; EmptyString]%string.
Proof. vm_compute. repeat split; reflexivity. Qed.

Example text_board_example :
  text_board_of first_row_given = [["1"; "2"]; ["0"; "0"]]%string /\
  text_board_of ["1,2"%string; line EmptyString] = [["1"; "2"]; [EmptyString]]%string.
Proof. vm_compute. split; reflexivity. Qed.

(* ================================================================== *)
(** * Further properties of the loader *)




Lemma loaded_instance_fields (g : grid) (r c : Z) (self : Sudoku) :
  verbosity (loaded_instance g r c self) = verbosity self /\
  printed (loaded_instance g r c self) = printed self /\
  board (loaded_instance g r c self) = Some g /\
  sudoku_N (loaded_instance g r c self) = Some (length g) /\
  subgrid_row_count (loaded_instance g r c self) = Some r /\
  subgrid_column_count (loaded_instance g r c self) = Some c /\
  subgrid_coordinates (loaded_instance g r c self) = Some (subgrids_of r c) /\
  protected_coordinates (loaded_instance g r c self) = givens g.
Proof. repeat split; reflexivity. Qed.

(** X2. A load that does not return [True] leaves every attribute of the
    instance as it was: after an earlier load that succeeded, the earlier
    board, side, counts, subgrids and protected list stay in place. *)
Theorem failed_load_keeps_attributes (fs : filesystem) (path : string)
    (r c : Z) (self after : Sudoku) (res : outcome (option bool)) :
  load_board_csv fs path r c self = (res, after) ->
  res <> Ret (Some true) ->
  verbosity after = verbosity self /\
  board after = board self /\
  sudoku_N after = sudoku_N self /\
  subgrid_row_count after = subgrid_row_count self /\
  subgrid_column_count after = subgrid_column_count self /\
  subgrid_coordinates after = subgrid_coordinates self /\
  protected_coordinates after = protected_coordinates self.
Proof.
  rewrite load_board_csv_cases. intros Hload Hres.
  destruct (fs path) as [csv|].
  - cbv zeta in Hload.
    destruct (is_square (text_board_of csv)); simpl in Hload.
    + destruct (r * c =? Z.of_nat (length (text_board_of csv)))%Z;
        simpl in Hload.
      * destruct (grid_of (text_board_of csv)) as [g|bad].
        -- inversion Hload; subst. contradiction.
        -- inversion Hload; subst. apply after_print_fields.
      * inversion Hload; subst. apply after_print_fields.
    + inversion Hload; subst. apply after_print_fields.
  - inversion Hload; subst. apply after_print_fields.
Qed.

Lemma failed_load_keeps_attributes_witness :
  board (snd (load_board_csv (one_file "board.csv" first_row_given)
                "missing.csv" 1 2 (snd (load_lines first_row_given 1 2))))
  = Some [[1; 2]; [0; 0]]%Z.
Proof.
  apply (@failed_load_keeps_attributes
           (one_file "board.csv" first_row_given) "missing.csv" 1 2
           (snd (load_lines first_row_given 1 2)) _ (Ret (Some false))).
  - vm_compute. reflexivity.
  - discriminate.
Defined.

(** X3. A load that succeeds replaces every attribute that an earlier load
    has set: loading a second file on a loaded instance gives the same
    instance as loading it on the instance before the first load. *)
Theorem load_after_load (fs1 fs2 : filesystem) (path1 path2 : string)
    (r1 c1 r2 c2 : Z) (self first second : Sudoku) :
  load_board_csv fs1 path1 r1 c1 self = (Ret (Some true), first) ->
  load_board_csv fs2 path2 r2 c2 first = (Ret (Some true), second) ->
  load_board_csv fs2 path2 r2 c2 self = (Ret (Some true), second).
Proof.
  intros H1 H2. apply load_success in H1.
  destruct H1 as [csv1 [g1 [_ [_ [_ [_ [_ ->]]]]]]].
  pose proof H2 as H2'. apply load_success in H2'.
  destruct H2' as [csv2 [g2 [Hfs [Hsq [Hg [Hrc [_ ->]]]]]]].
  rewrite load_board_csv_cases, Hfs. cbv zeta. rewrite Hsq. simpl.
  assert (Hlen : length g2 = length (text_board_of csv2)).
  { destruct (grid_of_square _ Hsq Hg). assumption. }
  rewrite <- Hlen. apply Z.eqb_eq in Hrc. rewrite Hrc. simpl. rewrite Hg.
  reflexivity.
Qed.

Lemma load_after_load_witness :
  load_board_csv (one_file "board.csv" empty4) "board.csv" 2 2
                 (new_Sudoku false)
  = (Ret (Some true),
     snd (load_board_csv (one_file "board.csv" empty4) "board.csv" 2 2
            (snd (load_lines first_row_given 1 2)))).
Proof.
  apply (@load_after_load (one_file "board.csv" first_row_given)
           (one_file "board.csv" empty4) "board.csv" "board.csv" 1 2 2 2
           (new_Sudoku false) (snd (load_lines first_row_given 1 2))).
  - vm_compute. reflexivity.
  - vm_compute. reflexivity.
Defined.

Lemma seq_from (a n : nat) : seq a n = map (fun j => a + j) (seq 0 n).
Proof.
  induction a as [|a IH].
  - symmetry. apply map_id.
  - rewrite <- seq_shift, IH, map_map. reflexivity.
Qed.

Lemma map_coord_of_block (n i : nat) :
  n <> 0 ->
  map (coord_of n) (seq (i * n) n) = map (fun j => (i, j)) (seq 0 n).
Proof.
  intros Hn. rewrite seq_from, map_map. apply map_ext_in.
  intros j Hj. apply in_seq in Hj. unfold coord_of. f_equal.
  - rewrite Nat.div_add_l by assumption. rewrite Nat.div_small by lia. lia.
  - rewrite Nat.add_comm, Nat.Div0.mod_add. apply Nat.mod_small. lia.
Qed.

Lemma nested_by_index (n k : nat) :
  nested (seq 0 k) (seq 0 n) = map (coord_of n) (seq 0 (k * n)).
Proof.
  destruct (Nat.eq_dec n 0) as [->|Hn].
  - rewrite Nat.mul_0_r. unfold nested. simpl.
    induction (seq 0 k) as [|i l IH]; [reflexivity | exact IH].
  - induction k as [|k IH]; [reflexivity|].
    rewrite seq_S. unfold nested in *. rewrite flat_map_app, IH.
    replace (S k * n) with (k * n + n) by lia.
    rewrite seq_app, map_app. cbn [flat_map Nat.add]. rewrite app_nil_r.
    rewrite map_coord_of_block by assumption. reflexivity.
Qed.

Lemma all_coords_by_index (n : nat) :
  all_coords n = map (coord_of n) (seq 0 (n ^ 2)).
Proof.
  unfold all_coords, Py.range. rewrite nested_by_index. do 2 f_equal.
  simpl. lia.
Qed.

Lemma filter_map_swap {A B} (f : A -> B) (keep : B -> bool) (l : list A) :
  filter keep (map f l) = map f (filter (fun a => keep (f a)) l).
Proof.
  induction l as [|a l IH]; simpl; [reflexivity|].
  destruct (keep (f a)); simpl; rewrite IH; reflexivity.
Qed.

(** X4. After a load that succeeds the protected list holds the coordinates
    of the cells that are not 0, and nothing else, each once and in the
    order of their indices [row * N + col]. *)
Theorem protected_are_nonzero_cells (fs : filesystem) (path : string)
    (r c : Z) (self loaded : Sudoku) :
  load_board_csv fs path r c self = (Ret (Some true), loaded) ->
  exists g n,
    board loaded = Some g /\ sudoku_N loaded = Some n /\
    protected_coordinates loaded
    = map (coord_of n)
          (filter (fun j => negb (value_at g (coord_of n j) =? 0)%Z)
                  (seq 0 (n ^ 2))) /\
    (forall p, In p (protected_coordinates loaded) <->
               in_bounds n p /\ value_at g p <> 0%Z) /\
    NoDup (protected_coordinates loaded).
Proof.
  intros Hload. apply load_success in Hload.
  destruct Hload as [csv [g [_ [_ [_ [_ [_ ->]]]]]]].
  exists g, (length g). split; [reflexivity|]. split; [reflexivity|].
  cbn [loaded_instance with_subgrids with_board with_protected
       protected_coordinates].
  split; [|split].
  - unfold givens. rewrite all_coords_by_index.
    apply (filter_map_swap (coord_of (length g))
             (fun p => negb (value_at g p =? 0)%Z)).
  - intros p. apply in_givens.
  - unfold givens. apply NoDup_filter. apply NoDup_all_coords.
Qed.

Lemma protected_are_nonzero_cells_witness :
  exists g n,
    board (snd (load_lines clashing4 2 2)) = Some g /\
    sudoku_N (snd (load_lines clashing4 2 2)) = Some n /\
    protected_coordinates (snd (load_lines clashing4 2 2))
    = map (coord_of n)
          (filter (fun j => negb (value_at g (coord_of n j) =? 0)%Z)
                  (seq 0 (n ^ 2))) /\
    (forall p, In p (protected_coordinates (snd (load_lines clashing4 2 2))) <->
               in_bounds n p /\ value_at g p <> 0%Z) /\
    NoDup (protected_coordinates (snd (load_lines clashing4 2 2))).
Proof.
  apply (@protected_are_nonzero_cells (one_file "board.csv" clashing4)
           "board.csv" 2 2 (new_Sudoku false)).
  vm_compute. reflexivity.
Defined.

(** X5. An instance created without verbosity never prints: a load and a
    [backtrack] leave standard output, and the verbosity, as they were. *)
Theorem quiet_instance_prints_nothing (fs : filesystem) (path : string)
    (r c : Z) (self : Sudoku) :
  verbosity self = false ->
  printed (snd (load_board_csv fs path r c self)) = printed self /\
  verbosity (snd (load_board_csv fs path r c self)) = false /\
  printed (snd (backtrack self)) = printed self /\
  verbosity (snd (backtrack self)) = false.
Proof.
  intros Hq.
  assert (Hprint : forall msg s, verbosity s = false -> after_print msg s = s).
  { intros msg s E. unfold after_print, condition_print. simpl. rewrite E.
    reflexivity. }
  split; [|split; [|split]].
  - rewrite load_board_csv_cases. destruct (fs path) as [csv|].
    + cbv zeta. destruct (is_square _); simpl.
      * destruct (_ =? _)%Z; simpl.
        -- destruct (grid_of _); simpl; [reflexivity|].
           rewrite Hprint; auto.
        -- rewrite Hprint; auto.
      * rewrite Hprint; auto.
    + simpl. rewrite Hprint; auto.
  - rewrite load_board_csv_cases. destruct (fs path) as [csv|].
    + cbv zeta. destruct (is_square _); simpl.
      * destruct (_ =? _)%Z; simpl.
        -- destruct (grid_of _); simpl; [assumption|].
           rewrite Hprint; auto.
        -- rewrite Hprint; auto.
      * rewrite Hprint; auto.
    + simpl. rewrite Hprint; auto.
  - unfold backtrack.
    destruct (board self) as [g|]; [|reflexivity].
    destruct (sudoku_N self) as [n|]; [|reflexivity].
    destruct (subgrid_coordinates self) as [subs|]; [|reflexivity].
    destruct (process_board _ _ _ _ _ _) as [[[|]| |] g']; simpl;
      try reflexivity.
    + unfold bind, ret, condition_print. simpl. rewrite Hq. reflexivity.
    + unfold bind, ret, condition_print. simpl. rewrite Hq. reflexivity.
  - unfold backtrack.
    destruct (board self) as [g|]; [|assumption].
    destruct (sudoku_N self) as [n|]; [|assumption].
    destruct (subgrid_coordinates self) as [subs|]; [|assumption].
    destruct (process_board _ _ _ _ _ _) as [[[|]| |] g']; simpl;
      try assumption.
    + unfold bind, ret, condition_print. simpl. rewrite Hq. assumption.
    + unfold bind, ret, condition_print. simpl. rewrite Hq. assumption.
Qed.

Lemma quiet_instance_prints_nothing_witness :
  printed (snd (load_board_csv (one_file "board.csv" with_letter)
                  "board.csv" 1 2 (new_Sudoku false))) = [] /\
  verbosity (snd (load_board_csv (one_file "board.csv" with_letter)
                    "board.csv" 1 2 (new_Sudoku false))) = false /\
  printed (snd (backtrack (new_Sudoku false))) = [] /\
  verbosity (snd (backtrack (new_Sudoku false))) = false.
Proof.
  apply (@quiet_instance_prints_nothing (one_file "board.csv" with_letter)
           "board.csv" 1 2 (new_Sudoku false)).
  reflexivity.
Defined.

(* ================================================================== *)
(** * Further properties of the solver's helpers *)

(** X6. [__get_coord_from_index] raises ZeroDivisionError on a board of side
    0 and nothing otherwise; the coordinate it returns gives the index
    back as [row * N + col], its column is on the board, and its row is
    on the board exactly when the index is below N ** 2; and the index
    [row * N + col] of a coordinate whose column is on the board gives the
    coordinate back. *)
Theorem get_coord_from_index_round_trip (N i : nat) :
  (N = 0 -> get_coord_from_index N i = Raise ZeroDivisionError) /\
  (N <> 0 ->
   exists row col,
     get_coord_from_index N i = Ret (row, col) /\
     row * N + col = i /\ col < N /\ (row < N <-> i < N ^ 2)) /\
  (forall row col,
     col < N -> get_coord_from_index N (row * N + col) = Ret (row, col)).
Proof.
  split; [|split].
  - intros ->. reflexivity.
  - intros Hn. exists (i / N), (i mod N).
    split; [apply get_coord_from_index_coord_of; assumption|].
    pose proof (Nat.div_mod_eq i N) as Hdm.
    pose proof (Nat.mod_upper_bound i N Hn) as Hmod.
    split; [lia|]. split; [assumption|]. simpl. split; intros H; nia.
  - intros row col Hcol. assert (Hn : N <> 0) by lia.
    rewrite get_coord_from_index_coord_of by assumption.
    change (row * N + col) with (index_of N (row, col)).
    f_equal. unfold coord_of, index_of. simpl. f_equal.
    + rewrite Nat.div_add_l by assumption. rewrite Nat.div_small by assumption.
      lia.
    + rewrite Nat.add_comm, Nat.Div0.mod_add. apply Nat.mod_small. assumption.
Qed.

Lemma in_tile_block (R C : nat) (sub : list coord) (p : coord) :
  In sub (tiles R C) -> In p sub ->
  forall q, In q sub <->
            fst q / R = fst p / R /\ snd q / C = snd p / C.
Proof.
  intros Hsub Hp. apply in_tiles in Hsub.
  destruct Hsub as [i [j [Hi [Hj ->]]]].
  assert (HR : R <> 0) by lia. assert (HC : C <> 0) by lia.
  assert (Hblock : forall x,
            In x (map (fun s : coord => (i * R + fst s, j * C + snd s))
                      (nested (seq 0 R) (seq 0 C))) <->
            fst x / R = i /\ snd x / C = j).
  { intros x. rewrite in_map_iff. split.
    - intros [s [<- Hs]]. apply in_nested in Hs. rewrite !in_seq in Hs.
      simpl. split.
      + rewrite Nat.div_add_l by assumption. rewrite Nat.div_small by lia. lia.
      + rewrite Nat.div_add_l by assumption. rewrite Nat.div_small by lia. lia.
    - intros [Hx Hy]. exists (fst x mod R, snd x mod C). split.
      + destruct x as [x y]. simpl in *. f_equal.
        * pose proof (Nat.div_mod_eq x R). nia.
        * pose proof (Nat.div_mod_eq y C). nia.
      + apply in_nested. simpl. rewrite !in_seq.
        pose proof (Nat.mod_upper_bound (fst x) R HR).
        pose proof (Nat.mod_upper_bound (snd x) C HC). lia. }
  apply Hblock in Hp. destruct Hp as [<- <-]. exact Hblock.
Qed.

(** X7. The subgrids that the loader derives from two positive counts are
    blocks of [subgrid_row_count] rows and [subgrid_column_count] columns:
    [__get_subgrid_from_coord] finds, for a coordinate of the board, the
    subgrid made of the coordinates in the same band of rows and the same
    band of columns; for a coordinate off the board it finds none (and
    the method returns [None]). *)
Theorem subgrids_are_blocks (r c : Z) (p : coord) :
  (0 < r)%Z -> (0 < c)%Z ->
  (in_bounds (Z.to_nat r * Z.to_nat c) p ->
   exists sub,
     get_subgrid_from_coord (subgrids_of r c) p = Some sub /\
     forall q, In q sub <->
               fst q / Z.to_nat r = fst p / Z.to_nat r /\
               snd q / Z.to_nat c = snd p / Z.to_nat c) /\
  (~ in_bounds (Z.to_nat r * Z.to_nat c) p ->
   get_subgrid_from_coord (subgrids_of r c) p = None).
Proof.
  intros Hr Hc. rewrite subgrids_of_tiles.
  pose proof (tiles_tiling (Z.to_nat r) (Z.to_nat c)) as Ht.
  destruct (get_subgrid_from_coord (tiles (Z.to_nat r) (Z.to_nat c)) p)
    as [sub|] eqn:Hfind.
  - apply get_subgrid_from_coord_Some in Hfind. destruct Hfind as [Hsub Hp].
    split.
    + intros _. exists sub. split; [reflexivity|].
      apply in_tile_block; assumption.
    + intros Hout. exfalso. apply Hout.
      exact (tiling_member Ht _ _ Hsub Hp).
  - split; [|reflexivity]. intros Hin. exfalso.
    destruct (tiling_covers Ht Hin) as [sub [Hsub Hp]].
    exact (get_subgrid_from_coord_None _ _ Hfind _ Hsub Hp).
Qed.

Lemma subgrids_are_blocks_witness :
  (in_bounds (Z.to_nat 2 * Z.to_nat 3) (3, 4) ->
   exists sub,
     get_subgrid_from_coord (subgrids_of 2 3) (3, 4) = Some sub /\
     forall q, In q sub <->
               fst q / Z.to_nat 2 = fst (3, 4) / Z.to_nat 2 /\
               snd q / Z.to_nat 3 = snd (3, 4) / Z.to_nat 3) /\
  (~ in_bounds (Z.to_nat 2 * Z.to_nat 3) (3, 4) ->
   get_subgrid_from_coord (subgrids_of 2 3) (3, 4) = None).
Proof.
  apply (@subgrids_are_blocks 2 3 (3, 4)); lia.
Defined.

Lemma rows_columns_free_existsb (N : nat) (g : grid) (num : Z) (c : coord)
    (indices : list nat) :
  square N g -> in_bounds N c -> Forall (fun i => i < N) indices ->
  rows_columns_free g num c indices =
  Ret (negb (existsb (fun i => (num =? value_at g (fst c, i))%Z
                               || (num =? value_at g (i, snd c))%Z) indices)).
Proof.
  intros Hg [Hx Hy]. induction 1 as [|i indices Hi _ IH]; [reflexivity|].
  cbn [rows_columns_free existsb].
  rewrite (@cell_value N g (fst c, i)) by (assumption || split; assumption).
  simpl. destruct (num =? value_at g (fst c, i))%Z; [reflexivity|].
  rewrite (@cell_value N g (i, snd c)) by (assumption || split; assumption).
  simpl. destruct (num =? value_at g (i, snd c))%Z; [reflexivity|].
  exact IH.
Qed.

Lemma validate_false (N : nat) (subgrids : list (list coord)) (g : grid)
    (num : Z) (c : coord) :
  on_board N subgrids -> square N g -> in_bounds N c ->
  validate_num_at_coord N subgrids num c g = Ret false ->
  exists q, in_bounds N q /\ peers subgrids c q /\ value_at g q = num.
Proof.
  intros Ht Hg Hc. unfold validate_num_at_coord.
  rewrite (@rows_columns_free_existsb N g num c (Py.range N) Hg Hc).
  2:{ apply Forall_forall. intros i Hi. apply in_seq in Hi. lia. }
  simpl. rewrite negb_involutive.
  destruct (existsb _ (Py.range N)) eqn:Hline.
  - intros _. apply existsb_exists in Hline. destruct Hline as [i [Hi Hnum]].
    apply in_seq in Hi. apply orb_true_iff in Hnum.
    destruct Hc as [Hx Hy].
    destruct Hnum as [E|E]; apply Z.eqb_eq in E.
    + exists (fst c, i). split; [split; simpl; lia|].
      split; [left; reflexivity | congruence].
    + exists (i, snd c). split; [split; simpl; lia|].
      split; [right; left; reflexivity | congruence].
  - destruct (get_subgrid_from_coord subgrids c) as [sub|] eqn:Hsub;
      [|discriminate].
    apply get_subgrid_from_coord_Some in Hsub. destruct Hsub as [Hs Hcs].
    rewrite (@cells_values N); [|assumption|].
    2:{ apply Forall_forall. intros q Hq. exact (Ht _ _ Hs Hq). }
    simpl. destruct (existsb (Z.eqb num) (map (value_at g) sub)) eqn:Hex;
      [|discriminate].
    intros _. apply existsb_exists in Hex. destruct Hex as [x [Hx E]].
    apply Z.eqb_eq in E. apply in_map_iff in Hx. destruct Hx as [q [Hq Hin]].
    exists q. split; [exact (Ht _ _ Hs Hin)|].
    split; [|congruence]. right. right. exists sub. auto.
Qed.

(** X8. On a square board whose subgrids tile it, [__validate_num_at_coord]
    returns for every coordinate of the board, and it returns [True]
    exactly when no cell of the coordinate's row, column or subgrid holds
    the number, the cell at the coordinate included.  So the check of the
    number that the cell itself holds is always [False]. *)
Theorem validate_num_at_coord_iff (N : nat) (subgrids : list (list coord))
    (g : grid) (num : Z) (c : coord) :
  tiling N subgrids -> square N g -> in_bounds N c ->
  (exists b,
     validate_num_at_coord N subgrids num c g = Ret b /\
     (b = true <->
      forall q, in_bounds N q -> peers subgrids c q -> value_at g q <> num) /\
     (b = false <->
      exists q, in_bounds N q /\ peers subgrids c q /\ value_at g q = num)) /\
  validate_num_at_coord N subgrids (value_at g c) c g = Ret false.
Proof.
  intros Ht Hg Hc.
  assert (Hall : forall num',
            exists b,
              validate_num_at_coord N subgrids num' c g = Ret b /\
              (b = true <->
               forall q, in_bounds N q -> peers subgrids c q ->
                         value_at g q <> num') /\
              (b = false <->
               exists q, in_bounds N q /\ peers subgrids c q /\
                         value_at g q = num')).
  { intros num'.
    destruct (@validate_total N subgrids Ht g num' c Hg Hc) as [b [Hb Hfree]].
    exists b. split; [assumption|].
    assert (Hfalse : b = false ->
              exists q, in_bounds N q /\ peers subgrids c q /\
                        value_at g q = num').
    { intros ->.
      exact (@validate_false N subgrids g num' c (tiling_member Ht) Hg Hc Hb). }
    split; split.
    - assumption.
    - intros Hno. destruct b; [reflexivity|].
      destruct (Hfalse eq_refl) as [q [Hq [Hp E]]].
      exfalso. exact (Hno q Hq Hp E).
    - assumption.
    - intros [q [Hq [Hp E]]]. destruct b; [|reflexivity].
      exfalso. exact (Hfree eq_refl q Hq Hp E). }
  split; [apply Hall|].
  destruct (Hall (value_at g c)) as [b [Hb [_ Hex]]].
  rewrite Hb. f_equal. apply Hex. exists c.
  split; [assumption|]. split; [left; reflexivity | reflexivity].
Qed.

Lemma validate_num_at_coord_iff_witness :
  (exists b,
     validate_num_at_coord 4 (tiles 2 2) 3
       (1, 1) [[0; 0; 0; 0]; [0; 0; 0; 0]; [3; 0; 0; 0]; [0; 0; 0; 0]]%Z
     = Ret b /\
     (b = true <->
      forall q, in_bounds 4 q -> peers (tiles 2 2) (1, 1) q ->
        value_at [[0; 0; 0; 0]; [0; 0; 0; 0]; [3; 0; 0; 0]; [0; 0; 0; 0]]%Z q
        <> 3%Z) /\
     (b = false <->
      exists q, in_bounds 4 q /\ peers (tiles 2 2) (1, 1) q /\
        value_at [[0; 0; 0; 0]; [0; 0; 0; 0]; [3; 0; 0; 0]; [0; 0; 0; 0]]%Z q
        = 3%Z)) /\
  validate_num_at_coord 4 (tiles 2 2)
    (value_at [[0; 0; 0; 0]; [0; 0; 0; 0]; [3; 0; 0; 0]; [0; 0; 0; 0]]%Z (1, 1))
    (1, 1) [[0; 0; 0; 0]; [0; 0; 0; 0]; [3; 0; 0; 0]; [0; 0; 0; 0]]%Z
  = Ret false.
Proof.
  apply (@validate_num_at_coord_iff 4 (tiles 2 2)
           [[0; 0; 0; 0]; [0; 0; 0; 0]; [3; 0; 0; 0]; [0; 0; 0; 0]]%Z 3 (1, 1)).
  - exact (tiles_tiling 2 2).
  - split; [reflexivity | repeat constructor].
  - split; simpl; lia.
Defined.

(* ================================================================== *)
(** * What a failed search shows *)

Section Complete.

Variable N : nat.
Variable subgrids : list (list coord).
Variable protected : list coord.

Hypothesis Hboard : on_board N subgrids.

Lemma visits_dec (i j : nat) :
  visits N protected i j \/ ~ visits N protected i j.
Proof.
  destruct (in_dec Nat.eq_dec j (visited N protected (N ^ 2) i)) as [H|H].
  - left. exact (visited_visits _ _ _ _ _ H).
  - right. intros Hv. apply H. apply visits_visited; [lia | assumption].
Qed.

(** A completion of the board for the search at [i], with the cell of
    [i] set to the completion's value, is a completion for the search at
    the next index. *)
Lemma completes_step (i : nat) (g s : grid) :
  square N g -> i < N ^ 2 ->
  completes N subgrids protected i g s ->
  completes N subgrids protected (step N protected i)
    (put g (coord_of N i) (value_at s (coord_of N i))) s.
Proof.
  intros Hg Hi [Hsame Hnew].
  pose proof (coord_of_in_bounds N Hi) as Hc. split.
  - intros j Hj Hnv. destruct (Nat.eq_dec j i) as [->|Hne].
    + rewrite (value_at_put_eq _ Hg Hc). reflexivity.
    + rewrite (value_at_put_ne _ Hg Hc).
      2:{ intros E. apply coord_of_inj in E. contradiction. }
      apply Hsame; [assumption|]. intros Hv.
      apply visits_inv in Hv. destruct Hv as [_ [E|Hv]]; contradiction.
  - intros j Hv. apply Hnew. apply visits_later; assumption.
Qed.

(** A candidate that the check refuses is the value of no completion
    at the cell: the peer that holds it is a cell that the search does
    not visit, so the completion holds it there too. *)
Lemma rejected_candidate (i : nat) (g s : grid) (x : Z) (d : nat) :
  square N g -> i < N ^ 2 ->
  (forall k, visits N protected i k -> value_at g (coord_of N k) = 0%Z) ->
  x <> Z.of_nat d -> 1 <= d ->
  validate_num_at_coord N subgrids (Z.of_nat d) (coord_of N i)
    (put g (coord_of N i) x) = Ret false ->
  completes N subgrids protected i g s ->
  value_at s (coord_of N i) <> Z.of_nat d.
Proof.
  intros Hg Hi Hempty Hx Hd Hv [Hsame Hnew] E.
  pose proof (coord_of_in_bounds N Hi) as Hc.
  destruct (@validate_false _ _ _ _ _ Hboard (square_put x Hg Hc) Hc Hv)
    as [q [Hq [Hpeer Hval]]].
  destruct (coord_eq_dec q (coord_of N i)) as [->|Hne].
  - rewrite (value_at_put_eq _ Hg Hc) in Hval. contradiction.
  - rewrite (value_at_put_ne _ Hg Hc Hne) in Hval.
    destruct (Hnew i (@visits_here N protected i Hi)) as [_ Hdiff].
    apply (Hdiff q Hq Hne Hpeer). rewrite E, <- Hval.
    rewrite <- (coord_of_index_of Hq).
    destruct (visits_dec i (index_of N q)) as [Hvq|Hvq].
    { exfalso. apply Hempty in Hvq.
      rewrite (coord_of_index_of Hq) in Hvq. lia. }
    apply Hsame; [apply index_of_bound; assumption | assumption].
Qed.

(** The candidate loop of an activation whose visited cells were empty
    when it was entered: when it ends without success, no completion
    holds, at the cell of the activation, one of the candidates tried. *)
Lemma try_candidates_complete (fuel i : nat) (g : grid) :
  (forall j g0 g',
      square N g0 ->
      (forall k, visits N protected j k -> value_at g0 (coord_of N k) = 0%Z) ->
      process_board N subgrids protected fuel j g0 = (Ret false, g') ->
      forall s, ~ completes N subgrids protected j g0 s) ->
  square N g -> i < N ^ 2 ->
  (forall k, visits N protected i k -> value_at g (coord_of N k) = 0%Z) ->
  forall ds x g1,
    NoDup ds -> Forall (fun d => 1 <= d) ds ->
    ~ In x (map Z.of_nat ds) ->
    try_candidates N subgrids protected
      (process_board N subgrids protected fuel) i (coord_of N i) ds
      (put g (coord_of N i) x) = (Ret false, g1) ->
    forall s, completes N subgrids protected i g s ->
              ~ In (value_at s (coord_of N i)) (map Z.of_nat ds).
Proof.
  intros IH Hg Hi Hempty.
  assert (Hn : N <> 0) by (intros E; rewrite E in Hi; simpl in Hi; lia).
  pose proof (coord_of_in_bounds N Hi) as Hc.
  induction ds as [|d ds IHds]; intros x g1 Hnd Hpos Hx Hrun s Hs;
    [intros []|].
  inversion Hnd as [|d' ds' Hd Hnd']; subst.
  inversion Hpos as [|d' ds' Hd1 Hpos']; subst.
  rewrite try_candidates_cons in Hrun;
    [|assumption | apply square_put; assumption | assumption].
  assert (Hrest : forall x' g',
            ~ In x' (map Z.of_nat ds) ->
            try_candidates N subgrids protected
              (process_board N subgrids protected fuel) i (coord_of N i) ds
              (put g (coord_of N i) x') = (Ret false, g') ->
            ~ In (value_at s (coord_of N i)) (map Z.of_nat ds)).
  { intros x' g' Hx' Hrun'. exact (IHds x' g' Hnd' Hpos' Hx' Hrun' s Hs). }
  destruct (validate_num_at_coord N subgrids (Z.of_nat d) (coord_of N i)
              (put g (coord_of N i) x)) as [[|]|e|] eqn:Hv;
    try discriminate.
  - rewrite (put_twice _ _ Hg Hc) in Hrun.
    destruct (process_board N subgrids protected fuel (step N protected i)
                (put g (coord_of N i) (Z.of_nat d))) as [[[|]|e|] g2] eqn:Hrec;
      try discriminate.
    assert (Hempty' : forall k, visits N protected (step N protected i) k ->
              value_at (put g (coord_of N i) (Z.of_nat d)) (coord_of N k) = 0%Z).
    { intros k Hk. rewrite (value_at_put_ne _ Hg Hc);
        [|exact (visits_cell_ne Hk)].
      apply Hempty. apply visits_later; assumption. }
    pose proof (square_put (Z.of_nat d) Hg Hc) as Hg2.
    pose proof (process_board_undo _ _ Hg2 Hempty' Hrec) as E. subst g2.
    intros [E|Hin].
    + apply (IH _ _ _ Hg2 Hempty' Hrec s). rewrite E.
      apply completes_step; assumption.
    + refine (Hrest (Z.of_nat d) g1 _ Hrun Hin).
      intros Hd'. apply in_map_iff in Hd'. destruct Hd' as [d' [E Hd']].
      apply Nat2Z.inj in E. subst d'. contradiction.
  - intros [E|Hin].
    + apply (@rejected_candidate i g s x d); try assumption; [|auto].
      intros Hxd. apply Hx. left. auto.
    + refine (Hrest x g1 _ Hrun Hin). intros Hx'. apply Hx. right. assumption.
Qed.

(** A search whose visited cells are empty when it is entered, and which
    fails, shows that the board has no completion. *)
Lemma process_board_complete (fuel i : nat) (g g' : grid) :
  square N g ->
  (forall k, visits N protected i k -> value_at g (coord_of N k) = 0%Z) ->
  process_board N subgrids protected fuel i g = (Ret false, g') ->
  forall s, ~ completes N subgrids protected i g s.
Proof.
  revert i g g'. induction fuel as [|fuel IH]; intros i g g' Hg Hempty Hrun.
  - discriminate.
  - destruct (Nat.le_gt_cases (N ^ 2) i) as [Hi|Hi].
    + rewrite process_board_end in Hrun by assumption. discriminate.
    + rewrite process_board_unfold in Hrun by assumption.
      destruct (try_candidates N subgrids protected
                  (process_board N subgrids protected fuel) i
                  (coord_of N i) (seq 1 N) g) as [[[|]|e|] g1] eqn:Hloop;
        try discriminate.
      intros s Hs.
      rewrite <- (put_same g (coord_of N i)) in Hloop.
      rewrite (Hempty i (@visits_here N protected i Hi)) in Hloop.
      assert (Hzero : ~ In 0%Z (map Z.of_nat (seq 1 N))).
      { intros H. apply in_map_iff in H. destruct H as [d [E Hd]].
        apply in_seq in Hd. lia. }
      assert (Hpos : Forall (fun d => 1 <= d) (seq 1 N)).
      { apply Forall_forall. intros d Hd. apply in_seq in Hd. lia. }
      apply (@try_candidates_complete fuel i g IH Hg Hi Hempty (seq 1 N) 0%Z g1
               (seq_NoDup N 1) Hpos Hzero Hloop s Hs).
      destruct Hs as [_ Hnew].
      destruct (Hnew i (@visits_here N protected i Hi)) as [Hrange _].
      apply in_map_iff. exists (Z.to_nat (value_at s (coord_of N i))).
      split; [lia | apply in_seq; lia].
Qed.





End Complete.

(* ================================================================== *)
(** * Solved boards, cell by cell *)

Lemma NoDup_one_to (n : nat) : NoDup (one_to n).
Proof.
  unfold one_to. apply Finite.Injective_map_NoDup; [|apply seq_NoDup].
  intros a b E. apply Nat2Z.inj. assumption.
Qed.

Lemma NoDup_map_same {A B} (f : A -> B) (l : list A) (x y : A) :
  NoDup (map f l) -> In x l -> In y l -> f x = f y -> x = y.
Proof.
  induction l as [|a l IH]; simpl; [intros _ []|].
  intros Hnd Hx Hy E. inversion Hnd as [|b l' Hnot Hnd']; subst.
  destruct Hx as [->|Hx], Hy as [->|Hy]; auto.
  - exfalso. apply Hnot. rewrite E. apply in_map. assumption.
  - exfalso. apply Hnot. rewrite <- E. apply in_map. assumption.
Qed.

Section SolvedCells.

Variable n : nat.
Variable subgrids : list (list coord).
Variable s : grid.
Hypothesis Hsolved : solved n subgrids s.

(** Every cell of a solved board holds a value of 1..n. *)
Lemma solved_filled : filled n s.
Proof.
  intros [i j] [Hi Hj]. simpl in Hi, Hj. destruct Hsolved as [Hrows _].
  specialize (Hrows i Hi). apply in_one_to.
  apply (Permutation_in _ Hrows). unfold row_values, value_at. simpl.
  apply nth_In. change (nth i s []) with (row_values s i).
  rewrite (Permutation_length Hrows), length_one_to. assumption.
Qed.

(** Two different cells of a solved board that share a row, a column or
    a subgrid hold different values. *)
Lemma solved_peers_differ (p q : coord) :
  in_bounds n p -> in_bounds n q -> p <> q -> peers subgrids p q ->
  value_at s p <> value_at s q.
Proof.
  intros [Hp1 Hp2] [Hq1 Hq2] Hne Hpeer E.
  destruct Hsolved as [Hrows [Hcols Hsubs]].
  destruct p as [pi pj], q as [qi qj]. simpl in *.
  destruct Hpeer as [Hrow | [Hcol | [sub [Hsub [Hp Hq]]]]].
  - simpl in Hrow. subst qi. specialize (Hrows pi Hp1).
    assert (Hnd : NoDup (row_values s pi)).
    { apply (Permutation_NoDup (Permutation_sym Hrows)), NoDup_one_to. }
    assert (Hlen : length (row_values s pi) = n).
    { rewrite (Permutation_length Hrows). apply length_one_to. }
    rewrite NoDup_nth in Hnd. apply Hne. f_equal.
    apply (Hnd pj qj); [lia | lia | exact E].
  - simpl in Hcol. subst qj. specialize (Hcols pj Hp2).
    assert (Hnd : NoDup (column_values n s pj)).
    { apply (Permutation_NoDup (Permutation_sym Hcols)), NoDup_one_to. }
    apply Hne. f_equal.
    apply (NoDup_map_same (fun i => value_at s (i, pj)) (seq 0 n));
      [exact Hnd | apply in_seq; lia | apply in_seq; lia | exact E].
  - specialize (Hsubs sub Hsub).
    assert (Hnd : NoDup (subgrid_values s sub)).
    { apply (Permutation_NoDup (Permutation_sym Hsubs)), NoDup_one_to. }
    apply Hne.
    exact (NoDup_map_same (value_at s) sub _ _ Hnd Hp Hq E).
Qed.

End SolvedCells.

(** On a board whose givens the search does not visit, a solved board
    that keeps the givens is a completion for the search from index 0. *)
Lemma solved_completes (subgrids : list (list coord)) (g s : grid) :
  givens_unvisited (length g) (givens g) = true ->
  keeps_givens (length g) g s -> solved (length g) subgrids s ->
  completes (length g) subgrids (givens g) 0 g s.
Proof.
  intros Hunv Hkeeps Hsolved. split.
  - intros j Hj Hnv.
    destruct (coord_in (coord_of (length g) j) (givens g)) eqn:Hin.
    + apply coord_in_In in Hin. apply in_givens in Hin.
      destruct Hin as [Hb Hnz]. apply Hkeeps; assumption.
    + exfalso. apply Hnv. apply unprotected_visited; [lia | assumption..].
  - intros j Hv. pose proof (visits_bounds Hv) as [_ Hj].
    pose proof (coord_of_in_bounds (length g) Hj) as Hc. split.
    + apply (solved_filled Hsolved). assumption.
    + intros q Hq Hne Hpeer E.
      apply (solved_peers_differ Hsolved Hc Hq); auto.
Qed.

Lemma loaded_on_board (r c : Z) (n : nat) :
  (r * c = Z.of_nat n)%Z -> on_board n (subgrids_of r c).
Proof.
  intros Hrc. destruct (loaded_subgrids r c n Hrc) as [Ht | [-> _]].
  - exact (tiling_member Ht).
  - intros sub q [].
Qed.

(** X9. When the search visits no given, a [False] from [backtrack] is
    right: the board is left as loaded, and no solved board keeps its
    givens. *)
Theorem failure_means_no_solution (fs : filesystem) (path : string)
    (r c : Z) (self loaded after : Sudoku) (g : grid) (n : nat)
    (subgrids : list (list coord)) :
  load_board_csv fs path r c self = (Ret (Some true), loaded) ->
  board loaded = Some g -> sudoku_N loaded = Some n ->
  subgrid_coordinates loaded = Some subgrids ->
  givens_unvisited n (protected_coordinates loaded) = true ->
  backtrack loaded = (Ret false, after) ->
  board after = Some g /\
  forall s, keeps_givens n g s -> ~ solved n subgrids s.
Proof.
  intros Hload Hboard HN Hsubs Hunv Hrun. apply load_success in Hload.
  destruct Hload as [csv [g0 [_ [_ [_ [Hrc [Hg ->]]]]]]].
  cbn [loaded_instance with_subgrids with_board with_protected
       board sudoku_N subgrid_coordinates protected_coordinates]
    in Hboard, HN, Hsubs, Hunv.
  inversion Hboard; subst g0. inversion HN; subst n.
  inversion Hsubs; subst subgrids. rewrite backtrack_loaded in Hrun.
  destruct (process_board (length g) (subgrids_of r c) (givens g)
              (S (length g ^ 2)) 0 g) as [[[|]| |] g'] eqn:Hsearch;
    try discriminate.
  inversion Hrun; subst after. split.
  - destruct (after_print_fields "Board has no solutions."
                (set_board g' (loaded_instance g r c self))) as [_ [-> _]].
    cbn [set_board board]. f_equal.
    apply (process_board_undo _ _ Hg (@visited_cells_empty g Hunv) Hsearch).
  - intros s Hkeeps Hsolved.
    apply (@process_board_complete (length g) (subgrids_of r c) (givens g)
             (@loaded_on_board r c _ Hrc) _ 0 g g' Hg
             (@visited_cells_empty g Hunv) Hsearch s).
    apply solved_completes; assumption.
Qed.

Lemma failure_means_no_solution_witness :
  board (snd (backtrack (snd (load_lines
           [line "0,1,0,1"; line "0,0,0,0"; line "0,0,0,0"; line "0,0,0,0"]%string
           2 2))))
  = Some [[0; 1; 0; 1]; [0; 0; 0; 0]; [0; 0; 0; 0]; [0; 0; 0; 0]]%Z /\
  forall s,
    keeps_givens 4
      [[0; 1; 0; 1]; [0; 0; 0; 0]; [0; 0; 0; 0]; [0; 0; 0; 0]]%Z s ->
    ~ solved 4 (tiles 2 2) s.
Proof.
  apply (@failure_means_no_solution
           (one_file "board.csv"
              [line "0,1,0,1"; line "0,0,0,0"; line "0,0,0,0"; line "0,0,0,0"]%string)
           "board.csv" 2 2 (new_Sudoku false)
           (snd (load_lines
              [line "0,1,0,1"; line "0,0,0,0"; line "0,0,0,0"; line "0,0,0,0"]%string
              2 2))).
  - vm_compute. reflexivity.
  - vm_compute. reflexivity.
  - vm_compute. reflexivity.
  - vm_compute. reflexivity.
  - vm_compute. reflexivity.
  - vm_compute. reflexivity.
Defined.

(* ================================================================== *)
(** * Which solution a successful search leaves *)


(** The cells a loaded board's givens occupy are kept by a search that
    visits none of them. *)
Lemma search_keeps_givens (subgrids : list (list coord)) (g g' : grid)
    (fuel : nat) (res : outcome bool) :
  square (length g) g ->
  givens_unvisited (length g) (givens g) = true ->
  process_board (length g) subgrids (givens g) fuel 0 g = (res, g') ->
  keeps_givens (length g) g g'.
Proof.
  intros Hg Hunv Hsearch p Hp Hnz.
  destruct (process_board_frame _ _ _ _ Hg Hsearch) as [_ Hkeep].
  rewrite <- (coord_of_index_of Hp).
  apply Hkeep; [apply index_of_bound; assumption|].
  apply given_not_visited; assumption.
Qed.



(** X11. On a board loaded with positive subgrid counts whose givens are
    valid and are not visited by the search, [backtrack] decides whether
    the puzzle has a solution: it returns, and it returns [True] exactly
    when some solved board keeps the givens; the board it then leaves is
    such a board. *)
Theorem backtrack_decides (fs : filesystem) (path : string)
    (r c : Z) (self loaded : Sudoku) (g : grid) (n : nat)
    (subgrids : list (list coord)) :
  load_board_csv fs path r c self = (Ret (Some true), loaded) ->
  (0 < r)%Z ->
  board loaded = Some g -> sudoku_N loaded = Some n ->
  subgrid_coordinates loaded = Some subgrids ->
  givens_valid loaded = true ->
  givens_unvisited n (protected_coordinates loaded) = true ->
  exists b after,
    backtrack loaded = (Ret b, after) /\
    (b = true <-> exists s, keeps_givens n g s /\ solved n subgrids s) /\
    (b = true ->
     exists g', board after = Some g' /\ keeps_givens n g g' /\
                solved n subgrids g').
Proof.
  intros Hload Hr Hboard HN Hsubs Hvalid Hunv. apply load_success in Hload.
  destruct Hload as [csv [g0 [_ [_ [_ [Hrc [Hg ->]]]]]]].
  unfold givens_valid in Hvalid.
  cbn [loaded_instance with_subgrids with_board with_protected
       board sudoku_N subgrid_coordinates protected_coordinates]
    in Hboard, HN, Hsubs, Hunv, Hvalid.
  inversion Hboard; subst g0. inversion HN; subst n.
  inversion Hsubs; subst subgrids.
  apply andb_true_iff in Hvalid. destruct Hvalid as [Hrange Hcons].
  apply consistent_no_clash in Hcons.
  pose proof (@loaded_tiling r c _ Hrc Hr) as Ht.
  rewrite backtrack_loaded.
  destruct (process_board (length g) (subgrids_of r c) (givens g)
              (S (length g ^ 2)) 0 g) as [res g'] eqn:Hsearch.
  assert (Hfuel : length g ^ 2 - 0 < S (length g ^ 2)) by lia.
  destruct (process_board_ends _ _ 0 Hg Hfuel Hsearch) as [_ [_ Hret]].
  destruct (Hret Ht) as [[|] ->].
  - destruct (process_board_solution Ht _ Hg Hcons
                (loaded_filled_but g Hrange) Hsearch)
      as [Hg' [Hclash Hfilled]].
    pose proof (filled_no_clash_solved Ht Hg' Hfilled Hclash) as Hsolved.
    pose proof (search_keeps_givens _ _ Hg Hunv Hsearch) as Hkeeps.
    exists true. eexists. split; [reflexivity|]. split.
    + split; [|reflexivity]. intros _. exists g'. split; assumption.
    + intros _. exists g'. split; [|split; assumption].
      destruct (after_print_fields "Board has at least one solution."
                  (set_board g' (loaded_instance g r c self))) as [_ [-> _]].
      reflexivity.
  - exists false. eexists. split; [reflexivity|]. split; [|discriminate].
    split; [discriminate|]. intros [s [Hkeeps Hsolved]]. exfalso.
    apply (@process_board_complete (length g) (subgrids_of r c) (givens g)
             (@loaded_on_board r c _ Hrc) _ 0 g g' Hg
             (@visited_cells_empty g Hunv) Hsearch s).
    apply solved_completes; assumption.
Qed.

Lemma backtrack_decides_witness :
  exists b after,
    backtrack (snd (load_lines
       [line "0,0,0,4"; line "0,0,0,0"; line "0,3,0,0"; line "0,0,0,0"]%string
       2 2)) = (Ret b, after) /\
    (b = true <->
     exists s,
       keeps_givens 4
         [[0; 0; 0; 4]; [0; 0; 0; 0]; [0; 3; 0; 0]; [0; 0; 0; 0]]%Z s /\
       solved 4 (tiles 2 2) s) /\
    (b = true ->
     exists g',
       board after = Some g' /\
       keeps_givens 4
         [[0; 0; 0; 4]; [0; 0; 0; 0]; [0; 3; 0; 0]; [0; 0; 0; 0]]%Z g' /\
       solved 4 (tiles 2 2) g').
Proof.
  apply (@backtrack_decides
           (one_file "board.csv"
              [line "0,0,0,4"; line "0,0,0,0"; line "0,3,0,0"; line "0,0,0,0"]%string)
           "board.csv" 2 2 (new_Sudoku false)).
  - vm_compute. reflexivity.
  - lia.
  - vm_compute. reflexivity.
  - vm_compute. reflexivity.
  - vm_compute. reflexivity.
  - vm_compute. reflexivity.
  - vm_compute. reflexivity.
Defined.

(* ================================================================== *)
(** * Which givens the search leaves alone *)

Section Skips.

Variable n : nat.
Variable protected : list coord.



End Skips.

(** When the first cell is not protected and no two protected cells
    follow one another, the search visits no protected cell. *)
Lemma separated_unvisited (n : nat) (protected : list coord) :
  (0 < n -> ~ In (0, 0) protected) ->
  (forall j, j + 1 < n ^ 2 -> In (coord_of n j) protected ->
             ~ In (coord_of n (j + 1)) protected) ->
  givens_unvisited n protected = true.
Proof.
  intros Hfirst Hpairs. unfold givens_unvisited. apply forallb_forall.
  intros j Hj. apply visited_visits in Hj. apply negb_true_iff.
  destruct (coord_in (coord_of n j) protected) eqn:Hin; [|reflexivity].
  exfalso. apply coord_in_In in Hin.
  assert (Hchain : forall i k, visits n protected i k ->
            ~ In (coord_of n i) protected -> ~ In (coord_of n k) protected).
  { clear j Hj Hin. intros i k Hv.
    induction Hv as [i Hi | i k Hi Hv IH]; intros Hfree; [assumption|].
    apply IH. apply visits_bounds in Hv. unfold step in *.
    destruct (coord_in (coord_of n (i + 1)) protected) eqn:Hskip.
    - apply Hpairs; [lia|]. apply coord_in_In. assumption.
    - intros H. apply coord_in_In in H. congruence. }
  apply (Hchain 0 j Hj); [|assumption].
  pose proof (visits_bounds Hj) as [_ Hlt].
  assert (Hn : 0 < n) by (destruct n; [simpl in Hlt; lia | lia]).
  unfold coord_of. rewrite Nat.Div0.div_0_l, Nat.Div0.mod_0_l. auto.
Qed.


(** X13. [backtrack] keeps the givens of a loaded board, however it ends,
    when the first cell of the board is empty and no given comes right
    after another one in the order of the rows (the first cell of a row
    comes right after the last cell of the row before). *)
Theorem separated_givens_are_kept (fs : filesystem) (path : string)
    (r c : Z) (self loaded : Sudoku) (g : grid) (n : nat) :
  load_board_csv fs path r c self = (Ret (Some true), loaded) ->
  board loaded = Some g -> sudoku_N loaded = Some n ->
  value_at g (0, 0) = 0%Z ->
  (forall j, j + 1 < n ^ 2 -> value_at g (coord_of n j) <> 0%Z ->
             value_at g (coord_of n (j + 1)) = 0%Z) ->
  exists g',
    board (snd (backtrack loaded)) = Some g' /\ square n g' /\
    keeps_givens n g g'.
Proof.
  intros Hload Hboard HN Hfirst Hpairs. apply load_success in Hload.
  destruct Hload as [csv [g0 [_ [_ [_ [Hrc [Hg ->]]]]]]].
  cbn [loaded_instance with_subgrids with_board with_protected
       board sudoku_N subgrid_coordinates protected_coordinates]
    in Hboard, HN.
  inversion Hboard; subst g0. inversion HN; subst n.
  assert (Hunv : givens_unvisited (length g) (givens g) = true).
  { apply separated_unvisited.
    - intros _ Hin. apply in_givens in Hin. tauto.
    - intros j Hj Hin Hnext. apply in_givens in Hin, Hnext.
      destruct Hin as [_ Hin], Hnext as [_ Hnext]. auto. }
  rewrite backtrack_loaded.
  destruct (process_board (length g) (subgrids_of r c) (givens g)
              (S (length g ^ 2)) 0 g) as [res g'] eqn:Hsearch.
  exists g'.
  destruct (process_board_frame _ _ _ _ Hg Hsearch) as [Hg' _].
  pose proof (search_keeps_givens _ _ Hg Hunv Hsearch) as Hkeeps.
  split; [|split; assumption].
  destruct res as [[|]|e|]; cbn [snd].
  - destruct (after_print_fields "Board has at least one solution."
                (set_board g' (loaded_instance g r c self))) as [_ [-> _]].
    reflexivity.
  - destruct (after_print_fields "Board has no solutions."
                (set_board g' (loaded_instance g r c self))) as [_ [-> _]].
    reflexivity.
  - reflexivity.
  - reflexivity.
Qed.

Lemma separated_givens_are_kept_witness :
  exists g',
    board (snd (backtrack (snd (load_lines
             [line "0,0,0,4"; line "0,0,0,0"; line "0,3,0,0"; line "0,0,0,0"]%string
             2 2))))
    = Some g' /\ square 4 g' /\
    keeps_givens 4
      [[0; 0; 0; 4]; [0; 0; 0; 0]; [0; 3; 0; 0]; [0; 0; 0; 0]]%Z g'.
Proof.
  apply (@separated_givens_are_kept
           (one_file "board.csv"
              [line "0,0,0,4"; line "0,0,0,0"; line "0,3,0,0"; line "0,0,0,0"]%string)
           "board.csv" 2 2 (new_Sudoku false)).
  - vm_compute. reflexivity.
  - vm_compute. reflexivity.
  - vm_compute. reflexivity.
  - reflexivity.
  - intros j Hj Hnz.
    assert (Hcases : j = 3 \/ j = 9 \/ (j <> 3 /\ j <> 9)) by lia.
    destruct Hcases as [->| [->| [H3 H9]]]; [reflexivity | reflexivity |].
    exfalso. apply Hnz. simpl in Hj.
    do 16 (destruct j as [|j]; [try reflexivity; lia|]). lia.
Defined.

(* ================================================================== *)
(** * Searches that end at the first cell *)

Section FirstCell.

Variable N : nat.
Variable subgrids : list (list coord).
Variable protected : list coord.

Variable g : grid.
Hypothesis Hg : square N g.

Lemma rows_columns_free_line (num : Z) (c : coord) :
  in_bounds N c ->
  rows_columns_free g num c (Py.range N) = Ret (line_free N g c num).
Proof.
  intros Hc. apply (@rows_columns_free_existsb N); try assumption.
  apply Forall_forall. intros i Hi. apply in_seq in Hi. lia.
Qed.

(** The check refuses a number that the row or the column holds, without
    a look at the subgrids. *)
Lemma validate_line_taken (num : Z) (c : coord) :
  in_bounds N c -> line_free N g c num = false ->
  validate_num_at_coord N subgrids num c g = Ret false.
Proof.
  intros Hc Hline. unfold validate_num_at_coord.
  rewrite rows_columns_free_line by assumption. rewrite Hline. reflexivity.
Qed.

(** For a number that the row and the column do not hold, the check
    needs the subgrid of the coordinate, and raises when there is none. *)
Lemma validate_no_subgrid (num : Z) (c : coord) :
  in_bounds N c -> line_free N g c num = true ->
  get_subgrid_from_coord subgrids c = None ->
  validate_num_at_coord N subgrids num c g = Raise TypeError.
Proof.
  intros Hc Hline Hnone. unfold validate_num_at_coord.
  rewrite rows_columns_free_line by assumption. rewrite Hline, Hnone.
  reflexivity.
Qed.

Lemma try_candidates_rejected (recurse : nat -> Run grid bool) (i : nat)
    (c : coord) (ds : list nat) :
  N <> 0 -> in_bounds N c ->
  (forall d, In d ds -> line_free N g c (Z.of_nat d) = false) ->
  try_candidates N subgrids protected recurse i c ds g = (Ret false, g).
Proof.
  intros Hn Hc. induction ds as [|d ds IH]; intros Hline; [reflexivity|].
  rewrite try_candidates_cons by assumption.
  rewrite validate_line_taken; [|assumption | apply Hline; left; reflexivity].
  apply IH. intros d' Hd'. apply Hline. right. assumption.
Qed.

Lemma try_candidates_no_subgrid (recurse : nat -> Run grid bool) (i : nat)
    (c : coord) (ds : list nat) :
  N <> 0 -> in_bounds N c -> get_subgrid_from_coord subgrids c = None ->
  try_candidates N subgrids protected recurse i c ds g =
  if existsb (fun d => line_free N g c (Z.of_nat d)) ds
  then (Raise TypeError, g) else (Ret false, g).
Proof.
  intros Hn Hc Hnone. induction ds as [|d ds IH]; [reflexivity|].
  rewrite try_candidates_cons by assumption. cbn [existsb].
  destruct (line_free N g c (Z.of_nat d)) eqn:Hline.
  - rewrite validate_no_subgrid by assumption. reflexivity.
  - rewrite validate_line_taken by assumption. exact IH.
Qed.

Lemma coord_of_first : N <> 0 -> coord_of N 0 = (0, 0).
Proof.
  intros Hn. unfold coord_of.
  rewrite Nat.Div0.div_0_l, Nat.Div0.mod_0_l. reflexivity.
Qed.

Lemma first_cell_bounds : N <> 0 -> 0 < N ^ 2 /\ in_bounds N (0, 0).
Proof. intros Hn. split; [simpl; nia | split; simpl; lia]. Qed.

(** When the first row and the first column hold every candidate, the
    search ends at once: it fails, and empties the first cell. *)
Lemma first_cell_rejected (fuel : nat) :
  N <> 0 ->
  (forall d, 1 <= d <= N -> line_free N g (0, 0) (Z.of_nat d) = false) ->
  process_board N subgrids protected (S fuel) 0 g
  = (Ret false, put g (0, 0) 0%Z).
Proof.
  intros Hn Hline. destruct (first_cell_bounds Hn) as [H0 Hc].
  rewrite process_board_unfold by assumption.
  rewrite coord_of_first by assumption.
  rewrite try_candidates_rejected; try assumption.
  - rewrite (set_cell_put _ Hg Hc). reflexivity.
  - intros d Hd. apply Hline. apply in_seq in Hd. lia.
Qed.

(** And when the first cell has no subgrid, the search raises at the
    first candidate that the first row and column do not hold. *)
Lemma first_cell_no_subgrid (fuel : nat) :
  N <> 0 -> get_subgrid_from_coord subgrids (0, 0) = None ->
  process_board N subgrids protected (S fuel) 0 g =
  if existsb (fun d => line_free N g (0, 0) (Z.of_nat d)) (seq 1 N)
  then (Raise TypeError, g) else (Ret false, put g (0, 0) 0%Z).
Proof.
  intros Hn Hnone. destruct (first_cell_bounds Hn) as [H0 Hc].
  rewrite process_board_unfold by assumption.
  rewrite coord_of_first by assumption.
  rewrite try_candidates_no_subgrid by assumption.
  destruct (existsb _ _); [reflexivity|].
  rewrite (set_cell_put _ Hg Hc). reflexivity.
Qed.

End FirstCell.

Lemma backtrack_unfold (self : Sudoku) (g : grid) (n : nat)
    (subgrids : list (list coord)) :
  board self = Some g -> sudoku_N self = Some n ->
  subgrid_coordinates self = Some subgrids ->
  backtrack self =
  match process_board n subgrids (protected_coordinates self)
          (S (n ^ 2)) 0 g with
  | (Ret true, g') =>
      (Ret true, after_print "Board has at least one solution."
                   (set_board g' self))
  | (Ret false, g') =>
      (Ret false, after_print "Board has no solutions." (set_board g' self))
  | (Raise e, g') => (Raise e, set_board g' self)
  | (OutOfFuel, g') => (OutOfFuel, set_board g' self)
  end.
Proof.
  intros Hboard HN Hsubs. unfold backtrack. rewrite Hboard, HN, Hsubs.
  destruct (process_board _ _ _ _ _ _) as [[[|]| |] g']; reflexivity.
Qed.

(** A value in a row of the board makes the first loop of the check
    fail. *)
Lemma line_taken_by_row (n : nat) (g : grid) (c : coord) (k : nat) :
  k < n -> line_free n g c (value_at g (fst c, k)) = false.
Proof.
  intros Hk. unfold line_free. apply negb_false_iff. apply existsb_exists.
  exists k. split; [apply in_seq; lia|].
  rewrite Z.eqb_refl. reflexivity.
Qed.

(** X14. [backtrack] on a loaded board whose first row and first column hold
    every value of 1..N between them, a complete board for one, returns
    [False] at once and leaves the board with its first cell emptied. *)
Theorem full_first_line_fails (fs : filesystem) (path : string)
    (r c : Z) (self loaded : Sudoku) (g : grid) (n : nat) :
  load_board_csv fs path r c self = (Ret (Some true), loaded) ->
  board loaded = Some g -> sudoku_N loaded = Some n -> 0 < n ->
  (forall d, 1 <= d <= n -> line_free n g (0, 0) (Z.of_nat d) = false) ->
  backtrack loaded
  = (Ret false,
     after_print "Board has no solutions."
       (set_board (put g (0, 0) 0%Z) loaded)).
Proof.
  intros Hload Hboard HN Hn Hline. apply load_success in Hload.
  destruct Hload as [csv [g0 [_ [_ [_ [Hrc [Hg ->]]]]]]].
  cbn [loaded_instance with_subgrids with_board with_protected
       board sudoku_N subgrid_coordinates protected_coordinates]
    in Hboard, HN.
  inversion Hboard; subst g0. inversion HN; subst n.
  rewrite backtrack_loaded.
  rewrite (@first_cell_rejected (length g)); [reflexivity | assumption | lia |].
  assumption.
Qed.

Lemma full_first_line_fails_witness :
  backtrack (snd (load_lines solved4 2 2))
  = (Ret false,
     after_print "Board has no solutions."
       (set_board
          (put [[1; 2; 3; 4]; [3; 4; 1; 2]; [2; 1; 4; 3]; [4; 3; 2; 1]]%Z
               (0, 0) 0%Z)
          (snd (load_lines solved4 2 2)))).
Proof.
  apply (@full_first_line_fails (one_file "board.csv" solved4) "board.csv"
           2 2 (new_Sudoku false) (snd (load_lines solved4 2 2)) _ 4).
  - vm_compute. reflexivity.
  - vm_compute. reflexivity.
  - vm_compute. reflexivity.
  - lia.
  - intros d Hd.
    assert (Hcases : d = 1 \/ d = 2 \/ d = 3 \/ d = 4) by lia.
    destruct Hcases as [->| [->| [->| ->]]]; reflexivity.
Defined.

(** X15. [backtrack] is not to be called twice: after a call that returned
    [True] on a loaded board with valid givens, a second call finds every
    value in the first row, returns [False] and empties the first cell of
    the solved board. *)
Theorem second_backtrack_fails (fs : filesystem) (path : string)
    (r c : Z) (self loaded after : Sudoku) (n : nat) :
  load_board_csv fs path r c self = (Ret (Some true), loaded) ->
  givens_valid loaded = true ->
  sudoku_N loaded = Some n -> 0 < n ->
  backtrack loaded = (Ret true, after) ->
  exists g',
    board after = Some g' /\
    backtrack after
    = (Ret false,
       after_print "Board has no solutions."
         (set_board (put g' (0, 0) 0%Z) after)).
Proof.
  intros Hload Hvalid HN Hn Hrun. apply load_success in Hload.
  destruct Hload as [csv [g [_ [_ [_ [Hrc [Hg ->]]]]]]].
  unfold givens_valid in Hvalid.
  cbn [loaded_instance with_subgrids with_board with_protected
       board sudoku_N subgrid_coordinates protected_coordinates]
    in Hvalid, HN.
  inversion HN; subst n.
  apply andb_true_iff in Hvalid. destruct Hvalid as [Hrange Hcons].
  apply consistent_no_clash in Hcons.
  rewrite backtrack_loaded in Hrun.
  destruct (process_board (length g) (subgrids_of r c) (givens g)
              (S (length g ^ 2)) 0 g) as [[[|]| |] g'] eqn:Hsearch;
    try discriminate.
  inversion Hrun; subst after. clear Hrun. exists g'.
  destruct (after_print_fields "Board has at least one solution."
              (set_board g' (loaded_instance g r c self)))
    as [_ [Hb [Hsize [_ [_ [Hsubs _]]]]]].
  cbn [set_board loaded_instance with_subgrids with_board with_protected
       board sudoku_N subgrid_coordinates] in Hb, Hsize, Hsubs.
  split; [assumption|].
  destruct (loaded_subgrids r c _ Hrc) as [Ht | [Hnone _]].
  2:{ exfalso. rewrite Hnone in Hsearch.
      refine (no_subgrids_no_success _ _ Hg _ Hsearch). simpl. nia. }
  destruct (process_board_solution Ht _ Hg Hcons
              (loaded_filled_but g Hrange) Hsearch)
    as [Hg' [Hclash Hfilled]].
  pose proof (filled_no_clash_solved Ht Hg' Hfilled Hclash) as [Hrows _].
  rewrite (backtrack_unfold _ Hb Hsize Hsubs).
  rewrite (@first_cell_rejected (length g)); [reflexivity | assumption | lia |].
  intros d Hd. specialize (Hrows 0 Hn).
  assert (Hin : In (Z.of_nat d) (row_values g' 0)).
  { apply (Permutation_in _ (Permutation_sym Hrows)). apply in_one_to. lia. }
  destruct (In_nth _ _ 0%Z Hin) as [k [Hk Hnth]].
  rewrite (Permutation_length Hrows), length_one_to in Hk.
  rewrite <- Hnth. exact (@line_taken_by_row (length g) g' (0, 0) k Hk).
Qed.

Lemma second_backtrack_fails_witness :
  exists g',
    board (snd (backtrack (snd (load_lines empty4 2 2)))) = Some g' /\
    backtrack (snd (backtrack (snd (load_lines empty4 2 2))))
    = (Ret false,
       after_print "Board has no solutions."
         (set_board (put g' (0, 0) 0%Z)
            (snd (backtrack (snd (load_lines empty4 2 2)))))).
Proof.
  apply (@second_backtrack_fails (one_file "board.csv" empty4) "board.csv"
           2 2 (new_Sudoku false) (snd (load_lines empty4 2 2)) _ 4).
  - vm_compute. reflexivity.
  - vm_compute. reflexivity.
  - vm_compute. reflexivity.
  - lia.
  - vm_compute. reflexivity.
Defined.

(** X16. With two negative counts whose product is N the load succeeds but
    derives no subgrid, and [backtrack] never returns [True]: it raises
    TypeError, leaving the instance as loaded, when some value of 1..N is
    in neither the first row nor the first column; otherwise it returns
    [False] and empties the first cell. *)
Theorem negative_counts_backtrack (fs : filesystem) (path : string)
    (r c : Z) (self loaded : Sudoku) (g : grid) (n : nat) :
  load_board_csv fs path r c self = (Ret (Some true), loaded) ->
  (r < 0)%Z -> (c < 0)%Z ->
  board loaded = Some g -> sudoku_N loaded = Some n ->
  subgrid_coordinates loaded = Some [] /\
  backtrack loaded =
  if existsb (fun d => line_free n g (0, 0) (Z.of_nat d)) (seq 1 n)
  then (Raise TypeError, loaded)
  else (Ret false,
        after_print "Board has no solutions."
          (set_board (put g (0, 0) 0%Z) loaded)).
Proof.
  intros Hload Hr Hc Hboard HN. apply load_success in Hload.
  destruct Hload as [csv [g0 [_ [_ [_ [Hrc [Hg ->]]]]]]].
  cbn [loaded_instance with_subgrids with_board with_protected
       board sudoku_N subgrid_coordinates protected_coordinates]
    in Hboard, HN |- *.
  inversion Hboard; subst g0. inversion HN; subst n.
  assert (Hnone : subgrids_of r c = []).
  { destruct (loaded_subgrids r c _ Hrc) as [Ht | [Hnone _]];
      [|assumption].
    rewrite subgrids_of_tiles in *.
    replace (Z.to_nat r) with 0 in * by lia.
    replace (Z.to_nat c) with 0 in * by lia. reflexivity. }
  split; [rewrite Hnone; reflexivity|].
  assert (Hn : length g <> 0) by nia.
  rewrite backtrack_loaded. rewrite Hnone.
  rewrite (@first_cell_no_subgrid (length g)); [|assumption | assumption |].
  2:{ reflexivity. }
  destruct (existsb _ _); reflexivity.
Qed.

Lemma negative_counts_backtrack_witness :
  subgrid_coordinates (snd (load_lines empty4 (-2) (-2))) = Some [] /\
  backtrack (snd (load_lines empty4 (-2) (-2))) =
  if existsb
       (fun d =>
          line_free 4 [[0; 0; 0; 0]; [0; 0; 0; 0]; [0; 0; 0; 0]; [0; 0; 0; 0]]%Z
            (0, 0) (Z.of_nat d))
       (seq 1 4)
  then (Raise TypeError, snd (load_lines empty4 (-2) (-2)))
  else (Ret false,
        after_print "Board has no solutions."
          (set_board
             (put [[0; 0; 0; 0]; [0; 0; 0; 0]; [0; 0; 0; 0]; [0; 0; 0; 0]]%Z
                  (0, 0) 0%Z)
             (snd (load_lines empty4 (-2) (-2))))).
Proof.
  apply (@negative_counts_backtrack (one_file "board.csv" empty4) "board.csv"
           (-2) (-2) (new_Sudoku false) (snd (load_lines empty4 (-2) (-2)))
           _ 4).
  - vm_compute. reflexivity.
  - lia.
  - lia.
  - vm_compute. reflexivity.
  - vm_compute. reflexivity.
Defined.

(* ================================================================== *)
(** * What the search writes *)

(** The search writes values of 0..N only: whatever way it ends, a cell
    holds the value it held before or a value of 0..N. *)
Lemma process_board_range (N : nat) (subgrids : list (list coord))
    (protected : list coord) (fuel i : nat) (g : grid) (r : outcome bool)
    (g' : grid) :
  square N g ->
  process_board N subgrids protected fuel i g = (r, g') ->
  forall p, in_bounds N p ->
    value_at g' p = value_at g p \/ (0 <= value_at g' p <= Z.of_nat N)%Z.
Proof.
  pose (ranged (g0 g1 : grid) :=
          square N g1 /\
          forall p, in_bounds N p ->
            value_at g1 p = value_at g0 p \/
            (0 <= value_at g1 p <= Z.of_nat N)%Z).
  intros Hg Hrun.
  assert (Hput : forall i0 g0 g1 x,
            i0 < N ^ 2 -> (0 <= x <= Z.of_nat N)%Z -> ranged g0 g1 ->
            ranged g0 (put g1 (coord_of N i0) x)).
  { intros i0 g0 g1 x Hi Hx [Hg1 Hr].
    pose proof (coord_of_in_bounds N Hi) as Hc. split.
    - apply square_put; assumption.
    - intros p Hp. destruct (coord_eq_dec p (coord_of N i0)) as [->|Hne].
      + right. rewrite (value_at_put_eq _ Hg1 Hc). assumption.
      + rewrite (value_at_put_ne _ Hg1 Hc Hne). auto. }
  assert (Htrans : forall g0 g1 g2, ranged g0 g1 -> ranged g1 g2 ->
                                    ranged g0 g2).
  { intros g0 g1 g2 [_ H01] [Hg2 H12]. split; [assumption|].
    intros p Hp. destruct (H12 p Hp) as [E|Hr]; [|auto].
    rewrite E. auto. }
  apply (@process_board_rule N subgrids protected
           (fun _ _ g => square N g)
           (fun _ _ g0 g1 => ranged g0 g1)
           (fun _ _ g0 _ g1 => ranged g0 g1)) with (fuel := fuel) (r := r)
           (i := i);
    try assumption; unfold ranged in *; clear Hrun Hg.
  - intros _ _ g0 g1 [H _]. exact H.
  - intros i0 g0 Hg0. auto.
  - intros f i0 g0 Hg0 _. auto.
  - intros f i0 g0 Hg0 _. auto.
  - intros f i0 g0 g1 d e H _ _ _. exact H.
  - intros f i0 g0 g1 d [Hg1 _] Hi _ _.
    apply square_put; [assumption | apply coord_of_in_bounds; assumption].
  - intros f i0 g0 g1 d r0 g2 Hinv Hi Hd _ Hpost.
    assert (H : square N g2 /\
                forall p, in_bounds N p ->
                  value_at g2 p = value_at g0 p \/
                  (0 <= value_at g2 p <= Z.of_nat N)%Z).
    { apply (Htrans g0 (put g1 (coord_of N i0) (Z.of_nat d)) g2);
        [|assumption].
      apply Hput; [assumption | lia | assumption]. }
    destruct r0 as [[|]| |]; exact H.
  - intros f i0 g0 g1 Hinv Hi. apply Hput; [assumption | lia | assumption].
Qed.

(** X17. [backtrack] changes the board and standard output, nothing else; the
    board keeps its size, and each cell keeps its value or gets a value
    of 0..N.  So a board with values in 0..N has values in 0..N after
    the call, however it ends. *)
Theorem backtrack_writes_in_range (fs : filesystem) (path : string)
    (r c : Z) (self loaded : Sudoku) (g : grid) (n : nat) :
  load_board_csv fs path r c self = (Ret (Some true), loaded) ->
  board loaded = Some g -> sudoku_N loaded = Some n ->
  exists g',
    board (snd (backtrack loaded)) = Some g' /\ square n g' /\
    (forall p, in_bounds n p ->
       value_at g' p = value_at g p \/ (0 <= value_at g' p <= Z.of_nat n)%Z) /\
    (in_range n g = true -> in_range n g' = true) /\
    verbosity (snd (backtrack loaded)) = verbosity loaded /\
    sudoku_N (snd (backtrack loaded)) = sudoku_N loaded /\
    subgrid_row_count (snd (backtrack loaded)) = subgrid_row_count loaded /\
    subgrid_column_count (snd (backtrack loaded))
    = subgrid_column_count loaded /\
    subgrid_coordinates (snd (backtrack loaded))
    = subgrid_coordinates loaded /\
    protected_coordinates (snd (backtrack loaded))
    = protected_coordinates loaded.
Proof.
  intros Hload Hboard HN. apply load_success in Hload.
  destruct Hload as [csv [g0 [_ [_ [_ [Hrc [Hg ->]]]]]]].
  cbn [loaded_instance with_subgrids with_board with_protected
       board sudoku_N subgrid_coordinates protected_coordinates]
    in Hboard, HN.
  inversion Hboard; subst g0. inversion HN; subst n.
  rewrite backtrack_loaded.
  destruct (process_board (length g) (subgrids_of r c) (givens g)
              (S (length g ^ 2)) 0 g) as [res g'] eqn:Hsearch.
  exists g'.
  destruct (process_board_frame _ _ _ _ Hg Hsearch) as [Hg' _].
  pose proof (process_board_range _ _ _ _ Hg Hsearch) as Hrange.
  assert (Hin : in_range (length g) g = true -> in_range (length g) g' = true).
  { unfold in_range. rewrite !forallb_forall. intros H p Hp.
    specialize (H p Hp). apply in_all_coords in Hp.
    destruct (Hrange p Hp) as [E|Hr].
    - rewrite E. assumption.
    - apply orb_true_iff.
      destruct (Z.eq_dec (value_at g' p) 0) as [E0|E0];
        [left; apply Z.eqb_eq; assumption|].
      right. apply andb_true_iff. split; apply Z.leb_le; lia. }
  destruct res as [[|]|e|]; cbn [snd].
  - destruct (after_print_fields "Board has at least one solution."
                (set_board g' (loaded_instance g r c self)))
      as [-> [-> [-> [-> [-> [-> ->]]]]]].
    repeat (split; [first [reflexivity | assumption]|]). reflexivity.
  - destruct (after_print_fields "Board has no solutions."
                (set_board g' (loaded_instance g r c self)))
      as [-> [-> [-> [-> [-> [-> ->]]]]]].
    repeat (split; [first [reflexivity | assumption]|]). reflexivity.
  - repeat (split; [first [reflexivity | assumption]|]). reflexivity.
  - repeat (split; [first [reflexivity | assumption]|]). reflexivity.
Qed.

Lemma backtrack_writes_in_range_witness :
  exists g',
    board (snd (backtrack (snd (load_lines first_row_given 1 2)))) = Some g' /\
    square 2 g' /\
    (forall p, in_bounds 2 p ->
       value_at g' p = value_at [[1; 2]; [0; 0]]%Z p \/
       (0 <= value_at g' p <= Z.of_nat 2)%Z) /\
    (in_range 2 [[1; 2]; [0; 0]]%Z = true -> in_range 2 g' = true) /\
    verbosity (snd (backtrack (snd (load_lines first_row_given 1 2))))
    = verbosity (snd (load_lines first_row_given 1 2)) /\
    sudoku_N (snd (backtrack (snd (load_lines first_row_given 1 2))))
    = sudoku_N (snd (load_lines first_row_given 1 2)) /\
    subgrid_row_count (snd (backtrack (snd (load_lines first_row_given 1 2))))
    = subgrid_row_count (snd (load_lines first_row_given 1 2)) /\
    subgrid_column_count
      (snd (backtrack (snd (load_lines first_row_given 1 2))))
    = subgrid_column_count (snd (load_lines first_row_given 1 2)) /\
    subgrid_coordinates
      (snd (backtrack (snd (load_lines first_row_given 1 2))))
    = subgrid_coordinates (snd (load_lines first_row_given 1 2)) /\
    protected_coordinates
      (snd (backtrack (snd (load_lines first_row_given 1 2))))
    = protected_coordinates (snd (load_lines first_row_given 1 2)).
Proof.
  apply (@backtrack_writes_in_range (one_file "board.csv" first_row_given)
           "board.csv" 1 2 (new_Sudoku false)
           (snd (load_lines first_row_given 1 2))).
  - vm_compute. reflexivity.
  - vm_compute. reflexivity.
  - vm_compute. reflexivity.
Defined.

(** X18. The board of side 0: a load leaves it only for a file without lines
    and two counts whose product is 0, and [backtrack] then returns
    [True] on the empty board. *)
Theorem empty_board_has_solution (fs : filesystem) (path : string)
    (r c : Z) (self loaded : Sudoku) :
  load_board_csv fs path r c self = (Ret (Some true), loaded) ->
  sudoku_N loaded = Some 0 ->
  fs path = Some [] /\ (r * c = 0)%Z /\ board loaded = Some [] /\
  fst (backtrack loaded) = Ret true /\
  board (snd (backtrack loaded)) = Some [].
Proof.
  intros Hload HN. apply load_success in Hload.
  destruct Hload as [csv [g [Hfs [_ [Hgrid [Hrc [Hg ->]]]]]]].
  cbn [loaded_instance with_subgrids with_board with_protected
       board sudoku_N] in HN |- *.
  inversion HN as [Hlen]. apply length_zero_iff_nil in Hlen. subst g.
  assert (Hcsv : csv = []).
  { destruct csv as [|row csv]; [reflexivity|]. exfalso.
    unfold text_board_of in Hgrid. cbn [map grid_of] in Hgrid.
    destruct (ints_of _); [|discriminate].
    destruct (grid_of _); discriminate. }
  subst csv. split; [assumption|]. split; [simpl in Hrc; lia|].
  split; [reflexivity|]. rewrite backtrack_loaded.
  rewrite process_board_end by (simpl; lia). cbn [fst snd].
  split; [reflexivity|].
  destruct (after_print_fields "Board has at least one solution."
              (set_board [] (loaded_instance [] r c self))) as [_ [-> _]].
  reflexivity.
Qed.

Lemma empty_board_has_solution_witness :
  one_file "board.csv" [] "board.csv"%string = Some [] /\ (0 * 5 = 0)%Z /\
  board (snd (load_lines [] 0 5)) = Some [] /\
  fst (backtrack (snd (load_lines [] 0 5))) = Ret true /\
  board (snd (backtrack (snd (load_lines [] 0 5)))) = Some [].
Proof.
  apply (@empty_board_has_solution (one_file "board.csv" []) "board.csv"
           0 5 (new_Sudoku false) (snd (load_lines [] 0 5))).
  - vm_compute. reflexivity.
  - vm_compute. reflexivity.
Defined.
